(** * HSLuv colour conversion and the button palette generator

    A shallow embedding of [HSLuv.js] (namespace [HSLuv] and the contrast
    tools that follow it) and of the palette generator script
    ([generateButtonPalette], [resolveButtonState], the callbacks of the
    knobs and of the test button, and the button's paint routine).  A
    callback is a function from the state it reads to the state it leaves
    and the list of calls it makes to the host; the paint routine returns
    the list of its drawing calls.

    Numbers are the script's numbers: IEEE-754 binary64 values, here Rocq's
    primitive [float], whose operations are specified by the Standard
    Library's [FloatAxioms].  Arrays of three or four numbers are tuples.
    The host's transcendental functions ([Math.pow], [Math.sin], ...) and its
    [Colours] object are not part of the scripts; they are fields of the
    records [Math.api] and [Colours.api] that the definitions take as
    arguments, so every theorem holds for whatever the host computes. *)

From Stdlib Require Import ZArith Bool List String Lia.
From Stdlib Require Import Floats.
Import ListNotations.

#[local] Set Warnings "-inexact-float".
#[local] Open Scope float_scope.

(** The script's [a > b] and [a >= b] on numbers. *)
Notation "x >? y" := (PrimFloat.ltb y x)
  (at level 70, no associativity, only parsing) : float_scope.
Notation "x >=? y" := (PrimFloat.leb y x)
  (at level 70, no associativity, only parsing) : float_scope.

Definition vec3 : Type := float * float * float.
Definition vec4 : Type := float * float * float * float.

(** ** The host's [Math] object *)
Module Math.

(** The functions whose results depend on the host's numeric library. *)
Record api : Type := {
  pow : float -> float -> float;
  sin : float -> float;
  cos : float -> float;
  atan : float -> float;
  fmod : float -> float -> float;
  toRadians : float -> float;
  toDegrees : float -> float
}.

Definition isnan (v : float) : bool := PrimFloat.is_nan v.
Definition isinf (v : float) : bool := PrimFloat.is_infinity v.
Definition abs (v : float) : float := PrimFloat.abs v.
Definition sqrt (v : float) : float := PrimFloat.sqrt v.

(** [Math.range(v, lo, hi)] limits [v] to the interval from [lo] to [hi]:
    the lower limit when [v] is below it, the upper limit when [v] is
    above it, [v] itself otherwise. *)
Definition range (v lo hi : float) : float :=
  if v <? lo then lo else if hi <? v then hi else v.

(** [Math.max(a, b)] and [Math.min(a, b)]: the larger and the smaller of
    two numbers; the first one when the comparison does not hold (equal
    numbers, or a NaN). *)
Definition max (a b : float) : float := if a <? b then b else a.
Definition min (a b : float) : float := if b <? a then b else a.

End Math.

(** ** The host's [Colours] object *)
Module Colours.

(** A packed colour and its conversions to and from [[r, g, b, a]]. *)
Record api : Type := {
  colour : Type;
  toVec4 : colour -> vec4;
  fromVec4 : vec4 -> colour
}.

End Colours.

(** ** namespace HSLuv *)
Module HSLuv.

Definition REF_X : float := 0.95047.
Definition REF_Y : float := 1.0.
Definition REF_Z : float := 1.08883.

Definition M00 : float := 3.2404542.
Definition M01 : float := -1.5371385.
Definition M02 : float := -0.4985314.

Definition M10 : float := -0.9692660.
Definition M11 : float := 1.8760108.
Definition M12 : float := 0.0415560.

Definition M20 : float := 0.0556434.
Definition M21 : float := -0.2040259.
Definition M22 : float := 1.0572252.

Definition PI : float := 3.141592653589793.
Definition EPS : float := 1e-10.
Definition K : float := 903.2962962.
Definition E : float := 0.0088564516.

(** sanitize: replace NaN/Inf with 0.0 *)
Definition sanitize (v : float) : float :=
  if Math.isnan v then 0.0
  else if Math.isinf v then 0.0
  else v.

Definition clamp01 (v : float) : float :=
  if v <? 0.0 then 0.0
  else if v >? 1.0 then 1.0
  else v.

Section WithHost.

Variable M : Math.api.

Definition myAtan2 (y_in x_in : float) : float :=
  let y := sanitize y_in in
  let x := sanitize x_in in
  if x >? 0.0 then Math.atan M (y / x)
  else if (x <? 0.0) && (y >=? 0.0) then Math.atan M (y / x) + PI
  else if (x <? 0.0) && (y <? 0.0) then Math.atan M (y / x) - PI
  else if (x =? 0.0) && (y >? 0.0) then PI / 2.0
  else if (x =? 0.0) && (y <? 0.0) then (- PI) / 2.0
  else 0.0.

(** sRGB companding (linear -> sRGB) *)
Definition srgbCompanding (c : float) : float :=
  let c_sanitized := sanitize c in
  if c_sanitized <=? 0.0031308 then 12.92 * c_sanitized
  else 1.055 * Math.pow M c_sanitized (1.0 / 2.4) - 0.055.

(** inverse companding (sRGB -> linear) *)
Definition srgbInverseCompanding (c : float) : float :=
  let c_sanitized := sanitize c in
  let c_sanitized := Math.range c_sanitized 0.0 1.0 in
  if c_sanitized <=? 0.04045 then c_sanitized / 12.92
  else Math.pow M ((c_sanitized + 0.055) / 1.055) 2.4.

(** pushLine_safe: returns [[m, b]] or null *)
Definition pushLine_safe (mc0 mc1 mc2 L t : float) : option (float * float) :=
  let mc0_s := sanitize mc0 in
  let mc1_s := sanitize mc1 in
  let mc2_s := sanitize mc2 in
  let L_s := sanitize L in
  let t_s := sanitize t in
  let sub1 := Math.pow M ((L_s + 16.0) / 116.0) 3.0 in
  let sub2 := if sub1 >? E then sub1 else L_s / K in
  let sub2 := sanitize sub2 in
  if Math.abs sub2 <? EPS then None
  else
    let top1 := (284517.0 * mc0_s - 94839.0 * mc2_s) * sub2 in
    let top2 := (838422.0 * mc2_s + 769860.0 * mc1_s + 731718.0 * mc0_s) * sub2 * L_s
                - 769860.0 * t_s * L_s in
    let bottom := (632260.0 * mc2_s - 126452.0 * mc1_s) * sub2 + 126452.0 * t_s in
    let bottom := sanitize bottom in
    if Math.abs bottom <? EPS then None
    else
      let m := top1 / bottom in
      let b := top2 / bottom in
      if Math.isnan m || Math.isinf m || Math.isnan b || Math.isinf b then None
      else
        let m := sanitize m in
        let b := sanitize b in
        Some (m, b).

(** getBounds: the (up to six) lines [[m, b]] of the sRGB gamut for a
    given L.  The script also computes [sub1] and [sub2] here and never
    reads them. *)
Definition getBounds (L : float) : list (float * float) :=
  let m : list vec3 :=
    [ (3.240969941904521, -1.537383177570093, -0.498610760293);
      (-0.96924363628087, 1.87596750150772, 0.041555057407175);
      (0.055630079696993, -0.20397695888897, 1.056971514242878) ] in
  fold_left
    (fun result row =>
       let '(mc0, mc1, mc2) := row in
       (* lower bound (t=0) *)
       let line0 := pushLine_safe mc0 mc1 mc2 L 0 in
       let result := match line0 with Some l => result ++ [l] | None => result end in
       (* upper bound (t=1) *)
       let line1 := pushLine_safe mc0 mc1 mc2 L 1 in
       match line1 with Some l => result ++ [l] | None => result end)
    m [].

(** The ray-intersection length of one boundary line at angle [hRad]. *)
Definition rayLength (hRad : float) (line : float * float) : float :=
  let slope := fst line in
  let intercept := snd line in
  intercept / (Math.sin M hRad - slope * Math.cos M hRad).

(** One pass of the loop of [maxChromaForLH]. *)
Definition minLengthStep (hRad : float) (minLength : float) (line : float * float) : float :=
  let length := rayLength hRad line in
  if (length >=? 0) && (length <? minLength) then length else minLength.

(** maxChromaForLH: maximum chroma for given L and H (degrees) *)
Definition maxChromaForLH (L H : float) : float :=
  let hRad := Math.toRadians M H in
  let bounds := getBounds L in
  let minLength := 1e10 in
  fold_left (minLengthStep hRad) bounds minLength.

(** *** conversion chain forward (HSLuv -> RGB) *)

Definition hsluvToLch (HSL : vec3) : vec3 :=
  let '(H0, S0, L0) := HSL in
  let H := sanitize H0 in
  let S := sanitize S0 in
  let L := sanitize L0 in
  if (L <? EPS) || (L >? 99.99999) then (L, 0.0, H)
  else
    let maxC := maxChromaForLH L H in
    if maxC <=? EPS then (L, 0.0, H)
    else
      let Sat := Math.range S 0.0 100.0 in
      let C := maxC * (Sat / 100.0) in
      let C := sanitize C in
      (L, C, H).

Definition lchToLuv (LCH : vec3) : vec3 :=
  let '(L0, C0, H0) := LCH in
  let L := sanitize L0 in
  let C := sanitize C0 in
  let H := sanitize H0 in
  let Hrad := Math.toRadians M H in
  let u := C * Math.cos M Hrad in
  let v := C * Math.sin M Hrad in
  let u := sanitize u in
  let v := sanitize v in
  (L, u, v).

Definition luvToXyz (Luv : vec3) : vec3 :=
  let '(L0, u0, v0) := Luv in
  let L := sanitize L0 in
  let u := sanitize u0 in
  let v := sanitize v0 in
  (* Step 1: Y *)
  let Y := if L <=? 8 then L * REF_Y / 903.3
           else Math.pow M ((L + 16) / 116) 3 * REF_Y in
  (* Step 2: Uref / Vref *)
  let Uref := 4.0 * REF_X / (REF_X + 15.0 * REF_Y + 3.0 * REF_Z) in
  let Vref := 9.0 * REF_Y / (REF_X + 15.0 * REF_Y + 3.0 * REF_Z) in
  (* Step 3: U / V *)
  let '(U, V) :=
    if L <? EPS then (Uref, Vref)
    else (u / (13.0 * L) + Uref, v / (13.0 * L) + Vref) in
  (* Step 4: X / Z *)
  let denom := 4.0 * V in
  let denom := if Math.abs denom <? EPS then EPS else denom in
  let X := Y * 9.0 * U / denom in
  let Z := Y * (12.0 - 3.0 * U - 20.0 * V) / denom in
  (X, Y, Z).

Definition xyzToRgb (XYZ : vec3) : vec3 :=
  let '(x0, y0, z0) := XYZ in
  let x := sanitize x0 in
  let y := sanitize y0 in
  let z := sanitize z0 in
  let r_lin := x * M00 + y * M01 + z * M02 in
  let g_lin := x * M10 + y * M11 + z * M12 in
  let b_lin := x * M20 + y * M21 + z * M22 in
  let r := srgbCompanding r_lin in
  let g := srgbCompanding g_lin in
  let b := srgbCompanding b_lin in
  let r := clamp01 (sanitize r) in
  let g := clamp01 (sanitize g) in
  let b := clamp01 (sanitize b) in
  (r, g, b).

(** *** conversion chain backward (RGB -> HSLuv) *)

Definition rgbToXyz (RGB : vec3) : vec3 :=
  let '(r0, g0, b0) := RGB in
  let r := sanitize r0 in
  let g := sanitize g0 in
  let b := sanitize b0 in
  let R_lin := srgbInverseCompanding r in
  let G_lin := srgbInverseCompanding g in
  let B_lin := srgbInverseCompanding b in
  let x := R_lin * 0.4124564 + G_lin * 0.3575761 + B_lin * 0.1804375 in
  let y_out := R_lin * 0.2126729 + G_lin * 0.7151522 + B_lin * 0.0721750 in
  let z := R_lin * 0.0193339 + G_lin * 0.1191920 + B_lin * 0.9503041 in
  let x := sanitize x in
  let y_out := sanitize y_out in
  let z := sanitize z in
  (x, y_out, z).

Definition xyzToLuv (XYZ : vec3) : vec3 :=
  let '(x0, y0, z0) := XYZ in
  let x := sanitize x0 in
  let y := sanitize y0 in
  let z := sanitize z0 in
  let denom := x + 15.0 * y + 3.0 * z in
  if Math.abs denom <? EPS then (0.0, 0.0, 0.0)
  else
    let Yr := y / REF_Y in
    let L := if Yr >? E then 116.0 * Math.pow M Yr (1.0 / 3.0) - 16.0
             else K * Yr in
    let U_ := 4.0 * x / denom in
    let V_ := 9.0 * y / denom in
    let Uref := 4.0 * REF_X / (REF_X + 15.0 * REF_Y + 3.0 * REF_Z) in
    let Vref := 9.0 * REF_Y / (REF_X + 15.0 * REF_Y + 3.0 * REF_Z) in
    let u := 13.0 * L * (U_ - Uref) in
    let v := 13.0 * L * (V_ - Vref) in
    let u := sanitize u in
    let v := sanitize v in
    let L := sanitize L in
    (L, u, v).

Definition luvToLch (Luv : vec3) : vec3 :=
  let '(L0, u0, v0) := Luv in
  let L := sanitize L0 in
  let u := sanitize u0 in
  let v := sanitize v0 in
  let C := Math.sqrt (u * u + v * v) in
  let Hrad := myAtan2 v u in
  let Hdeg := Math.toDegrees M Hrad in
  let Hdeg := if Hdeg <? 0.0 then Hdeg + 360.0 else Hdeg in
  let C := sanitize C in
  let Hdeg := sanitize Hdeg in
  (L, C, Hdeg).

Definition lchToHsluv (LCH : vec3) : vec3 :=
  let '(LCH0, LCH1, LCH2) := LCH in
  let H := LCH2 in
  let L := LCH0 in
  if (L <? EPS) || (L >? 99.99999) then (H, 0.0, L)
  else
    let maxC := maxChromaForLH L H in
    if maxC <=? EPS then (H, 0.0, L)
    else
      let S := (LCH1 / maxC) * 100.0 in
      let S := Math.range (sanitize S) 0.0 100.0 in
      (H, S, L).

(** *** Main conversions *)

Definition hsluvToRgb (HSL : vec3) : vec3 :=
  let lch := hsluvToLch HSL in
  let luv := lchToLuv lch in
  let xyz := luvToXyz luv in
  let rgb := xyzToRgb xyz in
  rgb.

Definition rgbToHsluv (RGB : vec3) : vec3 :=
  let xyz := rgbToXyz RGB in
  let luv := xyzToLuv xyz in
  let lch := luvToLch luv in
  let hsluv := lchToHsluv lch in
  hsluv.

(** *** Host-facing functions *)

Definition toVec4 (HSL : vec3) : vec4 :=
  let '(r, g, b) := hsluvToRgb HSL in
  (r, g, b, 1.0).

(** One pass of the clamping loop of [toColour]. *)
Definition clampChannel (v : float) : float :=
  if Math.isnan v || Math.isinf v then 0.0
  else Math.range v 0.0 1.0.

(** The array that [toColour] hands to [Colours.fromVec4]. *)
Definition toColourVec4 (HSL : vec3) : vec4 :=
  let '(v0, v1, v2, v3) := toVec4 HSL in
  (clampChannel v0, clampChannel v1, clampChannel v2, clampChannel v3).

Definition fromVec4 (v : vec4) : vec3 :=
  let '(v0, v1, v2, _) := v in
  let RGB := (sanitize v0, sanitize v1, sanitize v2) in
  let hsluv := rgbToHsluv RGB in
  hsluv.

(** One pass of the sanitising loop of [fromColour]. *)
Definition zeroNonFinite (v : float) : float :=
  if Math.isnan v || Math.isinf v then 0.0 else v.

(** [fromColour] after [Colours.toVec4]. *)
Definition fromColourVec4 (v : vec4) : vec3 :=
  let '(h0, h1, h2) := fromVec4 v in
  (* Sanitize outputs *)
  let h0 := zeroNonFinite h0 in
  let h1 := zeroNonFinite h1 in
  let h2 := zeroNonFinite h2 in
  (* Clamp S and L to [0,100] and H to [0,360] *)
  let h0 := Math.range h0 0.0 360.0 in
  let h1 := Math.range h1 0.0 100.0 in
  let h2 := Math.range h2 0.0 100.0 in
  (h0, h1, h2).

(** The array that [toColourWithAlpha] hands to [Colours.fromVec4]. *)
Definition toColourWithAlphaVec4 (HSLA : vec4) : vec4 :=
  let '(HSLA0, HSLA1, HSLA2, HSLA3) := HSLA in
  let hslArray := (HSLA0, HSLA1, HSLA2) in
  let alpha := HSLA3 in
  let '(v0, v1, v2, _) := toVec4 hslArray in
  (* override alpha with provided value *)
  let v3 := alpha in
  (clampChannel v0, clampChannel v1, clampChannel v2, clampChannel v3).

(** [fromColourWithAlpha] after [Colours.toVec4]: returns [[H, S, L, A]]. *)
Definition fromColourWithAlphaVec4 (v : vec4) : vec4 :=
  (* Extract alpha *)
  let '(_, _, _, alpha) := v in
  let '(h0, h1, h2) := fromVec4 v in
  (* Sanitize outputs *)
  let h0 := zeroNonFinite h0 in
  let h1 := zeroNonFinite h1 in
  let h2 := zeroNonFinite h2 in
  (* Clamp S and L to [0,100] and H to [0,360] *)
  let h0 := Math.range h0 0.0 360.0 in
  let h1 := Math.range h1 0.0 100.0 in
  let h2 := Math.range h2 0.0 100.0 in
  (* Append alpha *)
  (h0, h1, h2, alpha).

Section WithColours.

Variable Col : Colours.api.

Definition toColour (HSL : vec3) : Colours.colour Col :=
  Colours.fromVec4 Col (toColourVec4 HSL).

Definition fromColour (colour : Colours.colour Col) : vec3 :=
  let vec4 := Colours.toVec4 Col colour in
  fromColourVec4 vec4.

Definition toColourWithAlpha (HSLA : vec4) : Colours.colour Col :=
  Colours.fromVec4 Col (toColourWithAlphaVec4 HSLA).

Definition fromColourWithAlpha (colour : Colours.colour Col) : vec4 :=
  let vec4 := Colours.toVec4 Col colour in
  fromColourWithAlphaVec4 vec4.

End WithColours.

End WithHost.

End HSLuv.

(** ** HSLuv tools (the functions after the namespace in [HSLuv.js]) *)

(** sRGB to linear *)
Definition toLinear (M : Math.api) (c : float) : float :=
  if c <=? 0.04045 then c / 12.92
  else Math.pow M ((c + 0.055) / 1.055) 2.4.

(** Relative luminance (Lv) of an HSLuv colour *)
Definition getLuminance (M : Math.api) (hsluv : vec3) : float :=
  let '(v0, v1, v2, _) := HSLuv.toVec4 M hsluv in
  let r := toLinear M v0 in
  let g := toLinear M v1 in
  let b := toLinear M v2 in
  (* Rec. 709 luminance weights *)
  let Lv := 0.2126 * r + 0.7152 * g + 0.0722 * b in
  Lv.

(** Choose black or white (as HSLuv arrays) for high contrast *)
Definition chooseHighContrastBW (M : Math.api) (hsluv : vec3) : vec3 :=
  let Lv := getLuminance M hsluv in
  if Lv >? 0.5 then (0, 0, 0) else (0, 0, 100).

(** Contrast ratio between two HSLuv colours *)
Definition getContrast (M : Math.api) (hsluv1 hsluv2 : vec3) : float :=
  let Lv1 := getLuminance M hsluv1 in
  let Lv2 := getLuminance M hsluv2 in
  let L1 := Math.max Lv1 Lv2 in
  let L2 := Math.min Lv1 Lv2 in
  (L1 + 0.05) / (L2 + 0.05).

(** *** HSL transforms *)

Definition invertHue (HSL : vec3) : vec3 :=
  let '(h, s, l) := HSL in
  let newH := h + 180 in
  let newH := if newH >? 360 then newH - 360 else newH in
  (newH, s, l).

Definition invertLightness (HSL : vec3) : vec3 :=
  let '(h, s, l) := HSL in
  let newL := 1.0 - l in
  (h, s, newL).

(** ** The palette generator script *)

(** The five derived HSLuv arrays of [generateButtonPalette], each block of
    the function as the script writes it.  Every array starts as a clone of
    [primary]. *)

(** -- Hover -- *)
Definition hoverState (primary : vec3) : vec3 :=
  let '(h0, h1, h2) := primary in
  if h2 >? 80.0 then (h0, h1, h2 - 10.0)
  else (h0, h1, h2 + 10.0).

(** -- Clicked -- *)
Definition clickedState (primary : vec3) : vec3 :=
  let '(c0, c1, c2) := primary in
  if c2 <? 20.0 then (c0, c1, c2 + 15.0)
  else (c0, c1, c2 - 15.0).

(** -- Disabled --, with the low saturation fix *)
Definition disabledState (primary : vec3) : vec3 :=
  let '(p0, p1, p2) := primary in
  let d0 := p0 in
  let d1 := 20.0 in
  let d2 := (p2 * 0.5) + 25.0 in
  let d2 :=
    if p1 <? 35.0 then
      (if Math.abs (d2 - p2) <? 15.0 then d2 + 20.0 else d2)
    else d2 in
  (d0, d1, d2).

(** -- Focus Background -- *)
Definition focusState (hover : vec3) : vec3 :=
  let '(h0, h1, h2) := hover in
  (h0, h1, h2).

(** -- Focus Outline -- *)
Definition focusOutlineState (M : Math.api) (primary focus : vec3) : vec3 :=
  let '(_, _, p2) := primary in
  let '(f0, _, _) := focus in
  (* 1. Rotate Hue 180 degrees *)
  let o0 := Math.fmod M (f0 + 180.0) 360.0 in
  (* 2. Maximize Saturation *)
  let o1 := 100.0 in
  (* 3. Invert Lightness (Threshold at 60.0 to prevent flicker) *)
  let o2 := if p2 >? 60.0 then 20.0 else 90.0 in
  (o0, o1, o2).

Section Palette.

Variable M : Math.api.
Variable Col : Colours.api.

Record Entry : Type := {
  background : Colours.colour Col;
  text : Colours.colour Col;
  outline : option (Colours.colour Col)
}.

Record PaletteT : Type := {
  normal : Entry;
  hover : Entry;
  clicked : Entry;
  disabled : Entry;
  focus : Entry
}.

(** Helper to determine text color using HSLuv tools. *)
Definition getTextCol (bgHsluv : vec3) : Colours.colour Col :=
  let bwArray := chooseHighContrastBW M bgHsluv in
  HSLuv.toColour M Col bwArray.

(** Generates a full palette using Smart Focus & Smart Disabled logic. *)
Definition generateButtonPalette (baseColour : Colours.colour Col) : PaletteT :=
  let primary := HSLuv.fromColour M Col baseColour in
  let hover := hoverState primary in
  let clicked := clickedState primary in
  let disabled := disabledState primary in
  let focus := focusState hover in
  let focusOutline := focusOutlineState M primary focus in
  {| normal := {| background := baseColour;
                  text := getTextCol primary; outline := None |};
     hover := {| background := HSLuv.toColour M Col hover;
                 text := getTextCol hover; outline := None |};
     clicked := {| background := HSLuv.toColour M Col clicked;
                   text := getTextCol clicked; outline := None |};
     disabled := {| background := HSLuv.toColour M Col disabled;
                    text := getTextCol disabled; outline := None |};
     focus := {| background := HSLuv.toColour M Col focus;
                 text := getTextCol focus;
                 outline := Some (HSLuv.toColour M Col focusOutline) |} |}.

End Palette.

(** The button's raw interaction flags ([panel.data.stateFlags]). *)
Record StateFlags : Type := {
  flag_disabled : bool;
  flag_clicked : bool;
  flag_hover : bool;
  flag_focus : bool;
  flag_forceFocus : bool
}.

Definition resolveButtonState (flags : StateFlags) : string :=
  if flag_disabled flags then "disabled"%string
  else if flag_forceFocus flags then "focus"%string
  else if flag_clicked flags then "clicked"%string
  else if flag_hover flags then "hover"%string
  else if flag_focus flags then "focus"%string
  else "normal"%string.

(** ** The demo script around the palette generator *)

(** What the callbacks ask of the host, in the order they ask it. *)
Inductive HostCall : Type :=
| repaint
| repaintImmediately
| changed
| startTimer (milliseconds : Z)
| stopTimer
| grabFocus
| loseFocus.

(** *** namespace InfiniteKnob *)
Module InfiniteKnob.

(** The panel of a knob: its value and its [data] object. *)
Record Panel : Type := {
  value : float;
  sensitivity : float;
  startVal : float;
  label : string;
  isInfinite : bool
}.

Definition create (labelText : string) (isInfinite : bool) (defaultValue : float) : Panel :=
  {| value := defaultValue;
     sensitivity := 0.005;
     startVal := 0.0;
     label := labelText;
     isInfinite := isInfinite |}.

(** The fields of a mouse event that the knob reads. *)
Record MouseEvent : Type := {
  clicked : bool;
  drag : bool;
  dragY : float
}.

Section WithFloor.

(** The host's [Math.floor]. *)
Variable floor : float -> float.

Definition mouseCallback (this : Panel) (event : MouseEvent) : Panel * list HostCall :=
  if clicked event then
    ({| value := value this;
        sensitivity := sensitivity this;
        startVal := value this;
        label := label this;
        isInfinite := isInfinite this |}, [])
  else if drag event then
    let delta := - (dragY event * sensitivity this) in
    let newVal := startVal this + delta in
    let newVal :=
      if isInfinite this then newVal - floor newVal
      else
        let newVal := if newVal <? 0.0 then 0.0 else newVal in
        let newVal := if newVal >? 1.0 then 1.0 else newVal in
        newVal in
    ({| value := newVal;
        sensitivity := sensitivity this;
        startVal := startVal this;
        label := label this;
        isInfinite := isInfinite this |}, [changed; repaintImmediately])
  else (this, []).

End WithFloor.

End InfiniteKnob.

(** *** The colour under test and its palette *)

Definition INIT_HUE : float := 0.0.
Definition INIT_SAT : float := 75.0.
Definition INIT_LIG : float := 50.0.

Section Script.

Variable M : Math.api.
Variable Col : Colours.api.

(** The script's global state: [currentHSLuv], [baseColour] and the
    palette stored in [TestColourPanel.data.palette] ([None] while it is
    undefined). *)
Record Globals : Type := {
  currentHSLuv : vec3;
  baseColour : Colours.colour Col;
  palette : option (PaletteT Col)
}.

(** The state after the script's initialisation of these variables. *)
Definition initGlobals : Globals :=
  let currentHSLuv := (INIT_HUE, INIT_SAT, INIT_LIG) in
  let baseColour := HSLuv.toColour M Col currentHSLuv in
  {| currentHSLuv := currentHSLuv;
     baseColour := baseColour;
     palette := Some (generateButtonPalette M Col baseColour) |}.

Definition updateAll (g : Globals) : Globals * list HostCall :=
  let baseColour := HSLuv.toColour M Col (currentHSLuv g) in
  ({| currentHSLuv := currentHSLuv g;
      baseColour := baseColour;
      palette := Some (generateButtonPalette M Col baseColour) |}, [repaint]).

Definition onHueControl (value : float) (g : Globals) : Globals * list HostCall :=
  let '(_, c1, c2) := currentHSLuv g in
  updateAll {| currentHSLuv := (value * 360.0, c1, c2);
               baseColour := baseColour g; palette := palette g |}.

Definition onSatControl (value : float) (g : Globals) : Globals * list HostCall :=
  let '(c0, _, c2) := currentHSLuv g in
  updateAll {| currentHSLuv := (c0, value * 100.0, c2);
               baseColour := baseColour g; palette := palette g |}.

Definition onLightControl (value : float) (g : Globals) : Globals * list HostCall :=
  let '(c0, c1, _) := currentHSLuv g in
  updateAll {| currentHSLuv := (c0, c1, value * 100.0);
               baseColour := baseColour g; palette := palette g |}.

End Script.

(** *** The test button: its callbacks on [data.stateFlags] *)
Module TestColourPanel.

(** What the paint routine asks of the graphics object. *)
Section Paint.

Variable M : Math.api.
Variable Col : Colours.api.

Definition Area : Type := (Z * Z * Z * Z)%type.

Inductive GraphicsCall : Type :=
| setFont (fontName : string) (fontSize : float)
| setColour (colour : Colours.colour Col)
| fillRoundedRectangle (area : Area) (cornerRadius : float)
| drawRoundedRectangle (area : Area) (cornerRadius : float) (borderSize : float)
| drawAlignedText (text : string) (area : Area) (alignment : string).

(** The paint routine, for a panel of width [w] and height [h]: the
    palette the panel holds afterwards and the calls on [g].  (The
    focus entry of a generated palette always has its outline.) *)
Definition paintRoutine (baseColour : Colours.colour Col)
    (palette : option (PaletteT Col)) (flags : StateFlags) (w h : Z)
    : PaletteT Col * list GraphicsCall :=
  let palette :=
    match palette with
    | None => generateButtonPalette M Col baseColour
    | Some p => p
    end in
  let currentState := resolveButtonState flags in
  let buttonColors := palette in
  let cornerRadius := 8.0 in
  let area := (2, 2, w - 4, h - 4)%Z in
  let fill (e : Entry Col) (caption : string) :=
    [ setColour (background Col e);
      fillRoundedRectangle area cornerRadius;
      setColour (text Col e);
      drawAlignedText caption area "centred"%string ] in
  (palette,
   setFont "default"%string 22.0 ::
   (if String.eqb currentState "normal"%string then
      fill (normal Col buttonColors) "Normal"%string
    else if String.eqb currentState "hover"%string then
      fill (hover Col buttonColors) "Hover"%string
    else if String.eqb currentState "clicked"%string then
      fill (clicked Col buttonColors) "Clicked"%string
    else if String.eqb currentState "disabled"%string then
      fill (disabled Col buttonColors) "Disabled"%string
    else if String.eqb currentState "focus"%string then
      [ setColour (background Col (focus Col buttonColors));
        fillRoundedRectangle area cornerRadius ]
      ++ match outline Col (focus Col buttonColors) with
         | Some c => [ setColour c; drawRoundedRectangle area cornerRadius 3.0 ]
         | None => []
         end
      ++ [ setColour (text Col (focus Col buttonColors));
           drawAlignedText "Focus"%string area "centred"%string ]
    else [])).

End Paint.

Definition initFlags : StateFlags :=
  {| flag_disabled := false; flag_clicked := false; flag_hover := false;
     flag_focus := false; flag_forceFocus := false |}.

Definition set_disabled (v : bool) (f : StateFlags) : StateFlags :=
  {| flag_disabled := v; flag_clicked := flag_clicked f; flag_hover := flag_hover f;
     flag_focus := flag_focus f; flag_forceFocus := flag_forceFocus f |}.

Definition set_clicked (v : bool) (f : StateFlags) : StateFlags :=
  {| flag_disabled := flag_disabled f; flag_clicked := v; flag_hover := flag_hover f;
     flag_focus := flag_focus f; flag_forceFocus := flag_forceFocus f |}.

Definition set_hover (v : bool) (f : StateFlags) : StateFlags :=
  {| flag_disabled := flag_disabled f; flag_clicked := flag_clicked f; flag_hover := v;
     flag_focus := flag_focus f; flag_forceFocus := flag_forceFocus f |}.

Definition set_focus (v : bool) (f : StateFlags) : StateFlags :=
  {| flag_disabled := flag_disabled f; flag_clicked := flag_clicked f;
     flag_hover := flag_hover f; flag_focus := v; flag_forceFocus := flag_forceFocus f |}.

Definition set_forceFocus (v : bool) (f : StateFlags) : StateFlags :=
  {| flag_disabled := flag_disabled f; flag_clicked := flag_clicked f;
     flag_hover := flag_hover f; flag_focus := flag_focus f; flag_forceFocus := v |}.

Definition onDisableControl (value : bool) (f : StateFlags) : StateFlags * list HostCall :=
  let f := set_disabled value f in
  (f, (if value then [loseFocus] else []) ++ [repaint]).

Definition onFocusDemoControl (value : bool) (f : StateFlags) : StateFlags * list HostCall :=
  let f := set_forceFocus value f in
  (f, [repaint]).

(** The fields of a key event that the button reads. *)
Record KeyEvent : Type := {
  isFocusChange : bool;
  hasFocus : bool;
  keyCode : Z
}.

Definition keyPressCallback (event : KeyEvent) (f : StateFlags) : StateFlags * list HostCall :=
  if isFocusChange event then
    (set_focus (hasFocus event) f, [repaint])
  else if negb (flag_disabled f) && ((keyCode event =? 32)%Z || (keyCode event =? 13)%Z) then
    (set_clicked true f, [repaint; startTimer 150])
  else (f, []).

Definition timerCallback (f : StateFlags) : StateFlags * list HostCall :=
  (set_clicked false f, [stopTimer; repaint]).

(** The fields of a mouse event that the button reads; [hover] is the
    number the script compares with 1 and 0. *)
Record MouseEvent : Type := {
  clicked : bool;
  mouseUp : bool;
  hover : Z
}.

Definition mouseCallback (event : MouseEvent) (f : StateFlags) : StateFlags * list HostCall :=
  if flag_disabled f then (f, [])
  else
    let '(f, calls) :=
      if clicked event then (set_clicked true f, [grabFocus]) else (f, []) in
    let f := if mouseUp event then set_clicked false f else f in
    let f := if (hover event =? 1)%Z then set_hover true f else f in
    let f := if (hover event =? 0)%Z then set_hover false f else f in
    (f, calls ++ [repaint]).

End TestColourPanel.

(** * Vocabulary of the statements *)

(** The extremes test of [hsluvToLch] and [lchToHsluv]. *)
Definition atExtreme (L : float) : bool := (L <? HSLuv.EPS) || (L >? 99.99999).

(** [v] lies between [lo] and [hi]. *)
Definition inRange (lo hi v : float) : Prop :=
  (lo <=? v) = true /\ (v <=? hi) = true.

Definition pureBlack : vec3 := (0, 0, 0).
Definition pureWhite : vec3 := (0, 0, 100).

(** The priority order as the specification lists it: each flag with the
    state it selects, highest priority first. *)
Definition priorityOrder : list ((StateFlags -> bool) * string) :=
  [ (flag_disabled, "disabled"%string);
    (flag_forceFocus, "focus"%string);
    (flag_clicked, "clicked"%string);
    (flag_hover, "hover"%string);
    (flag_focus, "focus"%string) ].

(** The state of the first set flag of an order, [normal] when none is set. *)
Fixpoint firstSet (order : list ((StateFlags -> bool) * string)) (flags : StateFlags) : string :=
  match order with
  | [] => "normal"%string
  | (flag, state) :: rest => if flag flags then state else firstSet rest flags
  end.

(** A host given by tables: the values an accurate numeric library returns
    at the arguments the worked examples evaluate, and 0 elsewhere. *)
Definition lookup (table : list (float * float)) (x : float) : float :=
  match find (fun kv => PrimFloat.Leibniz.eqb (fst kv) x) table with
  | Some kv => snd kv
  | None => 0
  end.

Definition lookup2 (table : list (float * float * float)) (x y : float) : float :=
  match find (fun kv => PrimFloat.Leibniz.eqb (fst (fst kv)) x
                        && PrimFloat.Leibniz.eqb (snd (fst kv)) y) table with
  | Some kv => snd kv
  | None => 0
  end.

Definition tableHost : Math.api :=
  {| Math.pow :=
       lookup2 [ (1.0, 2.4, 1.0);
                 (0.9278251, 0.3333333333333333, 0.9753385105543646);
                 (0.9753385105543646, 3.0, 0.9278250999999998);
                 (0.9999638554323577, 0.4166666666666667, 0.9999849396047118);
                 (0.9999641690765546, 0.4166666666666667, 0.9999850702925375) ];
     Math.sin := lookup [ (1.4987622053587644, 0.9974066643485733) ];
     Math.cos := lookup [ (1.4987622053587644, 0.07197184111200981) ];
     Math.atan := lookup [ (13.85829025543904, 1.4987622053587644) ];
     Math.fmod := (fun x _ => x);
     Math.toRadians := lookup [ (85.87274886077677, 1.4987622053587644) ];
     Math.toDegrees := lookup [ (1.4987622053587644, 85.87274886077677) ] |}.

(** ** Values of binary64 numbers

    The exponent function of binary64, and the integer through which
    positive numbers are compared: [m * 2^e] is read as [m * 2^(e + bias)],
    the bias being large enough for the exponent of every sum and product of
    two binary64 numbers. *)

Definition fexp64 (e : Z) : Z := Z.max (e - 53) (-1074).

Definition bias : Z := 2200.

Definition Fval (m : positive) (e : Z) : Z := (Zpos m * 2 ^ (e + bias))%Z.

(** The value of a number that is zero or positive and finite. *)
Definition nnval (f : spec_float) : option Z :=
  match f with
  | S754_zero _ => Some 0%Z
  | S754_finite false m e => Some (Fval m e)
  | _ => None
  end.

Definition valOf (x : float) : option Z := nnval (Prim2SF x).

(** The value of one unit. *)
Definition unitVal : Z := (2 ^ bias)%Z.

(** ** Vocabulary of the further properties *)

(** The number is one of the two zeros. *)
Definition isZero (x : float) : Prop := x = 0 \/ x = -0.

(** The number is a zero, a positive number or plus infinity. *)
Definition nonnegSF (f : spec_float) : Prop :=
  match f with
  | S754_zero _ | S754_finite false _ _ | S754_infinity false => True
  | _ => False
  end.

(** A host whose colours are the arrays [[r, g, b, a]] themselves. *)
Definition arrayColours : Colours.api :=
  {| Colours.colour := vec4;
     Colours.toVec4 := fun colour => colour;
     Colours.fromVec4 := fun v => v |}.

(** A knob after a sequence of mouse events, first event first. *)
Definition knobAfter (floor : float -> float)
    (events : list InfiniteKnob.MouseEvent) (knob : InfiniteKnob.Panel) : InfiniteKnob.Panel :=
  fold_left (fun k event => fst (InfiniteKnob.mouseCallback floor k event)) events knob.

(** The control callbacks of the three knobs, as events. *)
Inductive KnobChange : Type :=
| hueChanged (value : float)
| satChanged (value : float)
| lightChanged (value : float).

Definition onKnobChange (M : Math.api) (Col : Colours.api)
    (g : Globals Col) (change : KnobChange) : Globals Col :=
  match change with
  | hueChanged value => fst (onHueControl M Col value g)
  | satChanged value => fst (onSatControl M Col value g)
  | lightChanged value => fst (onLightControl M Col value g)
  end.

(** The events of the test button. *)
Inductive ButtonEvent : Type :=
| keyPress (event : TestColourPanel.KeyEvent)
| timer
| mouse (event : TestColourPanel.MouseEvent)
| disableSwitch (value : bool)
| focusDemo (value : bool).

Definition onButtonEvent (flags : StateFlags) (event : ButtonEvent)
    : StateFlags * list HostCall :=
  match event with
  | keyPress e => TestColourPanel.keyPressCallback e flags
  | timer => TestColourPanel.timerCallback flags
  | mouse e => TestColourPanel.mouseCallback e flags
  | disableSwitch v => TestColourPanel.onDisableControl v flags
  | focusDemo v => TestColourPanel.onFocusDemoControl v flags
  end.

(** The flags after a sequence of events, first event first, and all the
    host calls made on the way. *)
Fixpoint buttonAfter (events : list ButtonEvent) (flags : StateFlags)
    : StateFlags * list HostCall :=
  match events with
  | [] => (flags, [])
  | event :: rest =>
      let '(flags', calls) := onButtonEvent flags event in
      let '(flags'', calls') := buttonAfter rest flags' in
      (flags'', calls ++ calls')
  end.

Definition isDisableSwitch (event : ButtonEvent) : bool :=
  match event with disableSwitch _ => true | _ => false end.

(** The palette entry that belongs to a state name. *)
Definition entryOf (Col : Colours.api) (p : PaletteT Col) (state : string) : option (Entry Col) :=
  if String.eqb state "normal" then Some (normal Col p)
  else if String.eqb state "hover" then Some (hover Col p)
  else if String.eqb state "clicked" then Some (clicked Col p)
  else if String.eqb state "disabled" then Some (disabled Col p)
  else if String.eqb state "focus" then Some (focus Col p)
  else None.

(** The caption of a state: its name with a capital. *)
Definition captionOf (state : string) : string :=
  match state with
  | String c rest =>
      String (Ascii.ascii_of_nat (Ascii.nat_of_ascii c - 32)) rest
  | EmptyString => EmptyString
  end.

(** The record holds the mantissa [M] shifted right by [k] bits, with the
    round bit and the sticky bit of the [k] bits that were shifted out. *)
Definition shrInv (mrs : shr_record) (M k : Z) : Prop :=
  (shr_m mrs = M / 2 ^ k
   /\ shr_r mrs = (2 ^ k <=? 2 * (M mod 2 ^ k))
   /\ shr_s mrs = negb ((2 * (M mod 2 ^ k)) mod 2 ^ k =? 0))%Z.

(** The rounded mantissa as a function of the rounded-to mantissa [m2]
    and the exponent [e]. *)
Definition roundedSF (m2 e : Z) : spec_float :=
  (if m2 =? 0 then S754_zero false
   else if m2 =? 2 ^ 53 then
     (if e + 1 <=? 971 then S754_finite false (2 ^ 52)%positive (e + 1)
      else S754_infinity false)
   else if e <=? 971 then S754_finite false (Z.to_pos m2) e
   else S754_infinity false)%Z.

(** A host whose [pow] returns its base: it keeps the interval [[0, 1]],
    as the power function does for a positive exponent. *)
Definition linearHost : Math.api :=
  {| Math.pow := (fun x _ => x);
     Math.sin := (fun x => x);
     Math.cos := (fun x => x);
     Math.atan := (fun x => x);
     Math.fmod := (fun x _ => x);
     Math.toRadians := (fun x => x);
     Math.toDegrees := (fun x => x) |}.

(** Evaluates one stage of the conversion chain at a concrete input: compute
    up to the next call of the host, replace it by its known value, and
    repeat. *)
Ltac host_values H1 H2 H3 H4 H5 H6 H7 H8 H9 H10 :=
  repeat (vm_compute;
          progress (rewrite ?H1, ?H2, ?H3, ?H4, ?H5, ?H6, ?H7, ?H8, ?H9, ?H10));
  vm_compute; reflexivity.

(** * Facts about binary64 comparisons

    The comparisons of primitive floats are specified on [spec_float] by
    [SFcompare]; the lemmas below lift the order properties the proofs need. *)

Lemma SFcompare_antisym (x y : spec_float) (c : comparison) :
  SFcompare x y = Some c -> SFcompare y x = Some (CompOpp c).
Proof.
  destruct x as [sx|sx| |sx mx ex], y as [sy|sy| |sy my ey];
    try destruct sx; try destruct sy; simpl; intros H;
    try discriminate; try (inversion H; subst; reflexivity);
    inversion H; subst; clear H;
    rewrite (Z.compare_antisym ey ex);
    destruct (ey ?= ex)%Z; simpl; try reflexivity;
    rewrite (Pos.compare_cont_antisym mx my Eq); reflexivity.
Qed.

Lemma SFcompare_refl (x : spec_float) :
  x <> S754_nan -> SFcompare x x = Some Eq.
Proof.
  destruct x as [s|s| |s m e]; try destruct s; simpl; intros H;
    try reflexivity; try congruence;
    rewrite Z.compare_refl; fold (Pos.compare m m); rewrite Pos.compare_refl; reflexivity.
Qed.

(** [SFcompare] is transitive on what it compares, strictly when one step is strict. *)
Lemma SFcompare_trans_le (x y z : spec_float) (c1 c2 : comparison) :
  SFcompare x y = Some c1 -> SFcompare y z = Some c2 ->
  c1 <> Gt -> c2 <> Gt ->
  exists c3, SFcompare x z = Some c3 /\ c3 <> Gt /\ (c1 = Lt \/ c2 = Lt -> c3 = Lt).
Proof.
  destruct x as [sx|sx| |sx mx ex], y as [sy|sy| |sy my ey], z as [sz|sz| |sz mz ez];
    try destruct sx; try destruct sy; try destruct sz; simpl;
    intros H1 H2 N1 N2; try discriminate;
    inversion H1; subst; clear H1; inversion H2; subst; clear H2;
    try congruence;
    try (eexists; split; [reflexivity|split; [congruence| intros [?|?]; congruence]]).
  all: fold (Pos.compare mx my) in *; fold (Pos.compare my mz) in *; fold (Pos.compare mx mz) in *.
  all: eexists; split; [reflexivity|].
  all: destruct (Z.compare_spec ex ey); destruct (Z.compare_spec ey ez); destruct (Z.compare_spec ex ez); try lia; try congruence.
  all: destruct (Pos.compare_spec mx my); destruct (Pos.compare_spec my mz); destruct (Pos.compare_spec mx mz); simpl in *; try lia; try congruence.
  all: try (split; [congruence| intros [?|?]; congruence]).
Qed.

Lemma is_nan_spec (x : float) : is_nan x = true <-> Prim2SF x = S754_nan.
Proof.
  unfold is_nan. rewrite eqb_spec. unfold SFeqb.
  destruct (Prim2SF x) as [s|s| |s m e] eqn:Hx.
  1,2,4: rewrite SFcompare_refl by discriminate; simpl; split; discriminate.
  simpl. split; reflexivity.
Qed.

Lemma is_nan_false (x : float) : is_nan x = false <-> Prim2SF x <> S754_nan.
Proof.
  rewrite <- is_nan_spec. destruct (is_nan x); split; congruence.
Qed.

Lemma SFcompare_some (x y : spec_float) :
  x <> S754_nan -> y <> S754_nan -> exists c, SFcompare x y = Some c.
Proof.
  destruct x, y; simpl; intros; try congruence; eexists; reflexivity.
Qed.

Lemma SFcompare_not_nan (x y : spec_float) (c : comparison) :
  SFcompare x y = Some c -> x <> S754_nan /\ y <> S754_nan.
Proof.
  destruct x, y; simpl; intros; split; congruence.
Qed.

Lemma leb_not_nan (x y : float) :
  (x <=? y) = true -> is_nan x = false /\ is_nan y = false.
Proof.
  rewrite leb_spec, !is_nan_false. unfold SFleb.
  destruct (SFcompare (Prim2SF x) (Prim2SF y)) eqn:Hc; [|discriminate].
  intros _. eapply SFcompare_not_nan; eauto.
Qed.

Lemma ltb_not_nan (x y : float) :
  (x <? y) = true -> is_nan x = false /\ is_nan y = false.
Proof.
  rewrite ltb_spec, !is_nan_false. unfold SFltb.
  destruct (SFcompare (Prim2SF x) (Prim2SF y)) eqn:Hc; [|discriminate].
  intros _. eapply SFcompare_not_nan; eauto.
Qed.

Lemma leb_refl (x : float) : is_nan x = false -> (x <=? x) = true.
Proof.
  rewrite is_nan_false, leb_spec. intros H. unfold SFleb.
  rewrite SFcompare_refl by assumption. reflexivity.
Qed.

Lemma ltb_leb (x y : float) : (x <? y) = true -> (x <=? y) = true.
Proof.
  rewrite ltb_spec, leb_spec. unfold SFltb, SFleb.
  destruct (SFcompare (Prim2SF x) (Prim2SF y)) as [[]|]; congruence.
Qed.

Lemma not_ltb_leb (x y : float) :
  is_nan x = false -> is_nan y = false -> (x <? y) = false -> (y <=? x) = true.
Proof.
  rewrite !is_nan_false, ltb_spec, leb_spec. unfold SFltb, SFleb. intros Hx Hy.
  destruct (SFcompare_some _ _ Hx Hy) as [c Hc].
  rewrite Hc, (SFcompare_antisym _ _ _ Hc). destruct c; simpl; congruence.
Qed.

Lemma leb_trans (x y z : float) :
  (x <=? y) = true -> (y <=? z) = true -> (x <=? z) = true.
Proof.
  rewrite !leb_spec. unfold SFleb.
  destruct (SFcompare (Prim2SF x) (Prim2SF y)) as [c1|] eqn:H1; [|discriminate].
  destruct (SFcompare (Prim2SF y) (Prim2SF z)) as [c2|] eqn:H2; [|destruct c1; discriminate].
  intros A B.
  destruct (SFcompare_trans_le _ _ _ _ _ H1 H2) as (c3 & -> & N & _).
  - destruct c1; congruence.
  - destruct c2; congruence.
  - destruct c3; congruence.
Qed.

Lemma ltb_leb_trans (x y z : float) :
  (x <? y) = true -> (y <=? z) = true -> (x <? z) = true.
Proof.
  rewrite !leb_spec, !ltb_spec. unfold SFleb, SFltb.
  destruct (SFcompare (Prim2SF x) (Prim2SF y)) as [c1|] eqn:H1; [|discriminate].
  destruct (SFcompare (Prim2SF y) (Prim2SF z)) as [c2|] eqn:H2; [|destruct c1; discriminate].
  intros A B.
  destruct (SFcompare_trans_le _ _ _ _ _ H1 H2) as (c3 & -> & N & L).
  - destruct c1; congruence.
  - destruct c2; congruence.
  - rewrite L; [reflexivity|]. left. destruct c1; congruence.
Qed.


(** * Sanitising and clamping *)

Lemma sanitize_not_nan (v : float) : is_nan (HSLuv.sanitize v) = false.
Proof.
  unfold HSLuv.sanitize, Math.isnan, Math.isinf.
  destruct (is_nan v) eqn:Hn; [reflexivity|].
  destruct (is_infinity v); [reflexivity|assumption].
Qed.

Lemma sanitize_not_inf (v : float) : is_infinity (HSLuv.sanitize v) = false.
Proof.
  unfold HSLuv.sanitize, Math.isnan, Math.isinf.
  destruct (is_nan v); [reflexivity|].
  destruct (is_infinity v) eqn:Hi; [reflexivity|assumption].
Qed.

Lemma sanitize_finite (v : float) : is_finite v = true -> HSLuv.sanitize v = v.
Proof.
  unfold is_finite, HSLuv.sanitize, Math.isnan, Math.isinf.
  destruct (is_nan v); [discriminate|].
  destruct (is_infinity v); [discriminate|reflexivity].
Qed.

Lemma zeroNonFinite_sanitize (v : float) : HSLuv.zeroNonFinite v = HSLuv.sanitize v.
Proof.
  unfold HSLuv.zeroNonFinite, HSLuv.sanitize.
  destruct (Math.isnan v), (Math.isinf v); reflexivity.
Qed.

(** [Math.range] lands between its limits, for every number that is not NaN. *)
Lemma range_bounds (v lo hi : float) :
  is_nan v = false -> (lo <=? hi) = true ->
  (lo <=? Math.range v lo hi) = true /\ (Math.range v lo hi <=? hi) = true.
Proof.
  intros Hv Hlh. destruct (leb_not_nan _ _ Hlh) as [Hlo Hhi].
  unfold Math.range.
  destruct (v <? lo) eqn:H1.
  - split; [apply leb_refl; assumption|assumption].
  - destruct (hi <? v) eqn:H2.
    + split; [assumption|apply leb_refl; assumption].
    + split; apply not_ltb_leb; assumption.
Qed.

Lemma clamp01_bounds (v : float) :
  is_nan v = false ->
  (0 <=? HSLuv.clamp01 v) = true /\ (HSLuv.clamp01 v <=? 1) = true.
Proof.
  intros Hv. unfold HSLuv.clamp01.
  destruct (v <? 0.0) eqn:H1; [split; reflexivity|].
  destruct (v >? 1.0) eqn:H2; [split; reflexivity|].
  split; apply not_ltb_leb; try assumption; reflexivity.
Qed.

Lemma clampChannel_bounds (v : float) :
  (0 <=? HSLuv.clampChannel v) = true /\ (HSLuv.clampChannel v <=? 1) = true.
Proof.
  unfold HSLuv.clampChannel, Math.isnan, Math.isinf.
  destruct (is_nan v) eqn:Hn; simpl; [split; reflexivity|].
  destruct (is_infinity v); [split; reflexivity|].
  apply range_bounds; [assumption|reflexivity].
Qed.

Lemma ltb_asym (x y : float) : (x <? y) = true -> (y <? x) = false.
Proof.
  rewrite !ltb_spec. unfold SFltb.
  destruct (SFcompare (Prim2SF x) (Prim2SF y)) as [c|] eqn:Hc; [|discriminate].
  rewrite (SFcompare_antisym _ _ _ Hc). destruct c; simpl; congruence.
Qed.

(** Zero divided by a number above EPS is zero. *)
Lemma zero_div_pos (x : float) :
  (0 <=? x) = true -> (x <=? HSLuv.EPS) = false -> 0 / x = 0.
Proof.
  rewrite !leb_spec. intros H0 HE.
  apply Prim2SF_inj. rewrite div_spec.
  change (Prim2SF 0) with (S754_zero false) in *.
  destruct (Prim2SF x) as [s|s| |s m e]; try destruct s; try discriminate; reflexivity.
Qed.

(** * The chroma solver *)

Section MaxChroma.

Variable M : Math.api.

(** The loop of [maxChromaForLH], over any list of lines and from any
    starting value that is a number between 0 and the sentinel. *)
Lemma minLength_loop (hRad : float) (bounds : list (float * float)) (acc : float) :
  (0 <=? acc) = true -> (acc <=? 1e10) = true ->
  let r := fold_left (HSLuv.minLengthStep M hRad) bounds acc in
  (0 <=? r) = true /\ (r <=? acc) = true
  /\ (r = acc \/ In r (map (HSLuv.rayLength M hRad) bounds))
  /\ (forall line, In line bounds ->
        (0 <=? HSLuv.rayLength M hRad line) = true ->
        (r <=? HSLuv.rayLength M hRad line) = true)
  /\ ((forall line, In line bounds ->
         (0 <=? HSLuv.rayLength M hRad line) = false) -> r = acc).
Proof.
  revert acc. induction bounds as [|line rest IH]; intros acc H0 H1; simpl.
  - split; [exact H0|]. split; [apply leb_refl; apply (leb_not_nan _ _ H0)|].
    split; [left; reflexivity|]. split; [intros _ []|reflexivity].
  - set (l := HSLuv.rayLength M hRad line).
    assert (Hstep : HSLuv.minLengthStep M hRad acc line
                    = if (l >=? 0) && (l <? acc) then l else acc) by reflexivity.
    rewrite Hstep.
    destruct (l >=? 0) eqn:Hl0; simpl.
    + destruct (l <? acc) eqn:Hla.
      * assert (Hl1 : (l <=? 1e10) = true).
        { apply leb_trans with acc; [apply ltb_leb; assumption|assumption]. }
        destruct (IH l Hl0 Hl1) as (A & B & C & D & F).
        split; [exact A|]. split.
        { apply leb_trans with l; [exact B|apply ltb_leb; assumption]. }
        split.
        { destruct C as [C|C]; [right; left; symmetry; exact C|right; right; exact C]. }
        split.
        { intros line' [<-|Hin] Hpos; [exact B|apply D; assumption]. }
        { intros Hnone. specialize (Hnone line (or_introl eq_refl)).
          fold l in Hnone. congruence. }
      * destruct (IH acc H0 H1) as (A & B & C & D & F).
        split; [exact A|]. split; [exact B|]. split.
        { destruct C as [C|C]; [left; exact C|right; right; exact C]. }
        split.
        { intros line' [<-|Hin] Hpos; [|apply D; assumption].
          fold l. apply leb_trans with acc; [exact B|].
          apply not_ltb_leb; [apply (leb_not_nan _ _ Hl0)|apply (leb_not_nan _ _ H0)|exact Hla]. }
        { intros Hnone. specialize (Hnone line (or_introl eq_refl)).
          fold l in Hnone. congruence. }
    + destruct (IH acc H0 H1) as (A & B & C & D & F).
      split; [exact A|]. split; [exact B|]. split.
      { destruct C as [C|C]; [left; exact C|right; right; exact C]. }
      split.
      { intros line' [<-|Hin] Hpos; [fold l in Hpos; congruence|apply D; assumption]. }
      { intros Hnone. apply F. intros line' Hin. apply Hnone. right. exact Hin. }
Qed.

Lemma maxChromaForLH_nonneg (L H : float) :
  (0 <=? HSLuv.maxChromaForLH M L H) = true.
Proof.
  unfold HSLuv.maxChromaForLH.
  apply (minLength_loop (Math.toRadians M H) (HSLuv.getBounds M L) 1e10); reflexivity.
Qed.

End MaxChroma.

Section Rounding.

#[local] Open Scope Z_scope.

(** * Rounding of binary64 results

    [binary_round_aux] is the rounding step of every arithmetic operation of
    [SpecFloat].  The lemmas below show that it is monotone against
    representable bounds: a canonical number above (below) the exact value
    is above (below) the rounded result. *)

Lemma digits2_pos_bounds (p : positive) :
  2 ^ (Zpos (digits2_pos p) - 1) <= Zpos p < 2 ^ Zpos (digits2_pos p).
Proof.
  induction p as [p IH|p IH|]; simpl digits2_pos.
  - rewrite Pos2Z.inj_succ.
    replace (Z.succ (Zpos (digits2_pos p)) - 1) with (Z.succ (Zpos (digits2_pos p) - 1)) by lia.
    rewrite !Z.pow_succ_r by lia. lia.
  - rewrite Pos2Z.inj_succ.
    replace (Z.succ (Zpos (digits2_pos p)) - 1) with (Z.succ (Zpos (digits2_pos p) - 1)) by lia.
    rewrite !Z.pow_succ_r by lia. lia.
  - simpl. lia.
Qed.

Lemma digits2_pos_le (p : positive) (d : Z) :
  Zpos p < 2 ^ d -> Zpos (digits2_pos p) <= d.
Proof.
  intros H. destruct (digits2_pos_bounds p) as [Hlo _].
  destruct (Z.le_gt_cases (Zpos (digits2_pos p)) d) as [|Hgt]; [assumption|exfalso].
  assert (0 <= d).
  { destruct (Z.le_gt_cases 0 d); [assumption|].
    rewrite Z.pow_neg_r in H by lia. lia. }
  assert (2 ^ d <= 2 ^ (Zpos (digits2_pos p) - 1)) by (apply Z.pow_le_mono_r; lia).
  lia.
Qed.

Lemma digits2_pos_ge (p : positive) (d : Z) :
  2 ^ (d - 1) <= Zpos p -> d <= Zpos (digits2_pos p).
Proof.
  intros H. destruct (digits2_pos_bounds p) as [_ Hhi].
  destruct (Z.le_gt_cases d (Zpos (digits2_pos p))) as [|Hgt]; [assumption|exfalso].
  assert (2 ^ Zpos (digits2_pos p) <= 2 ^ (d - 1)) by (apply Z.pow_le_mono_r; lia).
  lia.
Qed.

(** ** Shifting right *)

Lemma shr_1_spec (mrs : shr_record) :
  0 <= shr_m mrs ->
  shr_m (shr_1 mrs) = shr_m mrs / 2
  /\ shr_r (shr_1 mrs) = Z.odd (shr_m mrs)
  /\ shr_s (shr_1 mrs) = shr_r mrs || shr_s mrs.
Proof.
  destruct mrs as [m r s]. intros Hm. cbn [shr_m shr_r shr_s] in *.
  destruct m as [|[p|p|]|p]; cbn [shr_1 shr_m shr_r shr_s]; try lia.
  - repeat split.
  - repeat split. rewrite Pos2Z.inj_xI.
    apply Z.div_unique with 1; lia.
  - repeat split. rewrite Pos2Z.inj_xO.
    apply Z.div_unique with 0; lia.
  - repeat split.
Qed.

Lemma divide_pow2_split (a b m : Z) :
  0 <= a -> 0 <= b -> (2 ^ (a + b) | m) ->
  (2 ^ a | m) /\ (2 ^ b | m / 2 ^ a).
Proof.
  intros Ha Hb [k Hk]. rewrite Z.pow_add_r in Hk by assumption.
  assert (0 < 2 ^ a) by (apply Z.pow_pos_nonneg; lia).
  split.
  - exists (k * 2 ^ b). lia.
  - exists k. subst m. replace (k * (2 ^ a * 2 ^ b)) with (k * 2 ^ b * 2 ^ a) by ring.
    rewrite Z.div_mul by lia. reflexivity.
Qed.

Lemma iter_shr_1 (n : positive) (mrs : shr_record) :
  0 <= shr_m mrs ->
  shr_m (iter_pos shr_1 n mrs) = shr_m mrs / 2 ^ Zpos n
  /\ ((2 ^ Zpos n | shr_m mrs) -> shr_r mrs = false -> shr_s mrs = false ->
      shr_r (iter_pos shr_1 n mrs) = false /\ shr_s (iter_pos shr_1 n mrs) = false).
Proof.
  revert mrs. induction n as [n IH|n IH|]; intros mrs Hm; cbn [iter_pos].
  - destruct (shr_1_spec mrs Hm) as (E1 & R1 & S1).
    assert (H1 : 0 <= shr_m (shr_1 mrs)) by (rewrite E1; apply Z.div_pos; lia).
    destruct (IH _ H1) as (E2 & X2).
    assert (H2 : 0 <= shr_m (iter_pos shr_1 n (shr_1 mrs))).
    { rewrite E2. apply Z.div_pos; [assumption|apply Z.pow_pos_nonneg; lia]. }
    destruct (IH _ H2) as (E3 & X3).
    assert (P : 0 < 2 ^ Zpos n) by (apply Z.pow_pos_nonneg; lia).
    split.
    + rewrite E3, E2, E1. rewrite !Z.div_div by lia.
      f_equal. rewrite Pos2Z.inj_xI.
      replace (2 * Zpos n + 1) with (1 + Zpos n + Zpos n) by lia.
      rewrite !Z.pow_add_r by lia. change (2 ^ 1) with 2. ring.
    + intros D Hr Hs. rewrite Pos2Z.inj_xI in D.
      replace (2 * Zpos n + 1) with (1 + (Zpos n + Zpos n)) in D by lia.
      apply divide_pow2_split in D; try lia. destruct D as [D1 D2].
      change (2 ^ 1) with 2 in D1, D2.
      apply divide_pow2_split in D2; try lia. destruct D2 as [D2 D3].
      rewrite <- E1 in D2, D3. rewrite <- E2 in D3.
      assert (Hodd : Z.odd (shr_m mrs) = false).
      { destruct D1 as [k ->]. rewrite Z.mul_comm. rewrite Z.odd_mul. reflexivity. }
      destruct X2 as [R2 S2]; [exact D2|congruence|rewrite S1, Hr, Hs; reflexivity|].
      apply X3; assumption.
  - destruct (IH _ Hm) as (E2 & X2).
    assert (H2 : 0 <= shr_m (iter_pos shr_1 n mrs)).
    { rewrite E2. apply Z.div_pos; [assumption|apply Z.pow_pos_nonneg; lia]. }
    destruct (IH _ H2) as (E3 & X3).
    assert (P : 0 < 2 ^ Zpos n) by (apply Z.pow_pos_nonneg; lia).
    split.
    + rewrite E3, E2. rewrite !Z.div_div by lia.
      f_equal. rewrite <- Z.pow_add_r by lia. f_equal. lia.
    + intros D Hr Hs.
      replace (Zpos n~0) with (Zpos n + Zpos n) in D by lia.
      apply divide_pow2_split in D; try lia. destruct D as [D2 D3].
      rewrite <- E2 in D3.
      destruct X2 as [R2 S2]; [exact D2|assumption|assumption|].
      apply X3; assumption.
  - destruct (shr_1_spec mrs Hm) as (E1 & R1 & S1).
    split; [rewrite E1; reflexivity|].
    intros D Hr Hs. rewrite R1, S1, Hr, Hs. split; [|reflexivity].
    change (2 ^ 1) with 2 in D.
    destruct D as [k ->]. rewrite Z.mul_comm. rewrite Z.odd_mul. reflexivity.
Qed.

(** [shr] by a non-negative amount divides by the power of two, and keeps
    an exact location when the division is exact. *)
Lemma shr_spec (m e n : Z) :
  0 <= m -> 0 <= n ->
  let res := shr (shr_record_of_loc m loc_Exact) e n in
  snd res = e + n
  /\ shr_m (fst res) = m / 2 ^ n
  /\ ((2 ^ n | m) -> loc_of_shr_record (fst res) = loc_Exact).
Proof.
  intros Hm Hn. destruct n as [|p|p]; try lia; cbn [shr fst snd].
  - split; [lia|]. split; [simpl; rewrite Z.div_1_r; reflexivity|reflexivity].
  - destruct (iter_shr_1 p (shr_record_of_loc m loc_Exact)) as (E & X); [exact Hm|].
    split; [reflexivity|]. split; [exact E|].
    intros D. destruct (X D eq_refl eq_refl) as [R S].
    destruct (iter_pos shr_1 p (shr_record_of_loc m loc_Exact)) as [m' r' s'].
    simpl in R, S. subst. reflexivity.
Qed.

Lemma round_nearest_even_spec (m : Z) (l : location) :
  m <= round_nearest_even m l <= m + 1
  /\ (l = loc_Exact -> round_nearest_even m l = m).
Proof.
  destruct l as [|[]]; simpl; try (split; [lia|try reflexivity; discriminate]).
  destruct (Z.even m); split; try lia; discriminate.
Qed.

Lemma fexp_fexp64 (e : Z) : fexp prec emax e = fexp64 e.
Proof. reflexivity. Qed.

Lemma bounded_canonical (m : positive) (e : Z) :
  bounded prec emax m e = true ->
  e = fexp64 (Zpos (digits2_pos m) + e) /\ e <= 971 /\ -1074 <= e
  /\ Zpos (digits2_pos m) <= 53 /\ (Zpos (digits2_pos m) = 53 \/ e = -1074).
Proof.
  unfold bounded, canonical_mantissa. rewrite fexp_fexp64.
  rewrite andb_true_iff, Z.eqb_eq, Z.leb_le. unfold fexp64.
  change (emax - prec) with 971. lia.
Qed.

(** The result of rounding a positive mantissa: the mantissa [m2] after the
    shift and the rounding step lies between the floor and the floor plus
    one of the exact quotient, and is the quotient itself when that is
    exact. *)
Lemma binary_round_aux_pos (m : positive) (e : Z) :
  let e' := fexp64 (Zpos (digits2_pos m) + e) in
  e <= e' ->
  exists m2 : Z,
    Zpos m / 2 ^ (e' - e) <= m2 <= Zpos m / 2 ^ (e' - e) + 1
    /\ ((2 ^ (e' - e) | Zpos m) -> m2 = Zpos m / 2 ^ (e' - e))
    /\ m2 <= 2 ^ 53
    /\ binary_round_aux prec emax false (Zpos m) e loc_Exact =
         if m2 =? 0 then S754_zero false
         else if m2 =? 2 ^ 53 then
           (if e' + 1 <=? 971 then S754_finite false (2 ^ 52)%positive (e' + 1)
            else S754_infinity false)
         else if e' <=? 971 then S754_finite false (Z.to_pos m2) e'
         else S754_infinity false.
Proof.
  intros e' He.
  unfold binary_round_aux, shr_fexp. change (fexp prec emax) with fexp64.
  cbn [Zdigits2]. fold e'.
  destruct (shr_spec (Zpos m) e (e' - e)) as (E1 & M1 & L1); [lia|lia|].
  destruct (shr (shr_record_of_loc (Zpos m) loc_Exact) e (e' - e)) as [mrs1 e1].
  cbn [fst snd] in E1, M1, L1. replace (e + (e' - e)) with e' in E1 by lia. subst e1.
  set (m1 := Zpos m / 2 ^ (e' - e)) in *.
  set (m2 := round_nearest_even (shr_m mrs1) (loc_of_shr_record mrs1)).
  destruct (round_nearest_even_spec (shr_m mrs1) (loc_of_shr_record mrs1)) as [B2 X2].
  fold m2 in B2, X2. rewrite M1 in B2, X2.
  assert (P : 0 < 2 ^ (e' - e)) by (apply Z.pow_pos_nonneg; lia).
  assert (Hm1 : 0 <= m1 < 2 ^ 53).
  { destruct (digits2_pos_bounds m) as [_ Hhi].
    split; [apply Z.div_pos; lia|]. unfold m1.
    apply Z.div_lt_upper_bound; [exact P|].
    rewrite <- Z.pow_add_r by lia.
    eapply Z.lt_le_trans; [exact Hhi|].
    apply Z.pow_le_mono_r; [lia|]. unfold e', fexp64. lia. }
  exists m2. split; [exact B2|]. split; [intros D; apply X2, L1, D|].
  split; [lia|].
  assert (He' : -1074 <= e') by (unfold e', fexp64; lia).
  destruct (Z.eqb_spec m2 0) as [Z0|NZ0].
  - rewrite Z0. cbn [Zdigits2].
    assert (Hn : fexp64 (0 + e') - e' <= 0) by (unfold fexp64; lia).
    destruct (fexp64 (0 + e') - e') as [|p|p] eqn:Hp; try lia; reflexivity.
  - destruct (Z.eqb_spec m2 (2 ^ 53)) as [E53|N53].
    + rewrite E53. change (Zdigits2 (2 ^ 53)) with 54.
      assert (Hn : fexp64 (54 + e') - e' = 1) by (unfold fexp64; lia).
      rewrite Hn. cbn. replace (e' + 1 <=? emax - prec) with (e' + 1 <=? 971) by reflexivity.
      reflexivity.
    + assert (Hpos : 0 < m2 < 2 ^ 53) by lia.
      destruct m2 as [|p2|p2] eqn:Hm2; try lia.
      assert (Hd : Zpos (digits2_pos p2) <= 53) by (apply digits2_pos_le; lia).
      cbn [Zdigits2].
      assert (Hn : fexp64 (Zpos (digits2_pos p2) + e') - e' <= 0) by (unfold fexp64; lia).
      destruct (fexp64 (Zpos (digits2_pos p2) + e') - e') as [|p|p] eqn:Hp; try lia;
        cbn; replace (e' <=? emax - prec) with (e' <=? 971) by reflexivity; reflexivity.
Qed.

Lemma Fval_pos (m : positive) (e : Z) : - bias <= e -> 0 < Fval m e.
Proof.
  intros H. unfold Fval. apply Z.mul_pos_pos; [lia|apply Z.pow_pos_nonneg; lia].
Qed.

Lemma Fval_digits (m : positive) (e : Z) :
  - bias <= e ->
  2 ^ (Zpos (digits2_pos m) - 1 + e + bias) <= Fval m e < 2 ^ (Zpos (digits2_pos m) + e + bias).
Proof.
  intros H. unfold Fval. destruct (digits2_pos_bounds m) as [Hlo Hhi].
  assert (P : 0 < 2 ^ (e + bias)) by (apply Z.pow_pos_nonneg; lia).
  replace (Zpos (digits2_pos m) - 1 + e + bias) with ((Zpos (digits2_pos m) - 1) + (e + bias)) by lia.
  replace (Zpos (digits2_pos m) + e + bias) with (Zpos (digits2_pos m) + (e + bias)) by lia.
  assert (K : 0 <= e + bias) by lia. revert P K. generalize (e + bias). intros k P K.
  rewrite !Z.pow_add_r by lia. split.
  - apply Z.mul_le_mono_nonneg_r; lia.
  - apply Z.mul_lt_mono_pos_r; lia.
Qed.

(** A value at the exponent [e2] read at a smaller exponent [e1]. *)
Lemma Fval_shift (m : positive) (e1 e2 : Z) :
  - bias <= e1 -> e1 <= e2 ->
  Fval m e2 = Zpos m * 2 ^ (e2 - e1) * 2 ^ (e1 + bias).
Proof.
  intros H1 H2. unfold Fval.
  replace (e2 + bias) with ((e2 - e1) + (e1 + bias)) by lia.
  assert (K : 0 <= e1 + bias) by lia. revert K. generalize (e1 + bias). intros k K.
  rewrite Z.pow_add_r by lia. ring.
Qed.

Lemma SFleb_finite_intro (m1 m2 : positive) (e1 e2 : Z) :
  e1 < e2 \/ (e1 = e2 /\ Zpos m1 <= Zpos m2) ->
  SFleb (S754_finite false m1 e1) (S754_finite false m2 e2) = true.
Proof.
  unfold SFleb, SFcompare. intros [H|[-> H]].
  - apply Z.compare_lt_iff in H. rewrite H. reflexivity.
  - rewrite Z.compare_refl. fold (Pos.compare m1 m2).
    destruct (Pos.compare_spec m1 m2); try reflexivity. lia.
Qed.

(** The order of canonical positive numbers is the order of their values. *)
Lemma SFcompare_Fval (m1 m2 : positive) (e1 e2 : Z) :
  bounded prec emax m1 e1 = true -> bounded prec emax m2 e2 = true ->
  match SFcompare (S754_finite false m1 e1) (S754_finite false m2 e2) with
  | Some Lt => Fval m1 e1 < Fval m2 e2
  | Some Eq => Fval m1 e1 = Fval m2 e2
  | Some Gt => Fval m2 e2 < Fval m1 e1
  | None => False
  end.
Proof.
  intros B1 B2.
  destruct (bounded_canonical _ _ B1) as (C1 & U1 & L1 & D1 & N1).
  destruct (bounded_canonical _ _ B2) as (C2 & U2 & L2 & D2 & N2).
  assert (Hlt : forall ma mb ea eb,
             -1074 <= ea -> ea < eb -> Zpos (digits2_pos ma) <= 53 ->
             Zpos (digits2_pos mb) = 53 -> Fval ma ea < Fval mb eb).
  { intros ma mb ea eb La Lab Da Db.
    assert (Ba : - bias <= ea) by (unfold bias; lia).
    assert (Bb : - bias <= eb) by (unfold bias; lia).
    destruct (Fval_digits ma ea Ba) as [_ Ha].
    destruct (Fval_digits mb eb Bb) as [Hb _].
    eapply Z.lt_le_trans; [exact Ha|]. eapply Z.le_trans; [|exact Hb].
    apply Z.pow_le_mono_r; unfold bias; lia. }
  unfold SFcompare.
  destruct (Z.compare_spec e1 e2) as [->|Hc|Hc].
  - fold (Pos.compare m1 m2). unfold Fval.
    assert (P : 0 < 2 ^ (e2 + bias)) by (apply Z.pow_pos_nonneg; unfold bias; lia).
    destruct (Pos.compare_spec m1 m2) as [->|H|H].
    + reflexivity.
    + apply Z.mul_lt_mono_pos_r; lia.
    + apply Z.mul_lt_mono_pos_r; lia.
  - apply Hlt; lia.
  - apply Hlt; lia.
Qed.

Lemma SFleb_Fval (m1 m2 : positive) (e1 e2 : Z) :
  bounded prec emax m1 e1 = true -> bounded prec emax m2 e2 = true ->
  SFleb (S754_finite false m1 e1) (S754_finite false m2 e2) = true ->
  Fval m1 e1 <= Fval m2 e2.
Proof.
  intros B1 B2. pose proof (SFcompare_Fval _ _ _ _ B1 B2) as H. unfold SFleb.
  destruct (SFcompare _ _) as [[]|]; intros; try discriminate; lia.
Qed.

Lemma SFltb_Fval (m1 m2 : positive) (e1 e2 : Z) :
  bounded prec emax m1 e1 = true -> bounded prec emax m2 e2 = true ->
  SFltb (S754_finite false m1 e1) (S754_finite false m2 e2) = true ->
  Fval m1 e1 < Fval m2 e2.
Proof.
  intros B1 B2. pose proof (SFcompare_Fval _ _ _ _ B1 B2) as H. unfold SFltb.
  destruct (SFcompare _ _) as [[]|]; intros; try discriminate; lia.
Qed.

(** ** Rounding is monotone against representable bounds *)

Lemma round_aux_upper (m mb : positive) (e eb : Z) :
  - bias <= e -> e <= fexp64 (Zpos (digits2_pos m) + e) ->
  bounded prec emax mb eb = true ->
  Fval m e <= Fval mb eb ->
  SFleb (binary_round_aux prec emax false (Zpos m) e loc_Exact)
        (S754_finite false mb eb) = true.
Proof.
  intros He Hn Bb Hv.
  destruct (bounded_canonical _ _ Bb) as (Cb & Ub & Lb & Db & Nb).
  set (e' := fexp64 (Zpos (digits2_pos m) + e)) in *.
  assert (Hbb : - bias <= eb) by (unfold bias; lia).
  (* the bound has at least the magnitude of the value *)
  assert (Hmag : Zpos (digits2_pos m) + e <= Zpos (digits2_pos mb) + eb).
  { destruct (Fval_digits m e He) as [Hlo _].
    destruct (Fval_digits mb eb Hbb) as [_ Hhi].
    assert (Hp : 2 ^ (Zpos (digits2_pos m) - 1 + e + bias)
                 < 2 ^ (Zpos (digits2_pos mb) + eb + bias)) by lia.
    apply Z.pow_lt_mono_r_iff in Hp; unfold bias in *; lia. }
  assert (Hee : e' <= eb) by (unfold e', fexp64 in *; lia).
  assert (He' : - bias <= e') by lia.
  set (n := e' - e) in *.
  set (kb := Zpos mb * 2 ^ (eb - e')).
  assert (P : 0 < 2 ^ n) by (apply Z.pow_pos_nonneg; lia).
  assert (Q : 0 < 2 ^ (e + bias)) by (apply Z.pow_pos_nonneg; lia).
  assert (Hk : Zpos m <= kb * 2 ^ n).
  { rewrite (Fval_shift mb e eb) in Hv by lia. unfold Fval in Hv.
    apply Z.mul_le_mono_pos_r in Hv; [|exact Q].
    unfold kb. replace (eb - e) with ((eb - e') + n) in Hv by lia.
    rewrite Z.pow_add_r in Hv by lia. lia. }
  destruct (binary_round_aux_pos m e Hn) as (m2 & B2 & X2 & T2 & ->).
  fold e' in B2, X2 |- *. fold n in B2, X2.
  assert (Hm2 : m2 <= kb).
  { destruct (Z.eq_dec (Zpos m mod 2 ^ n) 0) as [Hz|Hnz].
    - rewrite X2 by (apply Z.mod_divide; lia).
      apply Z.div_le_upper_bound; lia.
    - pose proof (Z.div_mod (Zpos m) (2 ^ n) ltac:(lia)) as Hdm.
      pose proof (Z.mod_pos_bound (Zpos m) (2 ^ n) P) as Hmb.
      assert (Zpos m / 2 ^ n < kb) by nia. lia. }
  assert (Hmb53 : Zpos mb < 2 ^ 53).
  { destruct (digits2_pos_bounds mb) as [_ Hhi].
    eapply Z.lt_le_trans; [exact Hhi|]. apply Z.pow_le_mono_r; lia. }
  destruct (Z.eqb_spec m2 0) as [Z0|NZ0]; [reflexivity|].
  destruct (Z.eqb_spec m2 (2 ^ 53)) as [E53|N53].
  - assert (Hne : e' < eb).
    { destruct (Z.eq_dec e' eb) as [Heq|]; [|lia].
      unfold kb in Hm2. rewrite Heq, Z.sub_diag in Hm2. simpl in Hm2. lia. }
    destruct (Z.leb_spec (e' + 1) 971); [|lia].
    apply SFleb_finite_intro.
    destruct (Z.eq_dec (e' + 1) eb) as [Heq|]; [right|left; lia].
    split; [exact Heq|].
    unfold kb in Hm2. replace (eb - e') with 1 in Hm2 by lia.
    change (2 ^ 1) with 2 in Hm2. change (Zpos (2 ^ 52)) with 4503599627370496.
    change (2 ^ 53) with 9007199254740992 in E53. lia.
  - destruct (Z.leb_spec e' 971); [|lia].
    apply SFleb_finite_intro.
    destruct (Z.eq_dec e' eb) as [Heq|]; [right|left; lia].
    split; [exact Heq|].
    unfold kb in Hm2. rewrite Heq, Z.sub_diag in Hm2. simpl in Hm2.
    assert (0 <= Zpos m / 2 ^ n) by (apply Z.div_pos; lia).
    rewrite Z2Pos.id by lia. lia.
Qed.

Lemma round_aux_lower (m ma : positive) (e ea : Z) :
  - bias <= e -> e <= fexp64 (Zpos (digits2_pos m) + e) ->
  bounded prec emax ma ea = true ->
  Fval ma ea <= Fval m e ->
  SFleb (S754_finite false ma ea)
        (binary_round_aux prec emax false (Zpos m) e loc_Exact) = true.
Proof.
  intros He Hn Ba Hv.
  destruct (bounded_canonical _ _ Ba) as (Ca & Ua & La & Da & Na).
  set (e' := fexp64 (Zpos (digits2_pos m) + e)) in *.
  assert (Hba : - bias <= ea) by (unfold bias; lia).
  assert (Hmag : Zpos (digits2_pos ma) + ea <= Zpos (digits2_pos m) + e).
  { destruct (Fval_digits m e He) as [_ Hhi].
    destruct (Fval_digits ma ea Hba) as [Hlo _].
    assert (Hp : 2 ^ (Zpos (digits2_pos ma) - 1 + ea + bias)
                 < 2 ^ (Zpos (digits2_pos m) + e + bias)) by lia.
    apply Z.pow_lt_mono_r_iff in Hp; unfold bias in *; lia. }
  assert (Hee : ea <= e') by (unfold e', fexp64 in *; lia).
  set (n := e' - e) in *.
  assert (P : 0 < 2 ^ n) by (apply Z.pow_pos_nonneg; lia).
  assert (Q : 0 < 2 ^ (e + bias)) by (apply Z.pow_pos_nonneg; lia).
  (* when the bound sits at the result's exponent, its mantissa is below the quotient *)
  assert (Hsame : ea = e' -> Zpos ma <= Zpos m / 2 ^ n).
  { intros Heq. rewrite (Fval_shift ma e ea) in Hv by lia. unfold Fval in Hv.
    apply Z.mul_le_mono_pos_r in Hv; [|exact Q].
    rewrite Heq in Hv. fold n in Hv.
    apply Z.div_le_lower_bound; lia. }
  assert (Hm1 : 1 <= Zpos m / 2 ^ n).
  { destruct (Z.eq_dec e' (-1074)) as [Hmin|Hnorm].
    - assert (ea = e') by lia. specialize (Hsame H). lia.
    - assert (Hn53 : n = Zpos (digits2_pos m) - 53) by (unfold n, e', fexp64 in *; lia).
      destruct (digits2_pos_bounds m) as [Hlo _].
      apply Z.div_le_lower_bound; [lia|].
      eapply Z.le_trans; [|exact Hlo]. rewrite Z.mul_1_r.
      apply Z.pow_le_mono_r; lia. }
  destruct (binary_round_aux_pos m e Hn) as (m2 & B2 & X2 & T2 & ->).
  fold e' in B2, X2 |- *. fold n in B2, X2.
  destruct (Z.eqb_spec m2 0) as [Z0|NZ0]; [lia|].
  destruct (Z.eqb_spec m2 (2 ^ 53)) as [E53|N53].
  - destruct (Z.leb_spec (e' + 1) 971); [|reflexivity].
    apply SFleb_finite_intro. left. lia.
  - destruct (Z.leb_spec e' 971); [|reflexivity].
    apply SFleb_finite_intro.
    destruct (Z.eq_dec ea e') as [Heq|]; [right|left; lia].
    split; [exact Heq|]. specialize (Hsame Heq).
    rewrite Z2Pos.id by lia. lia.
Qed.

(** ** Aligning mantissas *)

Lemma shl_align_spec (m : positive) (e e' : Z) :
  snd (shl_align m e e') = Z.min e e'
  /\ Zpos (fst (shl_align m e e')) = Zpos m * 2 ^ (e - snd (shl_align m e e')).
Proof.
  unfold shl_align. destruct (e' - e) as [|p|p] eqn:Hp; cbn [fst snd].
  - split; [lia|]. rewrite Z.sub_diag. simpl. lia.
  - split; [lia|]. rewrite Z.sub_diag. simpl. lia.
  - split; [lia|]. replace (e - e') with (Zpos p) by lia.
    change (Pos.iter xO m p) with (shift_pos p m).
    rewrite shift_pos_correct. change (Z.pow_pos 2 p) with (2 ^ Zpos p).
    apply Z.mul_comm.
Qed.

Lemma Fval_shl_align (m : positive) (e e' : Z) :
  - bias <= e -> - bias <= e' ->
  Fval (fst (shl_align m e e')) (snd (shl_align m e e')) = Fval m e.
Proof.
  intros He He'. destruct (shl_align_spec m e e') as [Hs Hf].
  unfold Fval at 1. rewrite Hf.
  rewrite (Fval_shift m (snd (shl_align m e e')) e) by lia. reflexivity.
Qed.

Lemma digits2_pos_shl_align (m : positive) (e e' : Z) :
  Zpos (digits2_pos (fst (shl_align m e e'))) + snd (shl_align m e e')
  = Zpos (digits2_pos m) + e.
Proof.
  destruct (shl_align_spec m e e') as [Hs Hf].
  set (k := e - snd (shl_align m e e')) in *.
  assert (Hk : 0 <= k) by lia.
  destruct (digits2_pos_bounds m) as [Hlo Hhi].
  assert (P : 0 < 2 ^ k) by (apply Z.pow_pos_nonneg; lia).
  assert (H1 : Zpos (digits2_pos (fst (shl_align m e e'))) <= Zpos (digits2_pos m) + k).
  { apply digits2_pos_le. rewrite Hf, Z.pow_add_r by lia.
    apply Z.mul_lt_mono_pos_r; lia. }
  assert (H2 : Zpos (digits2_pos m) + k <= Zpos (digits2_pos (fst (shl_align m e e')))).
  { apply digits2_pos_ge. rewrite Hf.
    replace (Zpos (digits2_pos m) + k - 1) with ((Zpos (digits2_pos m) - 1) + k) by lia.
    rewrite Z.pow_add_r by lia. apply Z.mul_le_mono_nonneg_r; lia. }
  lia.
Qed.

(** [binary_round] first brings the mantissa to the format's exponent, then
    rounds: both bounds carry over. *)
Lemma binary_round_upper (m mb : positive) (e eb : Z) :
  - bias <= e ->
  bounded prec emax mb eb = true ->
  Fval m e <= Fval mb eb ->
  SFleb (binary_round prec emax false m e) (S754_finite false mb eb) = true.
Proof.
  intros He Bb Hv. unfold binary_round. change (fexp prec emax) with fexp64.
  set (f := fexp64 (Zpos (digits2_pos m) + e)).
  assert (Hf : - bias <= f) by (unfold f, fexp64, bias; lia).
  pose proof (shl_align_spec m e f) as [Hs _].
  pose proof (Fval_shl_align m e f He Hf) as Hval.
  pose proof (digits2_pos_shl_align m e f) as Hd.
  destruct (shl_align m e f) as [mz ez]. cbn [fst snd] in *.
  apply round_aux_upper; try assumption; [lia| |lia].
  rewrite Hd. fold f. lia.
Qed.

Lemma binary_round_lower (m ma : positive) (e ea : Z) :
  - bias <= e ->
  bounded prec emax ma ea = true ->
  Fval ma ea <= Fval m e ->
  SFleb (S754_finite false ma ea) (binary_round prec emax false m e) = true.
Proof.
  intros He Ba Hv. unfold binary_round. change (fexp prec emax) with fexp64.
  set (f := fexp64 (Zpos (digits2_pos m) + e)).
  assert (Hf : - bias <= f) by (unfold f, fexp64, bias; lia).
  pose proof (shl_align_spec m e f) as [Hs _].
  pose proof (Fval_shl_align m e f He Hf) as Hval.
  pose proof (digits2_pos_shl_align m e f) as Hd.
  destruct (shl_align m e f) as [mz ez]. cbn [fst snd] in *.
  apply round_aux_lower; try assumption; [lia| |lia].
  rewrite Hd. fold f. lia.
Qed.

(** ** Sums, differences and products of positive numbers *)

Lemma SFadd_pos (mx mc : positive) (ex ec : Z) :
  - bias <= ex -> - bias <= ec ->
  exists s : positive,
    SF64add (S754_finite false mx ex) (S754_finite false mc ec)
      = binary_round prec emax false s (Z.min ex ec)
    /\ Fval s (Z.min ex ec) = Fval mx ex + Fval mc ec.
Proof.
  intros Hx Hc. unfold SF64add, SFadd. cbn [cond_Zopp].
  set (ez := Z.min ex ec).
  pose proof (shl_align_spec mx ex ez) as [Sx _].
  pose proof (shl_align_spec mc ec ez) as [Sc _].
  pose proof (Fval_shl_align mx ex ez Hx ltac:(lia)) as Vx.
  pose proof (Fval_shl_align mc ec ez Hc ltac:(lia)) as Vc.
  destruct (shl_align mx ex ez) as [mx' ex'], (shl_align mc ec ez) as [mc' ec'].
  cbn [fst snd] in *.
  assert (Ex : ex' = ez) by lia. assert (Ec : ec' = ez) by lia.
  rewrite Ex in *. rewrite Ec in *. clear Ex Ec Sx Sc.
  exists (mx' + mc')%positive. split; [reflexivity|].
  rewrite <- Vx, <- Vc. unfold Fval. rewrite Pos2Z.inj_add. ring.
Qed.

Lemma SFsub_pos (mx mc : positive) (ex ec : Z) :
  - bias <= ex -> - bias <= ec ->
  Fval mc ec < Fval mx ex ->
  exists s : positive,
    SF64sub (S754_finite false mx ex) (S754_finite false mc ec)
      = binary_round prec emax false s (Z.min ex ec)
    /\ Fval s (Z.min ex ec) = Fval mx ex - Fval mc ec.
Proof.
  intros Hx Hc Hlt. unfold SF64sub, SFsub. cbn [cond_Zopp].
  set (ez := Z.min ex ec).
  pose proof (shl_align_spec mx ex ez) as [Sx _].
  pose proof (shl_align_spec mc ec ez) as [Sc _].
  pose proof (Fval_shl_align mx ex ez Hx ltac:(lia)) as Vx.
  pose proof (Fval_shl_align mc ec ez Hc ltac:(lia)) as Vc.
  destruct (shl_align mx ex ez) as [mx' ex'], (shl_align mc ec ez) as [mc' ec'].
  cbn [fst snd] in *.
  assert (Ex : ex' = ez) by lia. assert (Ec : ec' = ez) by lia.
  rewrite Ex in *. rewrite Ec in *. clear Ex Ec Sx Sc.
  assert (P : 0 < 2 ^ (ez + bias)) by (apply Z.pow_pos_nonneg; lia).
  assert (Hm : Zpos mc' < Zpos mx').
  { rewrite <- Vx, <- Vc in Hlt. unfold Fval in Hlt.
    apply Z.mul_lt_mono_pos_r in Hlt; assumption. }
  exists (mx' - mc')%positive. split.
  - replace (Zpos mx' - Zpos mc') with (Zpos (mx' - mc')) by (rewrite Pos2Z.inj_sub; lia).
    reflexivity.
  - rewrite <- Vx, <- Vc. unfold Fval. rewrite Pos2Z.inj_sub by lia. ring.
Qed.

Lemma SFmul_pos (mx mc : positive) (ex ec : Z) :
  bounded prec emax mx ex = true -> bounded prec emax mc ec = true ->
  SF64mul (S754_finite false mx ex) (S754_finite false mc ec)
    = binary_round_aux prec emax false (Zpos (mx * mc)) (ex + ec) loc_Exact
  /\ ex + ec <= fexp64 (Zpos (digits2_pos (mx * mc)) + (ex + ec))
  /\ - bias <= ex + ec
  /\ Fval (mx * mc) (ex + ec) * 2 ^ bias = Fval mx ex * Fval mc ec.
Proof.
  intros Bx Bc.
  destruct (bounded_canonical _ _ Bx) as (Cx & Ux & Lx & Dx & Nx).
  destruct (bounded_canonical _ _ Bc) as (Cc & Uc & Lc & Dc & Nc).
  split; [reflexivity|].
  assert (HD : Zpos (digits2_pos mx) + Zpos (digits2_pos mc) - 1
               <= Zpos (digits2_pos (mx * mc))).
  { apply digits2_pos_ge. rewrite Pos2Z.inj_mul.
    destruct (digits2_pos_bounds mx) as [Hx _].
    destruct (digits2_pos_bounds mc) as [Hc _].
    replace (Zpos (digits2_pos mx) + Zpos (digits2_pos mc) - 1 - 1)
      with ((Zpos (digits2_pos mx) - 1) + (Zpos (digits2_pos mc) - 1)) by lia.
    rewrite Z.pow_add_r by lia.
    apply Z.mul_le_mono_nonneg; try assumption; apply Z.pow_nonneg; lia. }
  split; [unfold fexp64; lia|].
  split; [unfold bias; lia|].
  unfold Fval. rewrite Pos2Z.inj_mul.
  assert (E : 2 ^ (ex + ec + bias) * 2 ^ bias = 2 ^ (ex + bias) * 2 ^ (ec + bias)).
  { rewrite <- !Z.pow_add_r by (unfold bias; lia). f_equal. lia. }
  replace (Zpos mx * Zpos mc * 2 ^ (ex + ec + bias) * 2 ^ bias)
    with (Zpos mx * Zpos mc * (2 ^ (ex + ec + bias) * 2 ^ bias)) by ring.
  rewrite E. ring.
Qed.

(** A rounded positive mantissa is zero, a positive number or plus infinity. *)
Lemma round_aux_shape (m : positive) (e : Z) :
  e <= fexp64 (Zpos (digits2_pos m) + e) ->
  let r := binary_round_aux prec emax false (Zpos m) e loc_Exact in
  r = S754_zero false \/ (exists m' e', r = S754_finite false m' e')
  \/ r = S754_infinity false.
Proof.
  intros Hn r. unfold r.
  destruct (binary_round_aux_pos m e Hn) as (m2 & _ & _ & _ & ->).
  destruct (m2 =? 0); [left; reflexivity|right].
  destruct (m2 =? 2 ^ 53).
  - destruct (_ <=? 971); [left; eauto|right; reflexivity].
  - destruct (_ <=? 971); [left; eauto|right; reflexivity].
Qed.

(** * Non-negative binary64 numbers and their values *)

Lemma valid_bias (m : positive) (e : Z) :
  bounded prec emax m e = true -> - bias <= e.
Proof.
  intros H. destruct (bounded_canonical m e H) as (_ & _ & L & _). unfold bias. lia.
Qed.

Lemma nnval_nonneg (f : spec_float) (v : Z) :
  valid_binary f = true -> nnval f = Some v -> 0 <= v.
Proof.
  destruct f as [s|s| |[] m e]; simpl; intros V H; inversion H; subst; try lia.
  apply Z.lt_le_incl, Fval_pos. eapply valid_bias; exact V.
Qed.

Lemma SFleb_nnval_elim (X Y : spec_float) (vx vy : Z) :
  valid_binary X = true -> valid_binary Y = true ->
  nnval X = Some vx -> nnval Y = Some vy ->
  SFleb X Y = true -> vx <= vy.
Proof.
  intros VX VY HX HY.
  pose proof (nnval_nonneg _ _ VY HY) as Hy0.
  destruct X as [sx|sx| |[] mx ex]; simpl in HX; inversion HX; subst; clear HX;
    destruct Y as [sy|sy| |[] my ey]; simpl in HY; inversion HY; subst; clear HY;
      intros H; try lia; try discriminate.
  apply SFleb_Fval; assumption.
Qed.

Lemma SFltb_nnval_elim (X Y : spec_float) (vx vy : Z) :
  valid_binary X = true -> valid_binary Y = true ->
  nnval X = Some vx -> nnval Y = Some vy ->
  SFltb X Y = true -> vx < vy.
Proof.
  intros VX VY HX HY.
  destruct X as [sx|sx| |[] mx ex]; simpl in HX; inversion HX; subst; clear HX;
    destruct Y as [sy|sy| |[] my ey]; simpl in HY; inversion HY; subst; clear HY;
      intros H; try discriminate.
  - apply Fval_pos. eapply valid_bias; exact VY.
  - apply SFltb_Fval; assumption.
Qed.

Lemma SFleb_nnval_intro (X Y : spec_float) (vx vy : Z) :
  valid_binary X = true -> valid_binary Y = true ->
  nnval X = Some vx -> nnval Y = Some vy ->
  vx <= vy -> SFleb X Y = true.
Proof.
  intros VX VY HX HY.
  destruct X as [sx|sx| |[] mx ex]; simpl in HX; inversion HX; subst; clear HX;
    destruct Y as [sy|sy| |[] my ey]; simpl in HY; inversion HY; subst; clear HY;
      intros H; try reflexivity.
  - pose proof (Fval_pos mx ex (valid_bias _ _ VX)). lia.
  - pose proof (SFcompare_Fval mx my ex ey VX VY) as C. unfold SFleb.
    destruct (SFcompare _ _) as [[]|]; try reflexivity; lia.
Qed.

(** A number between two non-negative finite numbers is one itself. *)
Lemma valOf_between (a y b : float) (va vb : Z) :
  valOf a = Some va -> valOf b = Some vb ->
  PrimFloat.leb a y = true -> PrimFloat.leb y b = true ->
  exists vy, valOf y = Some vy /\ va <= vy <= vb.
Proof.
  unfold valOf. rewrite !leb_spec. intros Ha Hb Hay Hyb.
  pose proof (Prim2SF_valid a) as Va. pose proof (Prim2SF_valid y) as Vy.
  pose proof (Prim2SF_valid b) as Vb.
  assert (Hy : exists vy, nnval (Prim2SF y) = Some vy).
  { destruct (Prim2SF y) as [sy|sy| |[] my ey]; simpl; eauto.
    - destruct sy.
      + destruct (Prim2SF a) as [sa|sa| |[] ma ea]; simpl in Ha; discriminate.
      + destruct (Prim2SF b) as [sb|sb| |[] mb eb]; simpl in Hb; discriminate.
    - destruct (Prim2SF a) as [sa|sa| |[] ma ea]; simpl in Ha; discriminate.
    - destruct (Prim2SF a) as [sa|sa| |[] ma ea]; simpl in Ha; discriminate. }
  destruct Hy as [vy Hy]. exists vy. split; [exact Hy|]. split.
  - eapply SFleb_nnval_elim with (X := Prim2SF a) (Y := Prim2SF y); eassumption.
  - eapply SFleb_nnval_elim with (X := Prim2SF y) (Y := Prim2SF b); eassumption.
Qed.

Lemma valOf_leb (x y : float) (vx vy : Z) :
  valOf x = Some vx -> valOf y = Some vy ->
  PrimFloat.leb x y = true -> vx <= vy.
Proof.
  unfold valOf. rewrite leb_spec. intros Hx Hy.
  apply SFleb_nnval_elim; try assumption; apply Prim2SF_valid.
Qed.

Lemma valOf_ltb (x y : float) (vx vy : Z) :
  valOf x = Some vx -> valOf y = Some vy ->
  PrimFloat.ltb x y = true -> vx < vy.
Proof.
  unfold valOf. rewrite ltb_spec. intros Hx Hy.
  apply SFltb_nnval_elim; try assumption; apply Prim2SF_valid.
Qed.

Lemma leb_valOf (x y : float) (vx vy : Z) :
  valOf x = Some vx -> valOf y = Some vy ->
  vx <= vy -> PrimFloat.leb x y = true.
Proof.
  unfold valOf. rewrite leb_spec. intros Hx Hy.
  apply SFleb_nnval_intro; try assumption; apply Prim2SF_valid.
Qed.

(** ** Bounds on sums, differences and products *)

Lemma nnval_pos_finite (f : spec_float) (v : Z) :
  nnval f = Some v -> 0 < v -> exists m e, f = S754_finite false m e /\ v = Fval m e.
Proof.
  destruct f as [s|s| |[] m e]; simpl; intros H Hv; inversion H; subst; try lia.
  eauto.
Qed.

(** [x + c] for a non-negative [x] and a positive [c] lies between every two
    positive numbers that bracket the exact sum. *)
Lemma add_bounds (x c a b : float) (vx vc va vb : Z) :
  valOf x = Some vx -> valOf c = Some vc -> 0 < vc ->
  valOf a = Some va -> 0 < va -> valOf b = Some vb ->
  va <= vx + vc -> vx + vc <= vb ->
  PrimFloat.leb a (x + c) = true /\ PrimFloat.leb (x + c) b = true.
Proof.
  unfold valOf. intros Hx Hc Pc Ha Pa Hb Hlo Hhi.
  rewrite !leb_spec, add_spec.
  pose proof (Prim2SF_valid x) as Vx. pose proof (Prim2SF_valid c) as Vc.
  pose proof (Prim2SF_valid a) as Va. pose proof (Prim2SF_valid b) as Vb.
  pose proof (nnval_nonneg _ _ Vx Hx) as Px.
  destruct (nnval_pos_finite _ _ Hc Pc) as (mc & ec & Ec & ->).
  destruct (nnval_pos_finite _ _ Ha Pa) as (ma & ea & Ea & ->).
  destruct (nnval_pos_finite _ _ Hb ltac:(lia)) as (mb & eb & Eb & ->).
  rewrite Ec, Ea, Eb in *. cbn [valid_binary] in Vc, Va, Vb.
  destruct (Prim2SF x) as [sx|sx| |[] mx ex]; simpl in Hx; inversion Hx; subst; clear Hx.
  - cbn [SF64add SFadd]. split.
    + apply (SFleb_nnval_intro (S754_finite false ma ea) (S754_finite false mc ec)
               _ _ Va Vc eq_refl eq_refl). lia.
    + apply (SFleb_nnval_intro (S754_finite false mc ec) (S754_finite false mb eb)
               _ _ Vc Vb eq_refl eq_refl). lia.
  - cbn [valid_binary] in Vx.
    destruct (SFadd_pos mx mc ex ec (valid_bias _ _ Vx) (valid_bias _ _ Vc)) as (s & -> & Es).
    assert (Hz : - bias <= Z.min ex ec).
    { pose proof (valid_bias _ _ Vx). pose proof (valid_bias _ _ Vc). lia. }
    split.
    + apply binary_round_lower; try assumption. lia.
    + apply binary_round_upper; try assumption. lia.
Qed.

(** [x - c] for positive [c < x]. *)
Lemma sub_bounds (x c a b : float) (vx vc va vb : Z) :
  valOf x = Some vx -> valOf c = Some vc -> 0 < vc -> vc < vx ->
  valOf a = Some va -> 0 < va -> valOf b = Some vb ->
  va <= vx - vc -> vx - vc <= vb ->
  PrimFloat.leb a (x - c) = true /\ PrimFloat.leb (x - c) b = true.
Proof.
  unfold valOf. intros Hx Hc Pc Hcx Ha Pa Hb Hlo Hhi.
  rewrite !leb_spec, sub_spec.
  pose proof (Prim2SF_valid x) as Vx. pose proof (Prim2SF_valid c) as Vc.
  pose proof (Prim2SF_valid a) as Va. pose proof (Prim2SF_valid b) as Vb.
  destruct (nnval_pos_finite _ _ Hx ltac:(lia)) as (mx & ex & Ex & ->).
  destruct (nnval_pos_finite _ _ Hc Pc) as (mc & ec & Ec & ->).
  destruct (nnval_pos_finite _ _ Ha Pa) as (ma & ea & Ea & ->).
  destruct (nnval_pos_finite _ _ Hb ltac:(lia)) as (mb & eb & Eb & ->).
  rewrite Ex, Ec, Ea, Eb in *. cbn [valid_binary] in Vx, Vc, Va, Vb.
  destruct (SFsub_pos mx mc ex ec (valid_bias _ _ Vx) (valid_bias _ _ Vc) Hcx) as (s & -> & Es).
  assert (Hz : - bias <= Z.min ex ec).
  { pose proof (valid_bias _ _ Vx). pose proof (valid_bias _ _ Vc). lia. }
  split.
  - apply binary_round_lower; try assumption. lia.
  - apply binary_round_upper; try assumption. lia.
Qed.

(** [x * c] for a non-negative [x] and a positive [c] is a non-negative
    finite number below every positive number above the exact product. *)
Lemma mul_upper (x c b : float) (vx vc vb : Z) :
  valOf x = Some vx -> valOf c = Some vc -> 0 < vc ->
  valOf b = Some vb -> 0 < vb ->
  vx * vc <= vb * 2 ^ bias ->
  exists vh, valOf (x * c) = Some vh /\ 0 <= vh <= vb.
Proof.
  unfold valOf. intros Hx Hc Pc Hb Pb Hhi.
  pose proof (Prim2SF_valid (x * c)) as Vr. rewrite mul_spec in Vr |- *.
  pose proof (Prim2SF_valid x) as Vx. pose proof (Prim2SF_valid c) as Vc.
  pose proof (Prim2SF_valid b) as Vb.
  destruct (nnval_pos_finite _ _ Hc Pc) as (mc & ec & Ec & ->).
  destruct (nnval_pos_finite _ _ Hb Pb) as (mb & eb & Eb & ->).
  rewrite Ec, Eb in *. cbn [valid_binary] in Vc, Vb.
  destruct (Prim2SF x) as [sx|sx| |[] mx ex]; simpl in Hx; inversion Hx; subst; clear Hx.
  - exists 0. split; [reflexivity|]. pose proof (Fval_pos mb eb (valid_bias _ _ Vb)). lia.
  - cbn [valid_binary] in Vx.
    destruct (SFmul_pos mx mc ex ec Vx Vc) as (Em & Hn & Hbias & Ev).
    rewrite Em in *.
    assert (Hle : Fval (mx * mc) (ex + ec) <= Fval mb eb).
    { assert (P : 0 < 2 ^ bias) by (apply Z.pow_pos_nonneg; unfold bias; lia).
      apply Z.mul_le_mono_pos_r with (p := 2 ^ bias); [exact P|]. lia. }
    pose proof (round_aux_upper (mx * mc) mb (ex + ec) eb Hbias Hn Vb Hle) as Hup.
    destruct (round_aux_shape (mx * mc) (ex + ec) Hn) as [R|[(m' & e' & R)|R]];
      rewrite R in *.
    + exists 0. split; [reflexivity|]. pose proof (Fval_pos mb eb (valid_bias _ _ Vb)). lia.
    + exists (Fval m' e'). split; [reflexivity|]. cbn [valid_binary] in Vr. split.
      * apply Z.lt_le_incl, Fval_pos, (valid_bias _ _ Vr).
      * apply SFleb_Fval; assumption.
    + discriminate.
Qed.

End Rounding.

(** * Lightness of the derived states *)

Section StateLightness.

#[local] Open Scope Z_scope.

Lemma unitVal_pos : 0 < unitVal.
Proof. reflexivity. Qed.

Lemma valOf_half : valOf 0.5%float = Some (2 ^ (bias - 1)).
Proof. vm_compute. reflexivity. Qed.

Lemma unitVal_half : unitVal = 2 * 2 ^ (bias - 1).
Proof. reflexivity. Qed.

Lemma valOf_0 : valOf 0%float = Some (0 * unitVal). Proof. vm_compute. reflexivity. Qed.
Lemma valOf_5 : valOf 5%float = Some (5 * unitVal). Proof. vm_compute. reflexivity. Qed.
Lemma valOf_10 : valOf 10%float = Some (10 * unitVal). Proof. vm_compute. reflexivity. Qed.
Lemma valOf_15 : valOf 15%float = Some (15 * unitVal). Proof. vm_compute. reflexivity. Qed.
Lemma valOf_20 : valOf 20%float = Some (20 * unitVal). Proof. vm_compute. reflexivity. Qed.
Lemma valOf_25 : valOf 25%float = Some (25 * unitVal). Proof. vm_compute. reflexivity. Qed.
Lemma valOf_50 : valOf 50%float = Some (50 * unitVal). Proof. vm_compute. reflexivity. Qed.
Lemma valOf_75 : valOf 75%float = Some (75 * unitVal). Proof. vm_compute. reflexivity. Qed.
Lemma valOf_80 : valOf 80%float = Some (80 * unitVal). Proof. vm_compute. reflexivity. Qed.
Lemma valOf_85 : valOf 85%float = Some (85 * unitVal). Proof. vm_compute. reflexivity. Qed.
Lemma valOf_90 : valOf 90%float = Some (90 * unitVal). Proof. vm_compute. reflexivity. Qed.
Lemma valOf_95 : valOf 95%float = Some (95 * unitVal). Proof. vm_compute. reflexivity. Qed.
Lemma valOf_100 : valOf 100%float = Some (100 * unitVal). Proof. vm_compute. reflexivity. Qed.

(** A lightness inside [[0, 100]] is a non-negative finite number. *)
Lemma lightness_valOf (L : float) :
  (0 <=? L)%float = true -> (L <=? 100)%float = true ->
  exists v, valOf L = Some v /\ 0 <= v <= 100 * unitVal.
Proof.
  intros H0 H100.
  destruct (valOf_between 0%float L 100%float _ _ valOf_0 valOf_100 H0 H100) as (v & Hv & B).
  exists v. split; [exact Hv|lia].
Qed.

Lemma hoverState_lightness (H S L : float) :
  (0 <=? L)%float = true -> (L <=? 100)%float = true ->
  (10 <=? snd (hoverState (H, S, L)))%float = true
  /\ (snd (hoverState (H, S, L)) <=? 90)%float = true.
Proof.
  intros H0 H100. destruct (lightness_valOf L H0 H100) as (v & Hv & Bv).
  pose proof unitVal_pos as U.
  unfold hoverState. destruct (L >? 80.0)%float eqn:H80; cbn [snd].
  - pose proof (valOf_ltb _ _ _ _ valOf_80 Hv H80) as Hlt.
    apply (sub_bounds L 10 10 90 _ (10 * unitVal) (10 * unitVal) (90 * unitVal) Hv valOf_10);
      first [exact valOf_10|exact valOf_90|lia].
  - assert (Hle : (L <=? 80)%float = true).
    { apply not_ltb_leb; [reflexivity|apply (leb_not_nan _ _ H0)|exact H80]. }
    pose proof (valOf_leb _ _ _ _ Hv valOf_80 Hle) as Hv80.
    apply (add_bounds L 10 10 90 _ (10 * unitVal) (10 * unitVal) (90 * unitVal) Hv valOf_10);
      first [exact valOf_10|exact valOf_90|lia].
Qed.

Lemma clickedState_lightness (H S L : float) :
  (0 <=? L)%float = true -> (L <=? 100)%float = true ->
  (5 <=? snd (clickedState (H, S, L)))%float = true
  /\ (snd (clickedState (H, S, L)) <=? 85)%float = true.
Proof.
  intros H0 H100. destruct (lightness_valOf L H0 H100) as (v & Hv & Bv).
  pose proof unitVal_pos as U.
  unfold clickedState. destruct (L <? 20.0)%float eqn:H20; cbn [snd].
  - pose proof (valOf_ltb _ _ _ _ Hv valOf_20 H20) as Hlt.
    apply (add_bounds L 15 5 85 _ (15 * unitVal) (5 * unitVal) (85 * unitVal) Hv valOf_15);
      first [exact valOf_5|exact valOf_85|lia].
  - assert (Hle : (20 <=? L)%float = true).
    { apply not_ltb_leb; [apply (leb_not_nan _ _ H0)|reflexivity|exact H20]. }
    pose proof (valOf_leb _ _ _ _ valOf_20 Hv Hle) as Hv20.
    apply (sub_bounds L 15 5 85 _ (15 * unitVal) (5 * unitVal) (85 * unitVal) Hv valOf_15);
      first [exact valOf_5|exact valOf_85|lia].
Qed.

(** The disabled lightness before the low-saturation fix. *)
Lemma compress_lightness (L : float) :
  (0 <=? L)%float = true -> (L <=? 100)%float = true ->
  (25 <=? L * 0.5 + 25.0)%float = true /\ (L * 0.5 + 25.0 <=? 75)%float = true.
Proof.
  intros H0 H100. destruct (lightness_valOf L H0 H100) as (v & Hv & Bv).
  pose proof unitVal_pos as U.
  assert (Hhalf : 0 < 2 ^ (bias - 1)) by reflexivity.
  destruct (mul_upper L 0.5 50 v (2 ^ (bias - 1)) (50 * unitVal) Hv valOf_half Hhalf valOf_50) as (vh & Hh & Bh).
  - lia.
  - fold unitVal. rewrite unitVal_half in *. nia.
  - apply (add_bounds (L * 0.5) 25 25 75 _ (25 * unitVal) (25 * unitVal) (75 * unitVal) Hh valOf_25);
      first [exact valOf_25|exact valOf_75|lia].
Qed.

Lemma disabledState_lightness (H S L : float) :
  (0 <=? L)%float = true -> (L <=? 100)%float = true ->
  (25 <=? snd (disabledState (H, S, L)))%float = true
  /\ (snd (disabledState (H, S, L)) <=? 95)%float = true.
Proof.
  intros H0 H100. destruct (compress_lightness L H0 H100) as [Hlo Hhi].
  pose proof unitVal_pos as U.
  unfold disabledState. cbn [snd].
  set (d2 := (L * 0.5 + 25.0)%float) in *.
  assert (Hplain : (25 <=? d2)%float = true /\ (d2 <=? 95)%float = true).
  { split; [exact Hlo|]. apply leb_trans with 75%float; [exact Hhi|reflexivity]. }
  destruct (S <? 35.0)%float; [|exact Hplain].
  destruct (Math.abs (d2 - L) <? 15.0)%float; [|exact Hplain].
  destruct (valOf_between 25%float d2 75%float _ _ valOf_25 valOf_75 Hlo Hhi) as (vd & Hd & Bd).
  apply (add_bounds d2 20 25 95 _ (20 * unitVal) (25 * unitVal) (95 * unitVal) Hd valOf_20);
      first [exact valOf_25|exact valOf_95|lia].
Qed.

End StateLightness.

(** * The properties of the specification *)

(** ** Lightness extremes *)

Lemma atExtreme_sanitize (L : float) :
  atExtreme L = true -> atExtreme (HSLuv.sanitize L) = true.
Proof.
  unfold HSLuv.sanitize, Math.isnan, Math.isinf.
  destruct (is_nan L); [reflexivity|].
  destruct (is_infinity L); [reflexivity|]. exact (fun H => H).
Qed.

Lemma hsluvToLch_extreme (M : Math.api) (H S L : float) :
  atExtreme L = true ->
  HSLuv.hsluvToLch M (H, S, L) = (HSLuv.sanitize L, 0.0, HSLuv.sanitize H).
Proof.
  intros HL. apply atExtreme_sanitize in HL. unfold atExtreme in HL.
  unfold HSLuv.hsluvToLch. rewrite HL. reflexivity.
Qed.

Lemma lchToHsluv_extreme (M : Math.api) (L C H : float) :
  atExtreme L = true ->
  HSLuv.lchToHsluv M (L, C, H) = (H, 0.0, L).
Proof.
  intros HL. unfold atExtreme in HL.
  unfold HSLuv.lchToHsluv. rewrite HL. reflexivity.
Qed.

(** C2, at an input of the claim: with an infinite hue and L = 0,
    [hsluvToLch] short-circuits with chroma 0, and the hue it returns is
    0.0, not the hue it was given. *)
Lemma C2_infinite_hue_not_preserved :
  (forall M : Math.api, HSLuv.hsluvToLch M (infinity, 50, 0) = (0, 0, 0))
  /\ atExtreme 0 = true
  /\ (infinity =? 0) = false.
Proof.
  split; [|split; reflexivity].
  intros M. rewrite hsluvToLch_extreme by reflexivity. reflexivity.
Qed.

(** C2 (amended): when L is below EPS = 1e-10 or above 99.99999, both
    directions short-circuit, with the same result whatever the host's
    numeric library computes (the chroma solver is not consulted):
    [hsluvToLch] returns chroma exactly 0 with the sanitised L and the
    sanitised H, which is H itself whenever H is finite (a NaN or infinite H
    becomes 0.0); [lchToHsluv] returns saturation exactly 0 with H and L
    exactly as given, for every H.  Neither result depends on S or C. *)
Theorem C2_extremes_short_circuit (M : Math.api) (H S L C : float)
  (HL : atExtreme L = true) :
  HSLuv.hsluvToLch M (H, S, L) = (HSLuv.sanitize L, 0.0, HSLuv.sanitize H)
  /\ (is_finite H = true -> HSLuv.hsluvToLch M (H, S, L) = (HSLuv.sanitize L, 0.0, H))
  /\ HSLuv.lchToHsluv M (L, C, H) = (H, 0.0, L)
  /\ (forall M' : Math.api,
        HSLuv.hsluvToLch M' (H, S, L) = HSLuv.hsluvToLch M (H, S, L)
        /\ HSLuv.lchToHsluv M' (L, C, H) = HSLuv.lchToHsluv M (L, C, H)).
Proof.
  split; [apply hsluvToLch_extreme; exact HL|].
  split.
  { intros HH. rewrite hsluvToLch_extreme by exact HL.
    rewrite (sanitize_finite H HH). reflexivity. }
  split; [apply lchToHsluv_extreme; exact HL|].
  intros M'. rewrite !hsluvToLch_extreme, !lchToHsluv_extreme by exact HL.
  split; reflexivity.
Qed.

Lemma C2_extremes_short_circuit_witness :
  atExtreme 100 = true
  /\ forall M : Math.api, HSLuv.hsluvToLch M (200, 50, 100) = (100, 0, 200).
Proof.
  split; [reflexivity|].
  intros M.
  exact (proj1 (C2_extremes_short_circuit M 200 50 100 0 eq_refl)).
Defined.

(** ** Disabled state *)

(** C4, at the failing input S = 10, L = 70: the disabled lightness is first
    70 * 0.5 + 25 = 60, the low-saturation fix fires (|60 - 70| = 10 < 15)
    and adds 20, and the final distance |80 - 70| = 10 is still below 15.
    The same happens at the HSLuv form of the gray 0xFFABABAB
    (S = 2.3e-5, L = 69.98): the final distance is 10.009. *)
Theorem C4_disabled_too_close_at_70 :
  disabledState (0, 10, 70) = (0, 20, 80)
  /\ (Math.abs (70 * 0.5 + 25.0 - 70) <? 15.0) = true
  /\ (Math.abs (snd (disabledState (0, 10, 70)) - 70) <? 15) = true
  /\ disabledState (146.35597503201643, 2.3181484622297316e-05, 69.98213444295476)
     = (146.35597503201643, 20, 79.99106722147738)
  /\ Math.abs (79.99106722147738 - 69.98213444295476) = 10.00893277852262.
Proof. repeat split; vm_compute; reflexivity. Qed.

(** ** Focus outline *)

(** C6: for every base colour, the focus entry of the palette that
    [generateButtonPalette] returns has the hover array as its background
    array, so the focus background keeps the hue H of the base colour's
    HSLuv form (H, S, L), and its outline is [toColour] of the array with
    hue [Math.fmod (focus hue + 180) 360], saturation exactly 100, and
    lightness exactly 20 when L > 60 and exactly 90 otherwise.  At
    L = 60.0 the outline lightness is 90 and at L = 60.01 it is 20. *)
Theorem C6_focus_outline (M : Math.api) (Col : Colours.api)
    (baseColour : Colours.colour Col) :
  let primary := HSLuv.fromColour M Col baseColour in
  let p := generateButtonPalette M Col baseColour in
  let focusBg := focusState (hoverState primary) in
  let focusOutline := focusOutlineState M primary focusBg in
  background Col (focus Col p) = HSLuv.toColour M Col focusBg
  /\ outline Col (focus Col p) = Some (HSLuv.toColour M Col focusOutline)
  /\ fst (fst focusBg) = fst (fst primary)
  /\ focusOutline
     = (Math.fmod M (fst (fst focusBg) + 180) 360, 100,
        if snd primary >? 60 then 20 else 90)
  /\ (snd primary = 60.0 ->
      outline Col (focus Col p)
      = Some (HSLuv.toColour M Col (Math.fmod M (fst (fst primary) + 180) 360, 100, 90)))
  /\ (snd primary = 60.01 ->
      outline Col (focus Col p)
      = Some (HSLuv.toColour M Col (Math.fmod M (fst (fst primary) + 180) 360, 100, 20)))
  /\ (forall H S : float,
        focusOutlineState M (H, S, 60.0) (focusState (hoverState (H, S, 60.0)))
        = (Math.fmod M (H + 180) 360, 100, 90)
        /\ focusOutlineState M (H, S, 60.01) (focusState (hoverState (H, S, 60.01)))
           = (Math.fmod M (H + 180) 360, 100, 20)).
Proof.
  intros primary p focusBg focusOutline.
  assert (Hbg : fst (fst focusBg) = fst (fst primary)).
  { unfold focusBg, focusState, hoverState. destruct primary as [[h s] l].
    destruct (l >? 80.0); reflexivity. }
  assert (Hout : focusOutline
                 = (Math.fmod M (fst (fst focusBg) + 180) 360, 100,
                    if snd primary >? 60 then 20 else 90)).
  { unfold focusOutline, focusOutlineState.
    destruct primary as [[h s] l], focusBg as [[f0 f1] f2]. reflexivity. }
  assert (Hp : outline Col (focus Col p) = Some (HSLuv.toColour M Col focusOutline))
    by reflexivity.
  split; [reflexivity|]. split; [exact Hp|]. split; [exact Hbg|]. split; [exact Hout|].
  split; [|split].
  - intros HL. rewrite Hp, Hout, Hbg, HL. reflexivity.
  - intros HL. rewrite Hp, Hout, Hbg, HL. reflexivity.
  - intros H S. split; reflexivity.
Qed.

(** ** High-contrast text *)

(** C7: [chooseHighContrastBW] returns pure black when the relative
    luminance of its input exceeds 0.5 and pure white otherwise, never a
    third value, and two inputs of equal luminance get the same answer. *)
Theorem C7_black_or_white (M : Math.api) (hsluv : vec3) :
  chooseHighContrastBW M hsluv
    = (if getLuminance M hsluv >? 0.5 then pureBlack else pureWhite)
  /\ (chooseHighContrastBW M hsluv = pureBlack \/ chooseHighContrastBW M hsluv = pureWhite)
  /\ (forall hsluv' : vec3,
        getLuminance M hsluv' = getLuminance M hsluv ->
        chooseHighContrastBW M hsluv' = chooseHighContrastBW M hsluv).
Proof.
  unfold chooseHighContrastBW, pureBlack, pureWhite.
  split; [reflexivity|]. split.
  - destruct (getLuminance M hsluv >? 0.5); [left|right]; reflexivity.
  - intros hsluv' ->. reflexivity.
Qed.

(** ** Interaction state *)

(** C8: [resolveButtonState] returns the state of the first set flag in the
    order disabled, forceFocus, clicked, hover, focus (forceFocus and focus
    both giving the focus state), and it returns normal exactly when no flag
    is set. *)
Theorem C8_priority_order (flags : StateFlags) :
  resolveButtonState flags = firstSet priorityOrder flags
  /\ (resolveButtonState flags = "normal"%string
      <-> flag_disabled flags = false /\ flag_forceFocus flags = false
          /\ flag_clicked flags = false /\ flag_hover flags = false
          /\ flag_focus flags = false).
Proof.
  destruct flags as [d c h f ff]. unfold resolveButtonState. simpl.
  split; [reflexivity|].
  destruct d, c, h, f, ff; simpl; split; intros H;
    try discriminate; try (repeat split; reflexivity); try reflexivity;
    try (destruct H as (? & ? & ? & ? & ?); discriminate).
Qed.

(** ** Public outputs are sanitised and clamped *)

Lemma hsluvToRgb_channels (M : Math.api) (HSL : vec3) :
  let '(r, g, b) := HSLuv.hsluvToRgb M HSL in
  inRange 0 1 r /\ inRange 0 1 g /\ inRange 0 1 b.
Proof.
  unfold HSLuv.hsluvToRgb.
  destruct (HSLuv.luvToXyz M (HSLuv.lchToLuv M (HSLuv.hsluvToLch M HSL))) as [[x y] z].
  unfold HSLuv.xyzToRgb, inRange.
  repeat split; apply clamp01_bounds, sanitize_not_nan.
Qed.


Lemma fromColourVec4_ranges (M : Math.api) (v : vec4) :
  let '(h, s, l) := HSLuv.fromColourVec4 M v in
  inRange 0 360 h /\ inRange 0 100 s /\ inRange 0 100 l.
Proof.
  unfold HSLuv.fromColourVec4. destruct (HSLuv.fromVec4 M v) as [[h0 h1] h2].
  rewrite !zeroNonFinite_sanitize. unfold inRange.
  repeat split; apply range_bounds; try apply sanitize_not_nan; reflexivity.
Qed.

(** ** Achromatic colours *)

Lemma lchToHsluv_zero_chroma (M : Math.api) (L H : float) :
  HSLuv.lchToHsluv M (L, 0, H) = (H, 0, L).
Proof.
  unfold HSLuv.lchToHsluv.
  destruct ((L <? HSLuv.EPS) || (L >? 99.99999)); [reflexivity|].
  destruct (HSLuv.maxChromaForLH M L H <=? HSLuv.EPS) eqn:HE; [reflexivity|].
  rewrite (zero_div_pos _ (maxChromaForLH_nonneg M L H) HE). reflexivity.
Qed.

(** C9, at an input: the gray with every channel 10/255 (0xFF0A0A0A) has
    lightness about 2.7, away from both extremes, and its Luv coordinates
    are not 0: u is
    negative and v is positive.  [myAtan2] therefore takes its second
    branch, atan(v/u) + PI, not its final return of 0, the chroma is not 0,
    and the hue [rgbToHsluv] returns is the host's toDegrees of that angle
    whenever that is a positive finite number. *)
Lemma C9_gray_has_nonzero_uv :
  let gray : vec3 := (0.0392156862745098, 0.0392156862745098, 0.0392156862745098) in
  (forall M : Math.api,
      HSLuv.xyzToLuv M (HSLuv.rgbToXyz M gray)
      = (2.7417482745390327, -5.5041617617142811e-07, 3.6630556535196533e-07))
  /\ atExtreme 2.7417482745390327 = false
  /\ (-5.5041617617142811e-07 <? 0) = true
  /\ (3.6630556535196533e-07 >? 0) = true
  /\ (forall M : Math.api,
        HSLuv.myAtan2 M 3.6630556535196533e-07 (-5.5041617617142811e-07)
        = Math.atan M (-0.66550654070508064) + HSLuv.PI)
  /\ (forall M : Math.api,
        snd (fst (HSLuv.luvToLch M (2.7417482745390327, -5.5041617617142811e-07,
                                    3.6630556535196533e-07)))
        = 6.6116392384869241e-07)
  /\ (forall (M : Math.api) (d : float),
        Math.toDegrees M (Math.atan M (-0.66550654070508064) + HSLuv.PI) = d ->
        (d >? 0) = true -> is_infinity d = false ->
        fst (fst (HSLuv.rgbToHsluv M gray)) = d).
Proof.
  intros gray.
  assert (Hluv : forall M : Math.api,
             HSLuv.xyzToLuv M (HSLuv.rgbToXyz M gray)
             = (2.7417482745390327, -5.5041617617142811e-07, 3.6630556535196533e-07))
    by (intros M; vm_compute; reflexivity).
  assert (Hatan : forall M : Math.api,
             HSLuv.myAtan2 M 3.6630556535196533e-07 (-5.5041617617142811e-07)
             = Math.atan M (-0.66550654070508064) + HSLuv.PI)
    by (intros M; vm_compute; reflexivity).
  split; [exact Hluv|]. split; [reflexivity|]. split; [reflexivity|].
  split; [reflexivity|]. split; [exact Hatan|].
  split; [intros M; vm_compute; reflexivity|].
  intros M d Hd Hpos Hinf.
  unfold HSLuv.rgbToHsluv. rewrite Hluv.
  assert (Hlch : HSLuv.luvToLch M (2.7417482745390327, -5.5041617617142811e-07,
                                   3.6630556535196533e-07)
                 = (2.7417482745390327, 6.6116392384869241e-07, d)).
  { unfold HSLuv.luvToLch.
    replace (HSLuv.myAtan2 M (HSLuv.sanitize 3.6630556535196533e-07)
                              (HSLuv.sanitize (-5.5041617617142811e-07)))
      with (Math.atan M (-0.66550654070508064) + HSLuv.PI) by (vm_compute; reflexivity).
    rewrite Hd, (ltb_asym _ _ Hpos).
    rewrite (sanitize_finite d).
    - f_equal.
    - unfold is_finite. rewrite Hinf. destruct (ltb_not_nan _ _ Hpos) as [_ ->]. reflexivity. }
  rewrite Hlch. unfold HSLuv.lchToHsluv.
  destruct ((2.7417482745390327 <? HSLuv.EPS) || (2.7417482745390327 >? 99.99999));
    [reflexivity|].
  destruct (HSLuv.maxChromaForLH M 2.7417482745390327 d <=? HSLuv.EPS); reflexivity.
Qed.

(** C9 (amended): for every Luv triple whose u and v are both exactly 0,
    [myAtan2] falls through all its quadrant branches to its final return
    of 0; on a host whose toDegrees maps 0 to 0, [luvToLch] returns chroma
    exactly 0 and hue exactly 0, and [lchToHsluv] then returns hue exactly 0
    and saturation exactly 0, at every lightness.  (An achromatic
    DeviceColor does not in general have u = v = 0.) *)
Theorem C9_zero_uv_gives_zero_hue_and_saturation (M : Math.api) (L : float)
  (Hdeg : Math.toDegrees M 0 = 0) :
  HSLuv.myAtan2 M 0 0 = 0
  /\ HSLuv.luvToLch M (L, 0, 0) = (HSLuv.sanitize L, 0, 0)
  /\ HSLuv.lchToHsluv M (HSLuv.luvToLch M (L, 0, 0)) = (0, 0, HSLuv.sanitize L).
Proof.
  assert (Hlch : HSLuv.luvToLch M (L, 0, 0) = (HSLuv.sanitize L, 0, 0)).
  { unfold HSLuv.luvToLch.
    replace (HSLuv.myAtan2 M (HSLuv.sanitize 0) (HSLuv.sanitize 0)) with 0
      by (vm_compute; reflexivity).
    rewrite Hdeg. reflexivity. }
  split; [vm_compute; reflexivity|]. split; [exact Hlch|].
  rewrite Hlch. apply lchToHsluv_zero_chroma.
Qed.

Lemma C9_zero_uv_witness :
  Math.toDegrees tableHost 0 = 0
  /\ HSLuv.lchToHsluv tableHost (HSLuv.luvToLch tableHost (50, 0, 0)) = (0, 0, 50).
Proof.
  split; [reflexivity|].
  exact (proj2 (proj2 (C9_zero_uv_gives_zero_hue_and_saturation tableHost 50 eq_refl))).
Defined.

(** ** Lightness of every palette entry *)

Lemma inRange_widen (lo hi v : float) :
  (0 <=? lo) = true -> (hi <=? 100) = true -> inRange lo hi v -> inRange 0 100 v.
Proof.
  intros A B [C D]. split; eapply leb_trans; eassumption.
Qed.

Lemma focusState_lightness (hover : vec3) : snd (focusState hover) = snd hover.
Proof. destruct hover as [[h0 h1] h2]. reflexivity. Qed.

Lemma focusOutlineState_lightness (M : Math.api) (primary focus : vec3) :
  snd (focusOutlineState M primary focus) = 20
  \/ snd (focusOutlineState M primary focus) = 90.
Proof.
  destruct primary as [[p0 p1] p2], focus as [[f0 f1] f2].
  unfold focusOutlineState. cbn [snd].
  destruct (p2 >? 60.0); [left|right]; reflexivity.
Qed.

(** The arrays [generateButtonPalette] derives from a packed colour stay
    inside [[0, 100]]: [fromColour] has clamped the base lightness. *)
Lemma generateButtonPalette_lightness
  (M : Math.api) (Col : Colours.api) (baseColour : Colours.colour Col) :
  let primary := HSLuv.fromColour M Col baseColour in
  let hover := hoverState primary in
  let focus := focusState hover in
  Forall (inRange 0 100)
    [snd hover; snd (clickedState primary); snd (disabledState primary); snd focus;
     snd (focusOutlineState M primary focus)].
Proof.
  intros primary hover focus.
  pose proof (fromColourVec4_ranges M (Colours.toVec4 Col baseColour)) as R.
  change (HSLuv.fromColourVec4 M (Colours.toVec4 Col baseColour)) with primary in R.
  subst hover focus. destruct primary as [[h s] l]. destruct R as (_ & _ & [R0 R100]).
  repeat apply Forall_cons; try apply Forall_nil.
  - apply (inRange_widen 10 90); [reflexivity|reflexivity|].
    apply hoverState_lightness; assumption.
  - apply (inRange_widen 5 85); [reflexivity|reflexivity|].
    apply clickedState_lightness; assumption.
  - apply (inRange_widen 25 95); [reflexivity|reflexivity|].
    apply disabledState_lightness; assumption.
  - rewrite focusState_lightness.
    apply (inRange_widen 10 90); [reflexivity|reflexivity|].
    apply hoverState_lightness; assumption.
  - destruct (focusOutlineState_lightness M (h, s, l) (focusState (hoverState (h, s, l))))
      as [-> | ->]; split; reflexivity.
Qed.

(** C10: for every base colour, the lightness L that [fromColour] gives it
    lies in [[0, 100]], and the palette that [generateButtonPalette]
    returns is made of [toColour] of five HSLuv arrays whose lightness
    stays inside [[0, 100]] with no further clamp: the hover and the focus
    backgrounds have lightness in [[10, 90]], the clicked background in
    [[5, 85]], the disabled background in [[25, 95]], and the focus
    outline exactly 20 or exactly 90. *)
Theorem C10_palette_lightness (M : Math.api) (Col : Colours.api)
    (baseColour : Colours.colour Col) :
  let primary := HSLuv.fromColour M Col baseColour in
  let p := generateButtonPalette M Col baseColour in
  let hoverA := hoverState primary in
  let clickedA := clickedState primary in
  let disabledA := disabledState primary in
  let focusA := focusState hoverA in
  let focusOutlineA := focusOutlineState M primary focusA in
  inRange 0 100 (snd primary)
  /\ (background Col (normal Col p) = baseColour
      /\ background Col (hover Col p) = HSLuv.toColour M Col hoverA
      /\ background Col (clicked Col p) = HSLuv.toColour M Col clickedA
      /\ background Col (disabled Col p) = HSLuv.toColour M Col disabledA
      /\ background Col (focus Col p) = HSLuv.toColour M Col focusA
      /\ outline Col (focus Col p) = Some (HSLuv.toColour M Col focusOutlineA))
  /\ inRange 10 90 (snd hoverA)
  /\ inRange 10 90 (snd focusA)
  /\ inRange 5 85 (snd clickedA)
  /\ inRange 25 95 (snd disabledA)
  /\ (snd focusOutlineA = 20 \/ snd focusOutlineA = 90)
  /\ Forall (inRange 0 100)
       [snd hoverA; snd clickedA; snd disabledA; snd focusA; snd focusOutlineA].
Proof.
  intros primary p hoverA clickedA disabledA focusA focusOutlineA.
  assert (Hp : background Col (normal Col p) = baseColour
               /\ background Col (hover Col p) = HSLuv.toColour M Col hoverA
               /\ background Col (clicked Col p) = HSLuv.toColour M Col clickedA
               /\ background Col (disabled Col p) = HSLuv.toColour M Col disabledA
               /\ background Col (focus Col p) = HSLuv.toColour M Col focusA
               /\ outline Col (focus Col p) = Some (HSLuv.toColour M Col focusOutlineA))
    by (repeat split; reflexivity).
  pose proof (generateButtonPalette_lightness M Col baseColour) as F.
  cbv zeta in F.
  change (Forall (inRange 0 100)
            [snd hoverA; snd clickedA; snd disabledA; snd focusA; snd focusOutlineA]) in F.
  pose proof (fromColourVec4_ranges M (Colours.toVec4 Col baseColour)) as R.
  change (HSLuv.fromColourVec4 M (Colours.toVec4 Col baseColour)) with primary in R.
  clearbody p. subst hoverA clickedA disabledA focusA focusOutlineA.
  destruct primary as [[h s] l]. destruct R as (_ & _ & [R0 R100]).
  pose proof (hoverState_lightness h s l R0 R100) as Hh.
  pose proof (clickedState_lightness h s l R0 R100) as Hc.
  pose proof (disabledState_lightness h s l R0 R100) as Hd.
  pose proof (focusState_lightness (hoverState (h, s, l))) as Hf.
  pose proof (focusOutlineState_lightness M (h, s, l) (focusState (hoverState (h, s, l))))
    as Ho.
  split; [split; assumption|]. split; [exact Hp|].
  split; [exact Hh|]. split; [rewrite Hf; exact Hh|]. split; [exact Hc|].
  split; [exact Hd|]. split; [exact Ho|].
  exact F.
Qed.

(** ** Round trip of pure yellow *)

(** C1, at the failing input: the DeviceColor (1, 1, 0), pure yellow.  On
    every host whose pow, atan, sin, cos and degree conversions return, at
    the ten arguments this round trip evaluates, the values of an accurate
    numeric library,
    [rgbToHsluv] gives H = 85.87, S = 100 (the raw saturation 100.0589 is
    clamped) and L = 97.14, and [hsluvToRgb] of that gives back
    (0.999984, 0.999984, 0.005979): the blue channel differs from the
    original 0 by more than 1e-3. *)
Theorem C1_yellow_round_trip_off (M : Math.api)
  (Hpow1 : Math.pow M 1 2.4 = 1)
  (Hpow2 : Math.pow M 0.9278251 0.3333333333333333 = 0.9753385105543646)
  (Hatan : Math.atan M 13.85829025543904 = 1.4987622053587644)
  (Hdeg : Math.toDegrees M 1.4987622053587644 = 85.87274886077677)
  (Hrad : Math.toRadians M 85.87274886077677 = 1.4987622053587644)
  (Hpow3 : Math.pow M 0.9753385105543646 3 = 0.9278250999999998)
  (Hsin : Math.sin M 1.4987622053587644 = 0.9974066643485733)
  (Hcos : Math.cos M 1.4987622053587644 = 0.07197184111200981)
  (Hpow4 : Math.pow M 0.9999638554323577 0.4166666666666667 = 0.9999849396047118)
  (Hpow5 : Math.pow M 0.9999641690765546 0.4166666666666667 = 0.9999850702925375) :
  HSLuv.rgbToHsluv M (1, 1, 0) = (85.87274886077677, 100, 97.1392672243063)
  /\ HSLuv.hsluvToRgb M (HSLuv.rgbToHsluv M (1, 1, 0))
     = (0.9999841112829709, 0.9999842491586269, 0.0059785646556969295)
  /\ (Math.abs (0.0059785646556969295 - 0) >? 1e-3) = true.
Proof.
  destruct M as [pow sin cos atan fmod toRadians toDegrees].
  cbn [Math.pow Math.sin Math.cos Math.atan Math.toRadians Math.toDegrees] in *.
  set (M := {| Math.pow := pow; Math.sin := sin; Math.cos := cos; Math.atan := atan;
               Math.fmod := fmod; Math.toRadians := toRadians;
               Math.toDegrees := toDegrees |}).
  assert (S1 : HSLuv.rgbToXyz M (1, 1, 0)
               = (0.77003250000000001, 0.92782509999999996, 0.13852590000000001))
    by (subst M; host_values Hpow1 Hpow2 Hatan Hdeg Hrad Hpow3 Hsin Hcos Hpow4 Hpow5).
  assert (S2 : HSLuv.xyzToLuv M (0.77003250000000001, 0.92782509999999996, 0.13852590000000001)
               = (97.139267224306295, 7.7056136705752998, 106.78663084311154))
    by (subst M; host_values Hpow1 Hpow2 Hatan Hdeg Hrad Hpow3 Hsin Hcos Hpow4 Hpow5).
  assert (S3 : HSLuv.luvToLch M (97.139267224306295, 7.7056136705752998, 106.78663084311154)
               = (97.139267224306295, 107.06428446901954, 85.872748860776767))
    by (subst M; host_values Hpow1 Hpow2 Hatan Hdeg Hrad Hpow3 Hsin Hcos Hpow4 Hpow5).
  assert (S4 : HSLuv.maxChromaForLH M 97.139267224306295 85.872748860776767
               = 107.00124524551585)
    by (subst M; host_values Hpow1 Hpow2 Hatan Hdeg Hrad Hpow3 Hsin Hcos Hpow4 Hpow5).
  assert (S5 : HSLuv.lchToHsluv M (97.139267224306295, 107.06428446901954, 85.872748860776767)
               = (85.87274886077677, 100, 97.1392672243063)).
  { unfold HSLuv.lchToHsluv. rewrite S4. vm_compute. reflexivity. }
  assert (S6 : HSLuv.hsluvToLch M (85.87274886077677, 100, 97.1392672243063)
               = (97.139267224306295, 107.00124524551585, 85.872748860776767)).
  { unfold HSLuv.hsluvToLch.
    change (HSLuv.sanitize 85.87274886077677) with 85.872748860776767.
    change (HSLuv.sanitize 97.1392672243063) with 97.139267224306295.
    cbv zeta. rewrite S4. vm_compute. reflexivity. }
  assert (S7 : HSLuv.lchToLuv M (97.139267224306295, 107.00124524551585, 85.872748860776767)
               = (97.139267224306295, 7.701076621597462, 106.7237551014736))
    by (subst M; host_values Hpow1 Hpow2 Hatan Hdeg Hrad Hpow3 Hsin Hcos Hpow4 Hpow5).
  assert (S8 : HSLuv.luvToXyz M (97.139267224306295, 7.701076621597462, 106.7237551014736)
               = (0.77008828334268187, 0.92782509999999985, 0.13896070381900952))
    by (subst M; host_values Hpow1 Hpow2 Hatan Hdeg Hrad Hpow3 Hsin Hcos Hpow4 Hpow5).
  assert (S9 : HSLuv.xyzToRgb M (0.77008828334268187, 0.92782509999999985, 0.13896070381900952)
               = (0.9999841112829709, 0.9999842491586269, 0.0059785646556969295))
    by (subst M; host_values Hpow1 Hpow2 Hatan Hdeg Hrad Hpow3 Hsin Hcos Hpow4 Hpow5).
  assert (B : HSLuv.rgbToHsluv M (1, 1, 0) = (85.87274886077677, 100, 97.1392672243063)).
  { unfold HSLuv.rgbToHsluv. rewrite S1, S2, S3. exact S5. }
  split; [exact B|]. split; [|reflexivity].
  rewrite B. unfold HSLuv.hsluvToRgb. rewrite S6, S7, S8. exact S9.
Qed.

Lemma C1_yellow_round_trip_off_witness :
  HSLuv.hsluvToRgb tableHost (HSLuv.rgbToHsluv tableHost (1, 1, 0))
  = (0.9999841112829709, 0.9999842491586269, 0.0059785646556969295).
Proof.
  exact (proj1 (proj2 (C1_yellow_round_trip_off tableHost
           eq_refl eq_refl eq_refl eq_refl eq_refl eq_refl eq_refl eq_refl eq_refl eq_refl))).
Defined.

(** * Further facts about binary64 numbers *)

(** ** Order *)

Lemma leb_not_ltb (x y : float) : (x <=? y) = true -> (y <? x) = false.
Proof.
  rewrite leb_spec, ltb_spec. unfold SFleb, SFltb.
  destruct (SFcompare (Prim2SF x) (Prim2SF y)) as [c|] eqn:Hc; [|discriminate].
  rewrite (SFcompare_antisym _ _ _ Hc). destruct c; simpl; congruence.
Qed.

Lemma range_id (v lo hi : float) :
  (lo <=? v) = true -> (v <=? hi) = true -> Math.range v lo hi = v.
Proof.
  intros Hlo Hhi. unfold Math.range.
  rewrite (leb_not_ltb _ _ Hlo), (leb_not_ltb _ _ Hhi). reflexivity.
Qed.

(** ** Zeros *)

Lemma isZero_spec (x : float) :
  isZero x <-> exists s, Prim2SF x = S754_zero s.
Proof.
  split.
  - intros [->| ->]; eexists; reflexivity.
  - intros [s Hs]. rewrite <- (SF2Prim_Prim2SF x), Hs.
    destruct s; [right|left]; reflexivity.
Qed.

Lemma isZero_finite (x : float) : isZero x -> is_finite x = true.
Proof. intros [->| ->]; reflexivity. Qed.

Lemma isZero_sanitize (x : float) : isZero x -> HSLuv.sanitize x = x.
Proof. intros [->| ->]; reflexivity. Qed.

(** A number that is at most 0 and not below 0 is a zero. *)
Lemma leb_0_zero (x : float) :
  (x <=? 0) = true -> (x <? 0) = false -> isZero x.
Proof.
  rewrite leb_spec, ltb_spec, isZero_spec. unfold SFleb, SFltb.
  change (Prim2SF 0) with (S754_zero false).
  destruct (Prim2SF x) as [s|s| |s m e]; try destruct s; simpl; try discriminate; eauto.
Qed.

Lemma is_infinity_spec (x : float) :
  is_infinity x = true <-> exists s, Prim2SF x = S754_infinity s.
Proof.
  unfold is_infinity. rewrite eqb_spec, abs_spec.
  change (Prim2SF infinity) with (S754_infinity false).
  destruct (Prim2SF x) as [s|s| |s m e]; simpl; split; intros H;
    try discriminate; try (destruct H; discriminate); eauto.
Qed.

Lemma is_finite_spec (x : float) :
  is_finite x = true <->
  (exists s, Prim2SF x = S754_zero s) \/ (exists s m e, Prim2SF x = S754_finite s m e).
Proof.
  unfold is_finite.
  pose proof (is_nan_spec x) as Hn. pose proof (is_infinity_spec x) as Hi.
  destruct (Prim2SF x) as [s|s| |s m e] eqn:Hx.
  - destruct (is_nan x); [destruct Hn as [Hn _]; discriminate (Hn eq_refl)|].
    destruct (is_infinity x);
      [destruct Hi as [Hi _]; destruct (Hi eq_refl); discriminate|].
    split; eauto.
  - destruct (is_nan x); [destruct Hn as [Hn _]; discriminate (Hn eq_refl)|].
    destruct (is_infinity x).
    + split; [discriminate|]. intros [[s' H]|(s' & m & e & H)]; discriminate.
    + destruct Hi as [_ Hi]. discriminate Hi. eauto.
  - destruct (is_nan x).
    + split; [discriminate|]. intros [[s' H]|(s' & m & e & H)]; discriminate.
    + destruct Hn as [_ Hn]. discriminate Hn. reflexivity.
  - destruct (is_nan x); [destruct Hn as [Hn _]; discriminate (Hn eq_refl)|].
    destruct (is_infinity x);
      [destruct Hi as [Hi _]; destruct (Hi eq_refl); discriminate|].
    split; eauto 6.
Qed.

(** A product with a zero is a zero once sanitised. *)
Lemma zero_mul_sanitize (c y : float) :
  isZero c -> isZero (HSLuv.sanitize (c * y)).
Proof.
  intros Hc. apply isZero_spec in Hc. destruct Hc as [s Hs].
  assert (Hp : Prim2SF (c * y) = S754_nan \/ exists s', Prim2SF (c * y) = S754_zero s').
  { rewrite mul_spec, Hs. destruct (Prim2SF y) as [sy|sy| |sy m e]; simpl; eauto. }
  unfold HSLuv.sanitize, Math.isnan, Math.isinf.
  destruct Hp as [Hp|[s' Hp]].
  - apply is_nan_spec in Hp. rewrite Hp. left. reflexivity.
  - assert (Hz : isZero (c * y)) by (apply isZero_spec; eauto).
    destruct Hz as [-> | ->]; [left|right]; reflexivity.
Qed.

(** A zero divided by a positive number is a zero. *)
Lemma zero_div_positive (z d : float) :
  isZero z -> (0 <? d) = true -> isZero (z / d).
Proof.
  intros Hz Hd. apply isZero_spec in Hz. destruct Hz as [s Hs].
  apply isZero_spec. rewrite div_spec, Hs.
  rewrite ltb_spec in Hd. change (Prim2SF 0) with (S754_zero false) in Hd.
  destruct (Prim2SF d) as [sd|sd| |sd m e]; try destruct sd; try discriminate;
    simpl; eauto.
Qed.

(** A positive finite number times a zero is a zero. *)
Lemma finite_mul_zero (x z : float) :
  is_finite x = true -> isZero z -> isZero (x * z).
Proof.
  intros Hx Hz. apply isZero_spec in Hz. destruct Hz as [s Hs].
  apply isZero_spec. rewrite mul_spec, Hs.
  apply is_finite_spec in Hx. destruct Hx as [[sx Hx]|(sx & m & e & Hx)]; rewrite Hx;
    simpl; eauto.
Qed.

(** ** Signs *)

Lemma leb_0_spec (x : float) : (0 <=? x) = true <-> nonnegSF (Prim2SF x).
Proof.
  rewrite leb_spec. unfold SFleb. change (Prim2SF 0) with (S754_zero false).
  destruct (Prim2SF x) as [s|s| |s m e]; try destruct s; simpl; split; intros H;
    try discriminate; try contradiction; try exact I; reflexivity.
Qed.

(** Rounding a mantissa with the positive sign never gives a negative number. *)
Lemma binary_round_aux_sign (m e : Z) (l : location) :
  let r := binary_round_aux prec emax false m e l in
  r = S754_nan \/ nonnegSF r.
Proof.
  unfold binary_round_aux.
  destruct (shr_fexp prec emax m e l) as [mrs' e'].
  destruct (shr_fexp prec emax _ e' loc_Exact) as [mrs'' e''].
  destruct (shr_m mrs'') as [|p|p]; simpl; auto.
  destruct (_ <=? _)%Z; simpl; auto.
Qed.

Lemma sqrt_sign (x : float) :
  is_nan (sqrt x) = true \/ (0 <=? sqrt x) = true.
Proof.
  rewrite is_nan_spec, leb_0_spec, sqrt_spec. unfold SF64sqrt, SFsqrt.
  destruct (Prim2SF x) as [s|s| |s m e]; try destruct s;
    cbn -[SFsqrt_core_binary binary_round_aux]; auto.
  destruct (SFsqrt_core_binary _ _ _ _) as [[mz ez] lz].
  apply binary_round_aux_sign.
Qed.

(** Sanitising a number that is NaN or not negative gives a finite number
    that is not negative. *)
Lemma sanitize_sign (x : float) :
  is_nan x = true \/ (0 <=? x) = true ->
  (0 <=? HSLuv.sanitize x) = true /\ is_finite (HSLuv.sanitize x) = true.
Proof.
  intros H. split.
  - unfold HSLuv.sanitize, Math.isnan, Math.isinf.
    destruct (is_nan x) eqn:Hn; [reflexivity|].
    destruct (is_infinity x); [reflexivity|].
    destruct H as [H|H]; [discriminate|exact H].
  - unfold is_finite. rewrite sanitize_not_nan, sanitize_not_inf. reflexivity.
Qed.

(** A number between two finite numbers is finite. *)
Lemma between_finite (a v b : float) :
  is_finite a = true -> is_finite b = true ->
  (a <=? v) = true -> (v <=? b) = true -> is_finite v = true.
Proof.
  intros Ha Hb Hav Hvb.
  apply is_finite_spec in Ha, Hb. rewrite leb_spec in Hav, Hvb.
  apply is_finite_spec. unfold SFleb in *.
  destruct (Prim2SF v) as [s|s| |s m e]; eauto 6; exfalso.
  - destruct s.
    + destruct Ha as [[sa Ha]|(sa & ma & ea & Ha)]; rewrite Ha in Hav;
        try destruct sa; simpl in Hav; discriminate.
    + destruct Hb as [[sb Hb]|(sb & mb & eb & Hb)]; rewrite Hb in Hvb;
        try destruct sb; simpl in Hvb; discriminate.
  - destruct (Prim2SF a); simpl in Hav; discriminate.
Qed.

Section MoreRounding.

#[local] Open Scope Z_scope.

(** * More bounds on sums, differences and products *)

(** A finite number that is not negative has a value. *)
Lemma valOf_nonneg_finite (x : float) :
  PrimFloat.leb 0 x = true -> is_finite x = true -> exists v, valOf x = Some v /\ 0 <= v.
Proof.
  intros H0 Hf. apply leb_0_spec in H0. apply is_finite_spec in Hf.
  pose proof (Prim2SF_valid x) as V. unfold valOf.
  destruct (Prim2SF x) as [s|s| |s m e] eqn:Hx; try destruct s; try contradiction.
  - exists 0. split; [reflexivity|lia].
  - exists 0. split; [reflexivity|lia].
  - destruct Hf as [[s' Hf]|(s' & m' & e' & Hf)]; discriminate.
  - exists (Fval m e). split; [reflexivity|].
    apply Z.lt_le_incl, Fval_pos, (valid_bias _ _ V).
Qed.

(** A number with a value is finite and not negative. *)
Lemma valOf_finite (x : float) (v : Z) :
  valOf x = Some v -> is_finite x = true /\ PrimFloat.leb 0 x = true.
Proof.
  unfold valOf. intros H. rewrite leb_0_spec, is_finite_spec.
  destruct (Prim2SF x) as [s|s| |s m e]; try destruct s; try discriminate;
    split; simpl; eauto 6.
Qed.

Lemma valOf_zero (x : float) : valOf x = Some 0 -> isZero x.
Proof.
  unfold valOf. intros H. apply isZero_spec. pose proof (Prim2SF_valid x) as V.
  destruct (Prim2SF x) as [s|s| |s m e]; try destruct s; try discriminate; eauto.
  simpl in H. inversion H as [H0]. pose proof (Fval_pos m e (valid_bias _ _ V)). lia.
Qed.

(** A rounded positive mantissa is zero, a positive number or plus infinity. *)
Lemma binary_round_shape (m : positive) (e : Z) :
  let r := binary_round prec emax false m e in
  r = S754_zero false \/ (exists m' e', r = S754_finite false m' e')
  \/ r = S754_infinity false.
Proof.
  unfold binary_round. change (fexp prec emax) with fexp64.
  set (f := fexp64 (Zpos (digits2_pos m) + e)).
  pose proof (shl_align_spec m e f) as [Hs _].
  pose proof (digits2_pos_shl_align m e f) as Hd.
  destruct (shl_align m e f) as [mz ez]. cbn [fst snd] in *.
  apply round_aux_shape. rewrite Hd. fold f. lia.
Qed.

(** [x * c] for positive [x] and [c] is above every positive number below
    the exact product. *)
Lemma mul_lower (x c a : float) (vx vc va : Z) :
  valOf x = Some vx -> 0 < vx -> valOf c = Some vc -> 0 < vc ->
  valOf a = Some va -> 0 < va ->
  va * 2 ^ bias <= vx * vc ->
  PrimFloat.leb a (x * c) = true.
Proof.
  unfold valOf. intros Hx Px Hc Pc Ha Pa Hlo.
  rewrite leb_spec, mul_spec.
  pose proof (Prim2SF_valid x) as Vx. pose proof (Prim2SF_valid c) as Vc.
  pose proof (Prim2SF_valid a) as Va.
  destruct (nnval_pos_finite _ _ Hx Px) as (mx & ex & Ex & ->).
  destruct (nnval_pos_finite _ _ Hc Pc) as (mc & ec & Ec & ->).
  destruct (nnval_pos_finite _ _ Ha Pa) as (ma & ea & Ea & ->).
  rewrite Ex, Ec, Ea in *. cbn [valid_binary] in Vx, Vc, Va.
  destruct (SFmul_pos mx mc ex ec Vx Vc) as (Em & Hn & Hbias & Ev).
  rewrite Em.
  apply round_aux_lower; try assumption.
  assert (P : 0 < 2 ^ bias) by (apply Z.pow_pos_nonneg; unfold bias; lia).
  apply Z.mul_le_mono_pos_r with (p := 2 ^ bias); [exact P|]. lia.
Qed.

(** [x - c] for non-negative [c <= x] is a non-negative finite number below
    every positive number above the exact difference. *)
Lemma sub_upper (x c b : float) (vx vc vb : Z) :
  valOf x = Some vx -> valOf c = Some vc -> vc <= vx ->
  valOf b = Some vb -> 0 < vb -> vx - vc <= vb ->
  exists vh, valOf (x - c) = Some vh /\ 0 <= vh <= vb.
Proof.
  unfold valOf. intros Hx Hc Hcx Hb Pb Hhi.
  pose proof (Prim2SF_valid (x - c)) as Vr. rewrite sub_spec in Vr |- *.
  pose proof (Prim2SF_valid x) as Vx. pose proof (Prim2SF_valid c) as Vc.
  pose proof (Prim2SF_valid b) as Vb.
  pose proof (nnval_nonneg _ _ Vx Hx) as Px.
  pose proof (nnval_nonneg _ _ Vc Hc) as Pc.
  destruct (nnval_pos_finite _ _ Hb Pb) as (mb & eb & Eb & ->).
  rewrite Eb in *. cbn [valid_binary] in Vb.
  pose proof (Fval_pos mb eb (valid_bias _ _ Vb)) as Pvb.
  destruct (Prim2SF c) as [sc|sc| |[] mc ec] eqn:Ec; simpl in Hc; inversion Hc; subst; clear Hc.
  - (* c is a zero *)
    destruct (Prim2SF x) as [sx|sx| |[] mx ex] eqn:Ex; simpl in Hx; inversion Hx; subst; clear Hx.
    + exists 0. split; [destruct sx, sc; reflexivity|lia].
    + exists (Fval mx ex). split; [reflexivity|lia].
  - (* c is positive *)
    cbn [valid_binary] in Vc.
    pose proof (Fval_pos mc ec (valid_bias _ _ Vc)) as Pvc.
    destruct (Prim2SF x) as [sx|sx| |[] mx ex] eqn:Ex; simpl in Hx; inversion Hx; subst; clear Hx;
      [lia|].
    cbn [valid_binary] in Vx.
    destruct (Z.eq_dec (Fval mc ec) (Fval mx ex)) as [Heq|Hne].
    + (* equal numbers *)
      exists 0. split; [|lia].
      unfold SF64sub, SFsub. cbn [cond_Zopp].
      set (ez := Z.min ex ec).
      pose proof (valid_bias _ _ Vx) as Bx. pose proof (valid_bias _ _ Vc) as Bc.
      pose proof (shl_align_spec mx ex ez) as [Sx _].
      pose proof (shl_align_spec mc ec ez) as [Sc _].
      pose proof (Fval_shl_align mx ex ez Bx ltac:(lia)) as Wx.
      pose proof (Fval_shl_align mc ec ez Bc ltac:(lia)) as Wc.
      destruct (shl_align mx ex ez) as [mx' ex'], (shl_align mc ec ez) as [mc' ec'].
      cbn [fst snd] in *.
      assert (E1 : ex' = ez) by lia. assert (E2 : ec' = ez) by lia.
      rewrite E1 in *. rewrite E2 in *.
      assert (P : 0 < 2 ^ (ez + bias)) by (apply Z.pow_pos_nonneg; lia).
      assert (Hm : Zpos mx' = Zpos mc').
      { rewrite <- Wx, <- Wc in Heq. unfold Fval in Heq.
        apply Z.mul_reg_r in Heq; lia. }
      rewrite Hm, Z.sub_diag. reflexivity.
    + assert (Hlt : Fval mc ec < Fval mx ex) by lia.
      destruct (SFsub_pos mx mc ex ec (valid_bias _ _ Vx) (valid_bias _ _ Vc) Hlt)
        as (s & Es & Ev).
      rewrite Es in *.
      assert (Hz : - bias <= Z.min ex ec).
      { pose proof (valid_bias _ _ Vx). pose proof (valid_bias _ _ Vc). lia. }
      assert (Hup : SFleb (binary_round prec emax false s (Z.min ex ec))
                          (S754_finite false mb eb) = true).
      { apply binary_round_upper; try assumption. lia. }
      destruct (binary_round_shape s (Z.min ex ec)) as [R|[(m' & e' & R)|R]];
        rewrite R in *.
      * exists 0. split; [reflexivity|lia].
      * exists (Fval m' e'). split; [reflexivity|]. cbn [valid_binary] in Vr. split.
        -- apply Z.lt_le_incl, Fval_pos, (valid_bias _ _ Vr).
        -- apply SFleb_Fval; assumption.
      * discriminate.
Qed.

(** A positive finite number times a number that is at least 1 is positive. *)
Lemma mul_ge_one_pos (c x : float) (vc : Z) :
  valOf c = Some vc -> 2 ^ bias <= vc ->
  PrimFloat.ltb 0 x = true -> is_finite x = true ->
  PrimFloat.ltb 0 (c * x) = true.
Proof.
  intros Hc Pc Hx Hf.
  destruct (valOf_nonneg_finite x (ltb_leb _ _ Hx) Hf) as (vx & Hvx & _).
  assert (H0 : valOf 0%float = Some 0) by reflexivity.
  pose proof (valOf_ltb _ _ _ _ H0 Hvx Hx) as Px.
  assert (P : 0 < 2 ^ bias) by (apply Z.pow_pos_nonneg; unfold bias; lia).
  apply ltb_leb_trans with x; [exact Hx|].
  apply (mul_lower c x x vc vx vx); try assumption; try lia.
  rewrite (Z.mul_comm vc vx). apply Z.mul_le_mono_nonneg_l; lia.
Qed.

Lemma mul13_pos (x : float) :
  PrimFloat.ltb 0 x = true -> is_finite x = true -> PrimFloat.ltb 0 (13 * x)%float = true.
Proof.
  intros Hx Hf.
  apply (mul_ge_one_pos 13%float x (13 * unitVal)); try assumption.
  - vm_compute. reflexivity.
  - pose proof unitVal_pos. unfold unitVal in *. lia.
Qed.

(** ** Differences below zero *)

(** The sign of a rounded mantissa is the sign it is given. *)
Lemma binary_round_aux_opp (s : bool) (m e : Z) (l : location) :
  binary_round_aux prec emax (negb s) m e l = SFopp (binary_round_aux prec emax s m e l).
Proof.
  unfold binary_round_aux.
  destruct (shr_fexp prec emax m e l) as [mrs' e'].
  destruct (shr_fexp prec emax _ e' loc_Exact) as [mrs'' e''].
  destruct (shr_m mrs'') as [|p|p]; simpl; try reflexivity.
  destruct (_ <=? _); reflexivity.
Qed.

Lemma binary_round_opp (m : positive) (e : Z) :
  binary_round prec emax true m e = SFopp (binary_round prec emax false m e).
Proof.
  unfold binary_round. destruct (shl_align m e _) as [mz ez].
  apply (binary_round_aux_opp false).
Qed.

(** Rounding a positive mantissa at a binary64 exponent never gives zero. *)
Lemma binary_round_positive (m : positive) (e : Z) :
  -1074 <= e ->
  (exists m' e', binary_round prec emax false m e = S754_finite false m' e')
  \/ binary_round prec emax false m e = S754_infinity false.
Proof.
  intros He.
  assert (Hb : - bias <= e) by (unfold bias; lia).
  assert (Hle : Fval 1 (-1074) <= Fval m e).
  { unfold Fval.
    apply Z.mul_le_mono_nonneg;
      [lia|lia|apply Z.pow_nonneg; lia|apply Z.pow_le_mono_r; unfold bias; lia]. }
  pose proof (binary_round_lower m 1 e (-1074) Hb eq_refl Hle) as Hlo.
  destruct (binary_round_shape m e) as [R|[(m' & e' & R)|R]]; rewrite R in *;
    [discriminate|left; eauto|right; reflexivity].
Qed.

(** [x - c] is below zero when [x] is below [c]. *)
Lemma sub_neg (x c : float) (vx vc : Z) :
  valOf x = Some vx -> valOf c = Some vc -> vx < vc ->
  PrimFloat.ltb (x - c) 0 = true.
Proof.
  unfold valOf. intros Hx Hc Hlt.
  rewrite ltb_spec, sub_spec. change (Prim2SF 0) with (S754_zero false).
  pose proof (Prim2SF_valid x) as Vx. pose proof (Prim2SF_valid c) as Vc.
  pose proof (nnval_nonneg _ _ Vx Hx) as Px.
  destruct (nnval_pos_finite _ _ Hc ltac:(lia)) as (mc & ec & Ec & ->).
  rewrite Ec in *. cbn [valid_binary] in Vc.
  destruct (Prim2SF x) as [sx|sx| |[] mx ex] eqn:Ex; simpl in Hx; inversion Hx; subst; clear Hx.
  - reflexivity.
  - cbn [valid_binary] in Vx.
    unfold SF64sub, SFsub. cbn [cond_Zopp].
    set (ez := Z.min ex ec).
    pose proof (valid_bias _ _ Vx) as Bx. pose proof (valid_bias _ _ Vc) as Bc.
    pose proof (shl_align_spec mx ex ez) as [Sx _].
    pose proof (shl_align_spec mc ec ez) as [Sc _].
    pose proof (Fval_shl_align mx ex ez Bx ltac:(lia)) as Wx.
    pose proof (Fval_shl_align mc ec ez Bc ltac:(lia)) as Wc.
    destruct (shl_align mx ex ez) as [mx' ex'], (shl_align mc ec ez) as [mc' ec'].
    cbn [fst snd] in *.
    assert (E1 : ex' = ez) by lia. assert (E2 : ec' = ez) by lia.
    rewrite E1 in *. rewrite E2 in *.
    assert (P : 0 < 2 ^ (ez + bias)) by (apply Z.pow_pos_nonneg; lia).
    assert (Hm : Zpos mx' < Zpos mc').
    { rewrite <- Wx, <- Wc in Hlt. unfold Fval in Hlt.
      apply Z.mul_lt_mono_pos_r in Hlt; assumption. }
    replace (Zpos mx' - Zpos mc') with (Zneg (mc' - mx'))
      by (rewrite <- Pos2Z.opp_pos, Pos2Z.inj_sub by lia; lia).
    cbn [binary_normalize]. rewrite binary_round_opp.
    assert (Hez : -1074 <= ez).
    { destruct (bounded_canonical _ _ Vx) as (_ & _ & L1 & _).
      destruct (bounded_canonical _ _ Vc) as (_ & _ & L2 & _). lia. }
    destruct (binary_round_positive (mc' - mx') ez Hez) as [(m' & e' & ->)| ->]; reflexivity.
Qed.

Lemma valOf_1 : valOf 1%float = Some unitVal. Proof. vm_compute. reflexivity. Qed.
Lemma valOf_180 : valOf 180%float = Some (180 * unitVal). Proof. vm_compute. reflexivity. Qed.
Lemma valOf_360 : valOf 360%float = Some (360 * unitVal). Proof. vm_compute. reflexivity. Qed.
Lemma valOf_540 : valOf 540%float = Some (540 * unitVal). Proof. vm_compute. reflexivity. Qed.

(** A number inside [[0, b]] has a value inside the values of 0 and [b]. *)
Lemma inRange_valOf (b v : float) (vb : Z) :
  valOf b = Some vb ->
  PrimFloat.leb 0 v = true -> PrimFloat.leb v b = true ->
  exists vv, valOf v = Some vv /\ 0 <= vv <= vb.
Proof.
  intros Hb H0 H1.
  destruct (valOf_between 0%float v b 0 vb eq_refl Hb H0 H1) as (vv & Hv & B).
  exists vv. split; [exact Hv|lia].
Qed.

(** A value inside the values of 0 and [b] is a number inside [[0, b]]. *)
Lemma valOf_inRange (b v : float) (vb vv : Z) :
  valOf b = Some vb -> valOf v = Some vv -> 0 <= vv <= vb ->
  PrimFloat.leb 0 v = true /\ PrimFloat.leb v b = true.
Proof.
  intros Hb Hv B. split.
  - apply (leb_valOf 0%float v 0 vv); [reflexivity|exact Hv|lia].
  - apply (leb_valOf v b vv vb); [exact Hv|exact Hb|lia].
Qed.

(** ** Operations that cannot give NaN *)

Lemma SFopp_not_nan (f : spec_float) : f <> S754_nan -> SFopp f <> S754_nan.
Proof. destruct f; simpl; congruence. Qed.

Lemma binary_round_not_nan (s : bool) (m : positive) (e : Z) :
  binary_round prec emax s m e <> S754_nan.
Proof.
  assert (H : binary_round prec emax false m e <> S754_nan).
  { destruct (binary_round_shape m e) as [R|[(m' & e' & R)|R]]; rewrite R; discriminate. }
  destruct s; [|exact H].
  rewrite binary_round_opp. apply SFopp_not_nan, H.
Qed.

Lemma opp_is_nan (x : float) : is_nan (- x)%float = is_nan x.
Proof.
  destruct (is_nan x) eqn:Hx.
  - apply is_nan_spec in Hx. apply is_nan_spec. rewrite opp_spec, Hx. reflexivity.
  - apply is_nan_false in Hx. apply is_nan_false. rewrite opp_spec.
    apply SFopp_not_nan, Hx.
Qed.

(** A number times a finite number that is not zero is NaN only when the
    first is. *)
Lemma mul_finite_not_nan (y c : float) (mc : positive) (ec : Z) (sc : bool) :
  Prim2SF c = S754_finite sc mc ec ->
  is_nan y = false -> is_nan (y * c)%float = false.
Proof.
  intros Hc Hy. apply is_nan_false in Hy. apply is_nan_false.
  pose proof (Prim2SF_valid y) as Vy. pose proof (Prim2SF_valid c) as Vc.
  rewrite mul_spec, Hc in *. cbn [valid_binary] in Vc.
  destruct (Prim2SF y) as [sy|sy| |sy my ey]; try congruence; try discriminate.
  cbn [valid_binary] in Vy. unfold SF64mul, SFmul.
  destruct (SFmul_pos my mc ey ec Vy Vc) as (_ & Hn & _ & _).
  assert (H : binary_round_aux prec emax false (Zpos (my * mc)) (ey + ec) loc_Exact
              <> S754_nan).
  { destruct (round_aux_shape (my * mc) (ey + ec) Hn) as [R|[(m' & e' & R)|R]];
      rewrite R; discriminate. }
  destruct (xorb sy sc); [|exact H].
  rewrite (binary_round_aux_opp false). apply SFopp_not_nan, H.
Qed.

(** A finite number plus a number is NaN only when the second is. *)
Lemma add_finite_not_nan (x y : float) :
  is_finite x = true -> is_nan y = false -> is_nan (x + y)%float = false.
Proof.
  intros Hx Hy. apply is_finite_spec in Hx. apply is_nan_false in Hy. apply is_nan_false.
  rewrite add_spec. unfold SF64add, SFadd.
  destruct Hx as [[sx Hx]|(sx & mx & ex & Hx)]; rewrite Hx;
    destruct (Prim2SF y) as [sy|sy| |sy my ey]; try congruence; try discriminate.
  - destruct sx, sy; discriminate.
  - set (z := cond_Zopp sx _ + cond_Zopp sy _). destruct z as [|p|p]; cbn [binary_normalize].
    + discriminate.
    + apply binary_round_not_nan.
    + apply binary_round_not_nan.
Qed.

(** * Rounding to nearest is monotone *)

(** ** The bits that a right shift drops *)

Lemma shr_1_inv (mrs : shr_record) (M k : Z) :
  0 <= M -> 0 <= k -> shrInv mrs M k -> shrInv (shr_1 mrs) M (k + 1).
Proof.
  intros HM Hk (Em & Er & Es).
  assert (P : 0 < 2 ^ k) by (apply Z.pow_pos_nonneg; lia).
  pose proof (Z.div_mod M (2 ^ k) ltac:(lia)) as Hdm.
  pose proof (Z.mod_pos_bound M (2 ^ k) P) as Hrho.
  assert (Hq : 0 <= M / 2 ^ k) by (apply Z.div_pos; lia).
  destruct (shr_1_spec mrs) as (E1 & R1 & S1); [rewrite Em; exact Hq|].
  unfold shrInv. rewrite Z.pow_add_r by lia. change (2 ^ 1) with 2.
  set (q := M / 2 ^ k) in *. set (rho := M mod 2 ^ k) in *. set (p := 2 ^ k) in *.
  pose proof (Z.div_mod q 2 ltac:(lia)) as Hq2.
  pose proof (Z.mod_pos_bound q 2 ltac:(lia)) as Hb.
  set (h := q / 2) in *. set (b := q mod 2) in *.
  assert (Hdiv : M / (p * 2) = h).
  { symmetry. apply (Z.div_unique M (p * 2) h (b * p + rho)); nia. }
  assert (Hmod : M mod (p * 2) = b * p + rho).
  { symmetry. apply (Z.mod_unique M (p * 2) h (b * p + rho)); nia. }
  assert (Hodd : Z.odd q = (b =? 1)).
  { rewrite Zodd_mod. fold b. destruct (Z.eqb_spec b 1) as [->|]; [reflexivity|].
    replace b with 0 by lia. reflexivity. }
  rewrite Hdiv, Hmod. split; [|split].
  - rewrite E1, Em. reflexivity.
  - rewrite R1, Em, Hodd.
    destruct (Z.eqb_spec b 1) as [Hb1|Hb1]; symmetry.
    + apply Z.leb_le. nia.
    + apply Z.leb_gt. nia.
  - rewrite S1, Er, Es.
    assert (Hm2 : (2 * (b * p + rho)) mod (p * 2) = 2 * rho).
    { symmetry. apply (Z.mod_unique _ (p * 2) b (2 * rho)); nia. }
    rewrite Hm2.
    destruct (Z.eq_dec rho 0) as [Hz|Hnz].
    + rewrite Hz. rewrite Z.mod_0_l by lia. simpl.
      destruct (Z.leb_spec p 0); [lia|reflexivity].
    + replace (2 * rho =? 0) with false by (symmetry; apply Z.eqb_neq; lia).
      destruct (Z.leb_spec p (2 * rho)); [reflexivity|].
      rewrite Z.mod_small by lia.
      replace (2 * rho =? 0) with false by (symmetry; apply Z.eqb_neq; lia).
      reflexivity.
Qed.

Lemma iter_shr_1_inv (n : positive) (mrs : shr_record) (M k : Z) :
  0 <= M -> 0 <= k -> shrInv mrs M k -> shrInv (iter_pos shr_1 n mrs) M (k + Zpos n).
Proof.
  intros HM. revert mrs k.
  induction n as [n IH|n IH|]; intros mrs k Hk H; cbn [iter_pos].
  - replace (k + Zpos n~1) with (((k + 1) + Zpos n) + Zpos n) by lia.
    apply IH; [lia|]. apply IH; [lia|]. apply shr_1_inv; assumption.
  - replace (k + Zpos n~0) with ((k + Zpos n) + Zpos n) by lia.
    apply IH; [lia|]. apply IH; assumption.
  - apply shr_1_inv; assumption.
Qed.

Lemma shr_exact_inv (m e n : Z) :
  0 <= m -> 0 <= n ->
  let res := shr (shr_record_of_loc m loc_Exact) e n in
  snd res = e + n /\ shrInv (fst res) m n.
Proof.
  intros Hm Hn.
  assert (H0 : shrInv (shr_record_of_loc m loc_Exact) m 0).
  { unfold shrInv. cbn [shr_record_of_loc shr_m shr_r shr_s].
    change (2 ^ 0) with 1. rewrite Z.div_1_r, Z.mod_1_r. repeat split. }
  destruct n as [|p|p]; try lia; cbn [shr fst snd].
  - split; [lia|exact H0].
  - split; [reflexivity|].
    exact (iter_shr_1_inv p _ m 0 Hm ltac:(lia) H0).
Qed.

(** Rounding the shifted mantissa to nearest, ties to even. *)
Lemma round_nearest_inv (mrs : shr_record) (M n : Z) :
  0 <= M -> 0 <= n -> shrInv mrs M n ->
  let F := M / 2 ^ n in
  let rho := M mod 2 ^ n in
  let m2 := round_nearest_even (shr_m mrs) (loc_of_shr_record mrs) in
  (m2 = F /\ 2 * rho <= 2 ^ n /\ (2 * rho = 2 ^ n -> Z.even F = true))
  \/ (m2 = F + 1 /\ 2 ^ n <= 2 * rho /\ (2 * rho = 2 ^ n -> Z.even F = false)).
Proof.
  intros HM Hn (Em & Er & Es) F rho m2.
  assert (P : 0 < 2 ^ n) by (apply Z.pow_pos_nonneg; lia).
  pose proof (Z.mod_pos_bound M (2 ^ n) P) as Hrho. fold rho in Hrho, Er, Es.
  fold F in Em. unfold m2. rewrite Em.
  destruct mrs as [m r s]. cbn [shr_m shr_r shr_s loc_of_shr_record] in *.
  subst r s.
  destruct (Z.leb_spec (2 ^ n) (2 * rho)) as [Hr|Hr].
  - assert (Hmod : (2 * rho) mod 2 ^ n = 2 * rho - 2 ^ n).
    { symmetry. apply (Z.mod_unique _ (2 ^ n) 1); lia. }
    rewrite Hmod.
    destruct (Z.eqb_spec (2 * rho - 2 ^ n) 0) as [Hz|Hnz]; cbn [negb round_nearest_even].
    + destruct (Z.even F) eqn:Hev; [left|right]; repeat split; try lia; auto.
    + right. repeat split; lia.
  - destruct (negb _); cbn [round_nearest_even]; left; repeat split; lia.
Qed.

(** ** The rounding step, for every mantissa and location *)

Lemma Zdigits2_bounds (m : Z) : 0 <= m -> m < 2 ^ Zdigits2 m /\ 0 <= Zdigits2 m.
Proof.
  intros Hm. destruct m as [|p|p]; try lia.
  - simpl. lia.
  - cbn [Zdigits2]. destruct (digits2_pos_bounds p). lia.
Qed.

Lemma shr_m_spec (mrs : shr_record) (e n : Z) :
  0 <= shr_m mrs -> 0 <= n ->
  snd (shr mrs e n) = e + n /\ shr_m (fst (shr mrs e n)) = shr_m mrs / 2 ^ n.
Proof.
  intros Hm Hn. destruct n as [|p|p]; try lia; cbn [shr fst snd].
  - split; [lia|]. change (2 ^ 0) with 1. rewrite Z.div_1_r. reflexivity.
  - split; [reflexivity|]. exact (proj1 (iter_shr_1 p mrs Hm)).
Qed.

Lemma shr_m_of_loc (m : Z) (l : location) : shr_m (shr_record_of_loc m l) = m.
Proof. destruct l as [|[]]; reflexivity. Qed.

(** The result of [binary_round_aux] is [roundedSF] of the mantissa that
    [round_nearest_even] picks after the first shift. *)
Lemma round_aux_core (m e : Z) (l : location) :
  0 <= m ->
  let e' := fexp64 (Zdigits2 m + e) in
  e <= e' ->
  let res := shr (shr_record_of_loc m l) e (e' - e) in
  let m2 := round_nearest_even (shr_m (fst res)) (loc_of_shr_record (fst res)) in
  shr_m (fst res) = m / 2 ^ (e' - e)
  /\ m / 2 ^ (e' - e) <= m2 <= m / 2 ^ (e' - e) + 1
  /\ m2 <= 2 ^ 53
  /\ binary_round_aux prec emax false m e l = roundedSF m2 e'.
Proof.
  intros Hm e' He res m2. subst m2.
  unfold binary_round_aux, shr_fexp. change (fexp prec emax) with fexp64.
  fold e'. fold res.
  destruct (shr_m_spec (shr_record_of_loc m l) e (e' - e)) as (E1 & M1);
    [rewrite shr_m_of_loc; exact Hm|lia|].
  fold res in E1, M1. rewrite shr_m_of_loc in M1.
  destruct res as [mrs1 e1] eqn:Hres. cbn [fst snd] in *.
  replace (e + (e' - e)) with e' in E1 by lia. subst e1.
  set (m1 := m / 2 ^ (e' - e)) in *.
  set (m2 := round_nearest_even (shr_m mrs1) (loc_of_shr_record mrs1)).
  destruct (round_nearest_even_spec (shr_m mrs1) (loc_of_shr_record mrs1)) as [B2 _].
  fold m2 in B2. rewrite M1 in B2.
  assert (P : 0 < 2 ^ (e' - e)) by (apply Z.pow_pos_nonneg; lia).
  assert (Hm1 : 0 <= m1 < 2 ^ 53).
  { destruct (Zdigits2_bounds m Hm) as [Hhi Hd].
    split; [apply Z.div_pos; lia|]. unfold m1.
    apply Z.div_lt_upper_bound; [exact P|].
    rewrite <- Z.pow_add_r by lia.
    eapply Z.lt_le_trans; [exact Hhi|].
    apply Z.pow_le_mono_r; [lia|]. unfold e', fexp64. lia. }
  split; [exact M1|]. split; [exact B2|]. split; [lia|].
  assert (He' : -1074 <= e') by (unfold e', fexp64; lia).
  unfold roundedSF.
  destruct (Z.eqb_spec m2 0) as [Z0|NZ0].
  - rewrite Z0. cbn [Zdigits2].
    assert (Hn : fexp64 (0 + e') - e' <= 0) by (unfold fexp64; lia).
    destruct (fexp64 (0 + e') - e') as [|p|p] eqn:Hp; try lia; reflexivity.
  - destruct (Z.eqb_spec m2 (2 ^ 53)) as [E53|N53].
    + rewrite E53. change (Zdigits2 (2 ^ 53)) with 54.
      assert (Hn : fexp64 (54 + e') - e' = 1) by (unfold fexp64; lia).
      rewrite Hn. cbn. replace (e' + 1 <=? emax - prec) with (e' + 1 <=? 971) by reflexivity.
      reflexivity.
    + assert (Hpos : 0 < m2 < 2 ^ 53) by lia.
      destruct m2 as [|p2|p2] eqn:Hm2; try lia.
      assert (Hd : Zpos (digits2_pos p2) <= 53) by (apply digits2_pos_le; lia).
      cbn [Zdigits2].
      assert (Hn : fexp64 (Zpos (digits2_pos p2) + e') - e' <= 0) by (unfold fexp64; lia).
      destruct (fexp64 (Zpos (digits2_pos p2) + e') - e') as [|p|p] eqn:Hp; try lia;
        cbn; replace (e' <=? emax - prec) with (e' <=? 971) by reflexivity; reflexivity.
Qed.

(** [roundedSF] grows with the mantissa. *)
Lemma roundedSF_mono (m2 m2' e : Z) :
  0 <= m2 -> m2 <= m2' -> m2' <= 2 ^ 53 ->
  SFleb (roundedSF m2 e) (roundedSF m2' e) = true.
Proof.
  intros H0 Hle H53. unfold roundedSF.
  change (2 ^ 53) with 9007199254740992 in *.
  destruct (Z.eqb_spec m2 0) as [Z0|NZ0].
  - destruct (Z.eqb_spec m2' 0); [reflexivity|].
    destruct (Z.eqb_spec m2' 9007199254740992).
    + destruct (e + 1 <=? 971); reflexivity.
    + destruct (e <=? 971); reflexivity.
  - destruct (Z.eqb_spec m2' 0); [lia|].
    destruct (Z.eqb_spec m2 9007199254740992) as [E|N].
    + destruct (Z.eqb_spec m2' 9007199254740992); [|lia].
      destruct (e + 1 <=? 971).
      * apply SFleb_finite_intro. right. split; lia.
      * reflexivity.
    + destruct (Z.eqb_spec m2' 9007199254740992) as [E'|N'].
      * destruct (Z.leb_spec e 971), (Z.leb_spec (e + 1) 971); try reflexivity; try lia.
        apply SFleb_finite_intro. left. lia.
      * destruct (Z.leb_spec e 971); [|reflexivity].
        apply SFleb_finite_intro. right. split; [reflexivity|].
        rewrite !Z2Pos.id by lia. exact Hle.
Qed.

Lemma SFleb_trans (x y z : spec_float) :
  SFleb x y = true -> SFleb y z = true -> SFleb x z = true.
Proof.
  unfold SFleb.
  destruct (SFcompare x y) as [c1|] eqn:H1; [|discriminate].
  destruct (SFcompare y z) as [c2|] eqn:H2; [|destruct c1; discriminate].
  intros A B.
  destruct (SFcompare_trans_le _ _ _ _ _ H1 H2) as (c3 & -> & N & _).
  - destruct c1; congruence.
  - destruct c2; congruence.
  - destruct c3; congruence.
Qed.

Lemma SFleb_roundedSF_infinity (m2 e : Z) :
  SFleb (roundedSF m2 e) (S754_infinity false) = true.
Proof.
  unfold roundedSF.
  destruct (m2 =? 0); [reflexivity|].
  destruct (m2 =? 2 ^ 53); [destruct (e + 1 <=? 971); reflexivity|].
  destruct (e <=? 971); reflexivity.
Qed.

(** The mantissa that rounding to nearest picks for an exact positive
    mantissa, with what it says about the dropped bits. *)
Lemma round_aux_nearest (m : positive) (e : Z) :
  let e' := fexp64 (Zpos (digits2_pos m) + e) in
  e <= e' ->
  let F := Zpos m / 2 ^ (e' - e) in
  let rho := Zpos m mod 2 ^ (e' - e) in
  exists m2 : Z,
    ((m2 = F /\ 2 * rho <= 2 ^ (e' - e) /\ (2 * rho = 2 ^ (e' - e) -> Z.even F = true))
     \/ (m2 = F + 1 /\ 2 ^ (e' - e) <= 2 * rho
         /\ (2 * rho = 2 ^ (e' - e) -> Z.even F = false)))
    /\ 0 <= F /\ m2 <= 2 ^ 53
    /\ binary_round_aux prec emax false (Zpos m) e loc_Exact = roundedSF m2 e'.
Proof.
  intros e' He F rho.
  destruct (round_aux_core (Zpos m) e loc_Exact ltac:(lia) He) as (M1 & B2 & T2 & R).
  cbn [Zdigits2] in *. fold e' in M1, B2, T2, R.
  destruct (shr_exact_inv (Zpos m) e (e' - e) ltac:(lia) ltac:(lia)) as [_ Inv].
  pose proof (round_nearest_inv _ (Zpos m) (e' - e) ltac:(lia) ltac:(lia) Inv) as N.
  cbv zeta in N. fold F rho in N.
  eexists. split; [exact N|]. split; [|split; [exact T2|exact R]].
  apply Z.div_pos; [lia|apply Z.pow_pos_nonneg; lia].
Qed.

Lemma fexp64_mono (a b : Z) : a <= b -> fexp64 a <= fexp64 b.
Proof. unfold fexp64. lia. Qed.

(** Two numbers on a grid of step [G] compare as their grid points do. *)
Lemma grid_le (Fa Fb Ra Rb G : Z) :
  0 <= Ra < G -> 0 <= Rb < G -> Fa * G + Ra <= Fb * G + Rb -> Fa <= Fb.
Proof.
  intros HRa HRb Hv. destruct (Z_le_gt_dec Fa Fb) as [|Hgt]; [assumption|].
  assert (Fb * G + G <= Fa * G).
  { replace (Fb * G + G) with ((Fb + 1) * G) by ring.
    apply Z.mul_le_mono_nonneg_r; lia. }
  lia.
Qed.

(** ** Monotonicity *)

Lemma round_aux_mono (m1 m2 : positive) (e1 e2 : Z) :
  - bias <= e1 -> - bias <= e2 ->
  e1 <= fexp64 (Zpos (digits2_pos m1) + e1) ->
  e2 <= fexp64 (Zpos (digits2_pos m2) + e2) ->
  Fval m1 e1 <= Fval m2 e2 ->
  SFleb (binary_round_aux prec emax false (Zpos m1) e1 loc_Exact)
        (binary_round_aux prec emax false (Zpos m2) e2 loc_Exact) = true.
Proof.
  intros B1 B2 N1 N2 Hv.
  set (g1 := Zpos (digits2_pos m1) + e1) in *.
  set (g2 := Zpos (digits2_pos m2) + e2) in *.
  destruct (Fval_digits m1 e1 B1) as [L1 U1]. destruct (Fval_digits m2 e2 B2) as [L2 U2].
  fold g1 in U1. fold g2 in U2.
  replace (Zpos (digits2_pos m1) - 1 + e1 + bias) with (g1 - 1 + bias) in L1 by (unfold g1; lia).
  replace (Zpos (digits2_pos m2) - 1 + e2 + bias) with (g2 - 1 + bias) in L2 by (unfold g2; lia).
  assert (Hg : g1 <= g2).
  { assert (Hp : 2 ^ (g1 - 1 + bias) < 2 ^ (g2 + bias)) by lia.
    apply Z.pow_lt_mono_r_iff in Hp; unfold bias, g2 in *; lia. }
  pose proof (fexp64_mono _ _ Hg) as He'.
  destruct (round_aux_nearest m1 e1 N1) as (r1 & Near1 & F1 & T1 & R1).
  destruct (round_aux_nearest m2 e2 N2) as (r2 & Near2 & F2 & T2 & R2).
  fold g1 in Near1, F1, R1. fold g2 in Near2, F2, R2.
  set (e1' := fexp64 g1) in *. set (e2' := fexp64 g2) in *.
  destruct (Z.eq_dec e1' e2') as [Heq|Hne].
  - (* both on the same grid *)
    rewrite R1, R2, Heq. apply roundedSF_mono; [| |exact T2].
    { destruct Near1 as [(-> & _)|(-> & _)]; lia. }
    set (n1 := e1' - e1) in *. set (n2 := e2' - e2) in *.
    assert (P1 : 0 < 2 ^ n1) by (apply Z.pow_pos_nonneg; unfold n1; lia).
    assert (P2 : 0 < 2 ^ n2) by (apply Z.pow_pos_nonneg; unfold n2; lia).
    assert (Q1 : 0 < 2 ^ (e1 + bias)) by (apply Z.pow_pos_nonneg; lia).
    assert (Q2 : 0 < 2 ^ (e2 + bias)) by (apply Z.pow_pos_nonneg; lia).
    pose proof (Z.div_mod (Zpos m1) (2 ^ n1) ltac:(lia)) as D1.
    pose proof (Z.div_mod (Zpos m2) (2 ^ n2) ltac:(lia)) as D2.
    pose proof (Z.mod_pos_bound (Zpos m1) (2 ^ n1) P1) as M1.
    pose proof (Z.mod_pos_bound (Zpos m2) (2 ^ n2) P2) as M2.
    set (Fa := Zpos m1 / 2 ^ n1) in *. set (Fb := Zpos m2 / 2 ^ n2) in *.
    set (ra := Zpos m1 mod 2 ^ n1) in *. set (rb := Zpos m2 mod 2 ^ n2) in *.
    set (G := 2 ^ (e2' + bias)).
    assert (G1 : 2 ^ n1 * 2 ^ (e1 + bias) = G).
    { unfold G. rewrite <- Z.pow_add_r by (unfold n1; lia). f_equal. unfold n1. lia. }
    assert (G2 : 2 ^ n2 * 2 ^ (e2 + bias) = G).
    { unfold G. rewrite <- Z.pow_add_r by (unfold n2; lia). f_equal. unfold n2. lia. }
    assert (PG : 0 < G) by (rewrite <- G1; apply Z.mul_pos_pos; assumption).
    set (Ra := ra * 2 ^ (e1 + bias)). set (Rb := rb * 2 ^ (e2 + bias)).
    assert (Va : Fval m1 e1 = Fa * G + Ra).
    { unfold Fval, Ra. rewrite D1 at 1. rewrite <- G1. ring. }
    assert (Vb : Fval m2 e2 = Fb * G + Rb).
    { unfold Fval, Rb. rewrite D2 at 1. rewrite <- G2. ring. }
    assert (HRa : 0 <= Ra < G).
    { unfold Ra. rewrite <- G1. split; [apply Z.mul_nonneg_nonneg; lia|].
      apply Z.mul_lt_mono_pos_r; lia. }
    assert (HRb : 0 <= Rb < G).
    { unfold Rb. rewrite <- G2. split; [apply Z.mul_nonneg_nonneg; lia|].
      apply Z.mul_lt_mono_pos_r; lia. }
    rewrite Va, Vb in Hv.
    assert (HF : Fa <= Fb) by exact (grid_le Fa Fb Ra Rb G HRa HRb Hv).
    destruct (Z.eq_dec Fa Fb) as [HFe|HFn].
    2:{ destruct Near1 as [(-> & _)|(-> & _)], Near2 as [(-> & _)|(-> & _)]; lia. }
    assert (HR : Ra <= Rb) by (rewrite HFe in Hv; lia).
    destruct Near1 as [(-> & _)|(-> & Na & Ta)], Near2 as [(-> & Nb & Tb)|(-> & _)]; try lia.
    exfalso.
    assert (Sa : G <= 2 * Ra).
    { unfold Ra. rewrite <- G1.
      replace (2 * (ra * 2 ^ (e1 + bias))) with ((2 * ra) * 2 ^ (e1 + bias)) by ring.
      apply Z.mul_le_mono_nonneg_r; lia. }
    assert (Sb : 2 * Rb <= G).
    { unfold Rb. rewrite <- G2.
      replace (2 * (rb * 2 ^ (e2 + bias))) with ((2 * rb) * 2 ^ (e2 + bias)) by ring.
      apply Z.mul_le_mono_nonneg_r; lia. }
    assert (Ea : 2 * ra = 2 ^ n1).
    { assert (E : 2 * Ra = G) by lia. unfold Ra in E. rewrite <- G1 in E.
      replace (2 * (ra * 2 ^ (e1 + bias))) with ((2 * ra) * 2 ^ (e1 + bias)) in E by ring.
      apply Z.mul_reg_r in E; lia. }
    assert (Eb : 2 * rb = 2 ^ n2).
    { assert (E : 2 * Rb = G) by lia. unfold Rb in E. rewrite <- G2 in E.
      replace (2 * (rb * 2 ^ (e2 + bias))) with ((2 * rb) * 2 ^ (e2 + bias)) in E by ring.
      apply Z.mul_reg_r in E; lia. }
    specialize (Ta Ea). specialize (Tb Eb). rewrite HFe in Ta. congruence.
  - (* the second number is in a higher binade *)
    assert (Hlt : e1' < e2') by lia.
    assert (Hmin : -1074 <= e1') by (unfold e1', fexp64; lia).
    assert (Hnorm : e2' = g2 - 53) by (unfold e2', fexp64 in *; lia).
    assert (Hg12 : g1 < g2).
    { destruct (Z.lt_ge_cases g1 g2) as [|Hge]; [assumption|].
      pose proof (fexp64_mono _ _ Hge). fold e1' e2' in H. lia. }
    destruct (Z.leb_spec e2' 971) as [Hfin|Hovf].
    + assert (Bb : bounded prec emax (2 ^ 52) e2' = true).
      { unfold bounded, canonical_mantissa. rewrite fexp_fexp64.
        change (Zpos (digits2_pos (2 ^ 52))) with 53.
        apply andb_true_iff. split; [apply Z.eqb_eq; unfold fexp64; lia|].
        apply Z.leb_le. change (emax - prec) with 971. lia. }
      assert (VB : Fval (2 ^ 52) e2' = 2 ^ (g2 - 1 + bias)).
      { unfold Fval. change (Zpos (2 ^ 52)) with (2 ^ 52).
        rewrite <- Z.pow_add_r by (unfold bias; lia). f_equal. lia. }
      apply SFleb_trans with (S754_finite false (2 ^ 52) e2').
      * apply round_aux_upper; try assumption. rewrite VB.
        apply Z.lt_le_incl. eapply Z.lt_le_trans; [exact U1|].
        apply Z.pow_le_mono_r; unfold bias in *; lia.
      * apply round_aux_lower; try assumption. rewrite VB. exact L2.
    + rewrite R1, R2.
      assert (Hr2 : 1 <= r2).
      { assert (1 <= Zpos m2 / 2 ^ (e2' - e2)).
        { destruct (digits2_pos_bounds m2) as [Hlo _].
          apply Z.div_le_lower_bound; [apply Z.pow_pos_nonneg; lia|].
          eapply Z.le_trans; [|exact Hlo]. rewrite Z.mul_1_r.
          apply Z.pow_le_mono_r; unfold g2 in *; lia. }
        destruct Near2 as [(-> & _)|(-> & _)]; lia. }
      assert (E2 : roundedSF r2 e2' = S754_infinity false).
      { unfold roundedSF.
        destruct (Z.eqb_spec r2 0); [lia|].
        destruct (Z.leb_spec e2' 971); [lia|].
        destruct (Z.leb_spec (e2' + 1) 971); [lia|].
        destruct (r2 =? 2 ^ 53); reflexivity. }
      rewrite E2. apply SFleb_roundedSF_infinity.
Qed.

Lemma binary_round_mono (m1 m2 : positive) (e1 e2 : Z) :
  - bias <= e1 -> - bias <= e2 ->
  Fval m1 e1 <= Fval m2 e2 ->
  SFleb (binary_round prec emax false m1 e1) (binary_round prec emax false m2 e2) = true.
Proof.
  intros B1 B2 Hv. unfold binary_round. change (fexp prec emax) with fexp64.
  set (f1 := fexp64 (Zpos (digits2_pos m1) + e1)).
  set (f2 := fexp64 (Zpos (digits2_pos m2) + e2)).
  assert (Hf1 : - bias <= f1) by (unfold f1, fexp64, bias; lia).
  assert (Hf2 : - bias <= f2) by (unfold f2, fexp64, bias; lia).
  pose proof (shl_align_spec m1 e1 f1) as [Hs1 _].
  pose proof (shl_align_spec m2 e2 f2) as [Hs2 _].
  pose proof (Fval_shl_align m1 e1 f1 B1 Hf1) as V1.
  pose proof (Fval_shl_align m2 e2 f2 B2 Hf2) as V2.
  pose proof (digits2_pos_shl_align m1 e1 f1) as D1.
  pose proof (digits2_pos_shl_align m2 e2 f2) as D2.
  destruct (shl_align m1 e1 f1) as [mz1 ez1], (shl_align m2 e2 f2) as [mz2 ez2].
  cbn [fst snd] in *.
  apply round_aux_mono; try lia.
  - rewrite D1. fold f1. lia.
  - rewrite D2. fold f2. lia.
Qed.

(** Adding the same positive number keeps the order. *)
Lemma add_mono (x y c : float) (vx vy vc : Z) :
  valOf x = Some vx -> valOf y = Some vy -> valOf c = Some vc -> 0 < vc ->
  vx <= vy ->
  PrimFloat.leb (x + c) (y + c) = true.
Proof.
  unfold valOf. intros Hx Hy Hc Pc Hle.
  rewrite leb_spec, !add_spec.
  pose proof (Prim2SF_valid x) as Vx. pose proof (Prim2SF_valid y) as Vy.
  pose proof (Prim2SF_valid c) as Vc.
  pose proof (nnval_nonneg _ _ Vx Hx) as Px.
  destruct (nnval_pos_finite _ _ Hc Pc) as (mc & ec & Ec & ->).
  rewrite Ec in *. cbn [valid_binary] in Vc.
  pose proof (valid_bias _ _ Vc) as Bc.
  assert (Rc : SFleb (S754_finite false mc ec) (S754_finite false mc ec) = true).
  { unfold SFleb. rewrite SFcompare_refl by discriminate. reflexivity. }
  destruct (Prim2SF x) as [sx|sx| |[] mx ex]; simpl in Hx; inversion Hx; subst; clear Hx;
    destruct (Prim2SF y) as [sy|sy| |[] my ey]; simpl in Hy; inversion Hy; subst; clear Hy.
  - exact Rc.
  - cbn [valid_binary] in Vy. cbn [SF64add SFadd].
    destruct (SFadd_pos my mc ey ec (valid_bias _ _ Vy) Bc) as (s & Es & Ev).
    unfold SF64add in Es. cbn [SFadd] in Es. rewrite Es.
    pose proof (valid_bias _ _ Vy).
    apply binary_round_lower; try assumption; lia.
  - cbn [valid_binary] in Vx. pose proof (Fval_pos mx ex (valid_bias _ _ Vx)). lia.
  - cbn [valid_binary] in Vx, Vy.
    destruct (SFadd_pos mx mc ex ec (valid_bias _ _ Vx) Bc) as (s1 & -> & Ev1).
    destruct (SFadd_pos my mc ey ec (valid_bias _ _ Vy) Bc) as (s2 & -> & Ev2).
    pose proof (valid_bias _ _ Vx). pose proof (valid_bias _ _ Vy).
    apply binary_round_mono; lia.
Qed.

(** * Quotients *)

(** ** Bounds on a rounded mantissa with any location *)

Lemma roundedSF_upper (m2 e : Z) (mb : positive) (eb : Z) :
  0 <= m2 <= 2 ^ 53 -> bounded prec emax mb eb = true ->
  e <= eb -> m2 <= Zpos mb * 2 ^ (eb - e) ->
  SFleb (roundedSF m2 e) (S754_finite false mb eb) = true.
Proof.
  intros Hm Bb Hee Hk.
  destruct (bounded_canonical _ _ Bb) as (Cb & Ub & Lb & Db & Nb).
  assert (Hmb53 : Zpos mb < 2 ^ 53).
  { destruct (digits2_pos_bounds mb) as [_ Hhi].
    eapply Z.lt_le_trans; [exact Hhi|]. apply Z.pow_le_mono_r; lia. }
  unfold roundedSF.
  destruct (Z.eqb_spec m2 0) as [Z0|NZ0]; [reflexivity|].
  destruct (Z.eqb_spec m2 (2 ^ 53)) as [E53|N53].
  - assert (Hne : e < eb).
    { destruct (Z.eq_dec e eb) as [Heq|]; [|lia].
      rewrite Heq, Z.sub_diag in Hk. simpl in Hk. lia. }
    destruct (Z.leb_spec (e + 1) 971); [|lia].
    apply SFleb_finite_intro.
    destruct (Z.eq_dec (e + 1) eb) as [Heq|]; [right|left; lia].
    split; [exact Heq|].
    replace (eb - e) with 1 in Hk by lia.
    change (2 ^ 1) with 2 in Hk. change (Zpos (2 ^ 52)) with 4503599627370496.
    change (2 ^ 53) with 9007199254740992 in E53. lia.
  - destruct (Z.leb_spec e 971); [|lia].
    apply SFleb_finite_intro.
    destruct (Z.eq_dec e eb) as [Heq|]; [right|left; lia].
    split; [exact Heq|].
    rewrite Heq, Z.sub_diag in Hk. simpl in Hk.
    rewrite Z2Pos.id by lia. lia.
Qed.

Lemma roundedSF_lower (m2 e : Z) (ma : positive) (ea : Z) :
  1 <= m2 -> ea <= e -> (ea = e -> Zpos ma <= m2) ->
  SFleb (S754_finite false ma ea) (roundedSF m2 e) = true.
Proof.
  intros Hm Hee Hsame. unfold roundedSF.
  destruct (Z.eqb_spec m2 0) as [Z0|NZ0]; [lia|].
  destruct (Z.eqb_spec m2 (2 ^ 53)) as [E53|N53].
  - destruct (Z.leb_spec (e + 1) 971); [|reflexivity].
    apply SFleb_finite_intro. left. lia.
  - destruct (Z.leb_spec e 971); [|reflexivity].
    apply SFleb_finite_intro.
    destruct (Z.eq_dec ea e) as [Heq|]; [right|left; lia].
    split; [exact Heq|]. specialize (Hsame Heq).
    rewrite Z2Pos.id by lia. lia.
Qed.

(** The magnitude of a mantissa below a positive canonical number. *)
Lemma Zdigits2_le_bound (q e : Z) (mb : positive) (eb : Z) :
  0 < q -> - bias <= e -> - bias <= eb ->
  q * 2 ^ (e + bias) <= Fval mb eb ->
  Zdigits2 q + e <= Zpos (digits2_pos mb) + eb.
Proof.
  intros Hq He Hb Hv. destruct q as [|p|p]; try lia. cbn [Zdigits2].
  change (Zpos p * 2 ^ (e + bias)) with (Fval p e) in Hv.
  destruct (Fval_digits p e He) as [Hlo _].
  destruct (Fval_digits mb eb Hb) as [_ Hhi].
  assert (Hp : 2 ^ (Zpos (digits2_pos p) - 1 + e + bias)
               < 2 ^ (Zpos (digits2_pos mb) + eb + bias)) by lia.
  apply Z.pow_lt_mono_r_iff in Hp; unfold bias in *; lia.
Qed.

(** Every location: a canonical number strictly above the truncated value
    is above the rounded result. *)
Lemma round_any_upper (q e : Z) (l : location) (mb : positive) (eb : Z) :
  0 <= q -> - bias <= e -> e <= fexp64 (Zdigits2 q + e) ->
  bounded prec emax mb eb = true ->
  q * 2 ^ (e + bias) < Fval mb eb ->
  SFleb (binary_round_aux prec emax false q e l) (S754_finite false mb eb) = true.
Proof.
  intros Hq He Hn Bb Hv.
  destruct (bounded_canonical _ _ Bb) as (Cb & Ub & Lb & Db & Nb).
  assert (Hbb : - bias <= eb) by (unfold bias; lia).
  destruct (round_aux_core q e l Hq Hn) as (M1 & B2 & T2 & ->).
  set (e' := fexp64 (Zdigits2 q + e)) in *.
  set (m2 := round_nearest_even _ _) in *.
  assert (Hee : e' <= eb).
  { destruct (Z.eq_dec q 0) as [->|Hnz].
    - unfold e', fexp64 in *. cbn [Zdigits2] in *. lia.
    - pose proof (Zdigits2_le_bound q e mb eb ltac:(lia) He Hbb ltac:(lia)) as Hmag.
      unfold e'. rewrite Cb. apply fexp64_mono. exact Hmag. }
  set (n := e' - e) in *.
  assert (P : 0 < 2 ^ n) by (apply Z.pow_pos_nonneg; unfold n; lia).
  assert (Q : 0 < 2 ^ (e + bias)) by (apply Z.pow_pos_nonneg; lia).
  assert (HF : 0 <= q / 2 ^ n) by (apply Z.div_pos; lia).
  apply roundedSF_upper; try assumption; [lia|].
  set (kb := Zpos mb * 2 ^ (eb - e')).
  assert (Hk : q < kb * 2 ^ n).
  { rewrite (Fval_shift mb e eb) in Hv by lia.
    apply Z.mul_lt_mono_pos_r in Hv; [|exact Q].
    unfold kb. replace (eb - e) with ((eb - e') + n) in Hv by (unfold n; lia).
    rewrite Z.pow_add_r in Hv by (unfold n; lia). lia. }
  assert (q / 2 ^ n < kb) by (apply Z.div_lt_upper_bound; lia).
  lia.
Qed.

(** Every location: a canonical number at most the truncated value is at
    most the rounded result. *)
Lemma round_any_lower (q e : Z) (l : location) (ma : positive) (ea : Z) :
  0 <= q -> - bias <= e -> e <= fexp64 (Zdigits2 q + e) ->
  bounded prec emax ma ea = true ->
  Fval ma ea <= q * 2 ^ (e + bias) ->
  SFleb (S754_finite false ma ea) (binary_round_aux prec emax false q e l) = true.
Proof.
  intros Hq He Hn Ba Hv.
  destruct (bounded_canonical _ _ Ba) as (Ca & Ua & La & Da & Na).
  assert (Hba : - bias <= ea) by (unfold bias; lia).
  pose proof (Fval_pos ma ea Hba) as Pa.
  assert (Q : 0 < 2 ^ (e + bias)) by (apply Z.pow_pos_nonneg; lia).
  assert (Hqpos : 0 < q) by nia.
  destruct q as [|p|p]; try lia.
  change (Zpos p * 2 ^ (e + bias)) with (Fval p e) in Hv.
  destruct (round_aux_core (Zpos p) e l ltac:(lia) Hn) as (M1 & B2 & T2 & ->).
  cbn [Zdigits2] in *.
  set (e' := fexp64 (Zpos (digits2_pos p) + e)) in *.
  set (m2 := round_nearest_even _ _) in *.
  assert (Hmag : Zpos (digits2_pos ma) + ea <= Zpos (digits2_pos p) + e).
  { destruct (Fval_digits p e He) as [_ Hhi].
    destruct (Fval_digits ma ea Hba) as [Hlo _].
    assert (Hp : 2 ^ (Zpos (digits2_pos ma) - 1 + ea + bias)
                 < 2 ^ (Zpos (digits2_pos p) + e + bias)) by lia.
    apply Z.pow_lt_mono_r_iff in Hp; unfold bias in *; lia. }
  assert (Hee : ea <= e') by (unfold e'; rewrite Ca; apply fexp64_mono; exact Hmag).
  set (n := e' - e) in *.
  assert (P : 0 < 2 ^ n) by (apply Z.pow_pos_nonneg; unfold n; lia).
  assert (Hsame : ea = e' -> Zpos ma <= Zpos p / 2 ^ n).
  { intros Heq. rewrite (Fval_shift ma e ea) in Hv by lia. unfold Fval in Hv.
    apply Z.mul_le_mono_pos_r in Hv; [|exact Q].
    rewrite Heq in Hv. fold n in Hv.
    apply Z.div_le_lower_bound; lia. }
  assert (Hm1 : 1 <= Zpos p / 2 ^ n).
  { destruct (Z.eq_dec e' (-1074)) as [Hmin|Hnorm].
    - assert (ea = e') by lia. specialize (Hsame H). lia.
    - assert (Hn53 : n = Zpos (digits2_pos p) - 53) by (unfold n, e', fexp64 in *; lia).
      destruct (digits2_pos_bounds p) as [Hlo _].
      apply Z.div_le_lower_bound; [lia|].
      eapply Z.le_trans; [|exact Hlo]. rewrite Z.mul_1_r.
      apply Z.pow_le_mono_r; lia. }
  apply roundedSF_lower; [lia|exact Hee|].
  intros Heq. specialize (Hsame Heq). lia.
Qed.

(** ** The quotient of two mantissas *)

Lemma shiftl_match (m s : Z) :
  0 <= s ->
  match s with 0 => m | Zpos _ => Z.shiftl m s | Zneg _ => 0 end = m * 2 ^ s.
Proof.
  intros Hs.
  destruct s as [|p|p]; [change (2 ^ 0) with 1; lia|apply Z.shiftl_mul_pow2; lia|lia].
Qed.

(** What [SFdiv_core_binary] returns for two positive binary64 numbers: the
    quotient [q] and the remainder [r] of the first mantissa, shifted left
    by [s] bits, by the second. *)
Lemma SFdiv_core_spec (mx mc : positive) (ex ec : Z) :
  bounded prec emax mx ex = true -> bounded prec emax mc ec = true ->
  exists q e' l s r,
    SFdiv_core_binary prec emax (Zpos mx) ex (Zpos mc) ec = (q, e', l)
    /\ 0 <= s /\ e' = ex - ec - s
    /\ Zpos mx * 2 ^ s = q * Zpos mc + r /\ 0 <= r < Zpos mc /\ 0 <= q
    /\ (r = 0 -> l = loc_Exact)
    /\ - bias <= e'
    /\ e' <= fexp64 (Zdigits2 q + e')
    /\ e' <= fexp64 (Zpos (digits2_pos mx) + ex - (Zpos (digits2_pos mc) + ec))
    /\ 2 ^ (Zpos (digits2_pos mx) + s - Zpos (digits2_pos mc) - 1) <= q.
Proof.
  intros Bx Bc.
  destruct (bounded_canonical _ _ Bx) as (Cx & Ux & Lx & Dx & Nx).
  destruct (bounded_canonical _ _ Bc) as (Cc & Uc & Lc & Dc & Nc).
  unfold SFdiv_core_binary. cbn [Zdigits2]. change (fexp prec emax) with fexp64.
  set (d1 := Zpos (digits2_pos mx)) in *. set (d2 := Zpos (digits2_pos mc)) in *.
  set (D := d1 + ex - (d2 + ec)).
  set (e' := Z.min (fexp64 D) (ex - ec)).
  set (s := ex - ec - e').
  assert (Hs : 0 <= s) by (unfold s, e'; lia).
  set (m' := match s with 0 => Zpos mx | Zpos _ => Z.shiftl (Zpos mx) s | Zneg _ => 0 end).
  assert (Hm' : m' = Zpos mx * 2 ^ s) by (apply shiftl_match; exact Hs).
  pose proof (Z_div_mod m' (Zpos mc) ltac:(lia)) as Hdm.
  destruct (Z.div_eucl m' (Zpos mc)) as [q r].
  destruct Hdm as [Hdm Hr].
  exists q, e', (new_location (Zpos mc) r), s, r.
  split; [reflexivity|].
  destruct (digits2_pos_bounds mx) as [Lmx Umx]. destruct (digits2_pos_bounds mc) as [Lmc Umc].
  fold d1 in Lmx, Umx. fold d2 in Lmc, Umc.
  assert (Ps : 0 < 2 ^ s) by (apply Z.pow_pos_nonneg; lia).
  assert (Hq : 0 <= q) by nia.
  assert (Hlow : 2 ^ (d1 + s - d2 - 1) <= q).
  { destruct (Z.lt_ge_cases (d1 + s - d2 - 1) 0) as [Hneg|Hnn].
    - rewrite Z.pow_neg_r by lia. exact Hq.
    - set (k := d1 + s - d2 - 1) in *.
      assert (Pk : 0 < 2 ^ k) by (apply Z.pow_pos_nonneg; lia).
      assert (E : 2 ^ (d1 - 1) * 2 ^ s = 2 ^ k * 2 ^ d2).
      { rewrite <- !Z.pow_add_r by lia. f_equal. unfold k. lia. }
      destruct (Z.lt_ge_cases q (2 ^ k)) as [Hlt|]; [exfalso|assumption].
      assert (m' < 2 ^ k * Zpos mc) by nia.
      assert (2 ^ k * 2 ^ d2 <= m').
      { rewrite Hm', <- E. apply Z.mul_le_mono_nonneg_r; lia. }
      assert (2 ^ k * Zpos mc < 2 ^ k * 2 ^ d2) by (apply Z.mul_lt_mono_pos_l; lia).
      lia. }
  split; [exact Hs|]. split; [unfold s; lia|]. split; [lia|]. split; [exact Hr|].
  split; [exact Hq|]. split.
  { intros ->. unfold new_location, new_location_even, new_location_odd.
    destruct (Z.even (Zpos mc)); reflexivity. }
  split; [unfold e', fexp64, bias; lia|].
  split; [|split; [unfold e'; lia|exact Hlow]].
  destruct (Z.eq_dec q 0) as [Hq0|Hq0].
  - (* the quotient is zero only below the least exponent *)
    rewrite Hq0. cbn [Zdigits2]. 
    assert (He' : e' <= -1074).
    { destruct (Z.le_gt_cases e' (-1074)) as [|Hgt]; [assumption|exfalso].
      assert (Hnorm : e' <= D - 53) by (unfold e', fexp64 in *; lia).
      assert (Hs53 : 53 - d1 + d2 <= s) by (unfold s, D in *; lia).
      assert (Hk : 0 <= d1 + s - d2 - 1) by lia.
      assert (0 < 2 ^ (d1 + s - d2 - 1)) by (apply Z.pow_pos_nonneg; lia).
      lia. }
    unfold fexp64. lia.
  - assert (Hqp : 0 < q) by lia.
    destruct q as [|p|p]; try lia. cbn [Zdigits2].
    assert (Hd : d1 + s - d2 <= Zpos (digits2_pos p)).
    { apply digits2_pos_ge. exact Hlow. }
    eapply Z.le_trans; [|apply fexp64_mono with (a := D); unfold D, s in *; lia].
    unfold e'. lia.
Qed.

(** ** Bounds on quotients *)

(** [x / c] for a non-negative [x] and a positive [c] is a non-negative
    finite number below every positive number above the exact quotient. *)
Lemma div_upper (x c b : float) (vx vc vb : Z) :
  valOf x = Some vx -> valOf c = Some vc -> 0 < vc ->
  valOf b = Some vb -> 0 < vb ->
  vx * 2 ^ bias <= vb * vc ->
  exists vh, valOf (x / c) = Some vh /\ 0 <= vh <= vb.
Proof.
  unfold valOf. intros Hx Hc Pc Hb Pb Hhi.
  pose proof (Prim2SF_valid (x / c)) as Vr. rewrite div_spec in Vr |- *.
  pose proof (Prim2SF_valid x) as Vx. pose proof (Prim2SF_valid c) as Vc.
  pose proof (Prim2SF_valid b) as Vb.
  destruct (nnval_pos_finite _ _ Hc Pc) as (mc & ec & Ec & ->).
  destruct (nnval_pos_finite _ _ Hb Pb) as (mb & eb & Eb & ->).
  rewrite Ec, Eb in *. cbn [valid_binary] in Vc, Vb.
  destruct (Prim2SF x) as [sx|sx| |[] mx ex]; simpl in Hx; inversion Hx; subst; clear Hx.
  - exists 0. split; [reflexivity|lia].
  - cbn [valid_binary] in Vx.
    destruct (SFdiv_core_spec mx mc ex ec Vx Vc)
      as (q & e' & l & s & r & Ecore & Hs & He' & Hdiv & Hr & Hq & Hex & Hb' & Hn & _ & _).
    unfold SF64div, SFdiv in Vr |- *. rewrite Ecore in Vr |- *. cbn [xorb] in Vr |- *.
    pose proof (valid_bias _ _ Vx) as Bx. pose proof (valid_bias _ _ Vc) as Bc.
    (* the exact quotient, scaled, is below the bound *)
    assert (T : 0 < 2 ^ (e' + bias)) by (apply Z.pow_pos_nonneg; lia).
    assert (C : 0 < 2 ^ (ec + bias)) by (apply Z.pow_pos_nonneg; lia).
    assert (Hscale : Fval mx ex * 2 ^ bias
                     = (Zpos mx * 2 ^ s) * 2 ^ (e' + bias) * 2 ^ (ec + bias)).
    { unfold Fval.
      replace (Zpos mx * 2 ^ s * 2 ^ (e' + bias) * 2 ^ (ec + bias))
        with (Zpos mx * (2 ^ s * 2 ^ (e' + bias) * 2 ^ (ec + bias))) by ring.
      rewrite <- !Z.pow_add_r by (unfold bias in *; lia).
      replace (Zpos mx * 2 ^ (ex + bias) * 2 ^ bias)
        with (Zpos mx * (2 ^ (ex + bias) * 2 ^ bias)) by ring.
      rewrite <- Z.pow_add_r by (unfold bias in *; lia).
      f_equal. f_equal. lia. }
    assert (Hq' : (q * Zpos mc + r) * 2 ^ (e' + bias) <= Fval mb eb * Zpos mc).
    { rewrite Hscale, Hdiv in Hhi. unfold Fval at 2 in Hhi.
      replace (Fval mb eb * (Zpos mc * 2 ^ (ec + bias)))
        with (Fval mb eb * Zpos mc * 2 ^ (ec + bias)) in Hhi by ring.
      apply Z.mul_le_mono_pos_r in Hhi; assumption. }
    assert (Hup : SFleb (binary_round_aux prec emax false q e' l)
                        (S754_finite false mb eb) = true).
    { destruct (Z.eq_dec r 0) as [Hr0|Hr0].
      - rewrite (Hex Hr0). rewrite Hr0, Z.add_0_r in Hq', Hdiv.
        assert (Hqp : 0 < q) by nia.
        destruct q as [|p|p]; try lia. cbn [Zdigits2] in Hn.
        apply round_aux_upper; try assumption.
        unfold Fval at 1.
        apply Z.mul_le_mono_pos_r with (p := Zpos mc); [lia|].
        replace (Zpos p * 2 ^ (e' + bias) * Zpos mc)
          with (Zpos p * Zpos mc * 2 ^ (e' + bias)) by ring.
        exact Hq'.
      - apply round_any_upper; try assumption.
        apply Z.mul_lt_mono_pos_r with (p := Zpos mc); [lia|].
        eapply Z.lt_le_trans; [|exact Hq']. nia. }
    destruct (round_aux_core q e' l Hq Hn) as (_ & B2 & T2 & R).
    rewrite R in *.
    set (m2 := round_nearest_even _ _) in *. set (e2 := fexp64 (Zdigits2 q + e')) in *.
    unfold roundedSF in *.
    destruct (m2 =? 0).
    { exists 0. split; [reflexivity|lia]. }
    assert (G : forall m e, valid_binary (S754_finite false m e) = true ->
                 SFleb (S754_finite false m e) (S754_finite false mb eb) = true ->
                 exists vh, nnval (S754_finite false m e) = Some vh /\ 0 <= vh <= Fval mb eb).
    { intros m e V L. exists (Fval m e). split; [reflexivity|].
      cbn [valid_binary] in V. split.
      - apply Z.lt_le_incl, Fval_pos, (valid_bias _ _ V).
      - apply SFleb_Fval; assumption. }
    destruct (m2 =? 2 ^ 53).
    + destruct (e2 + 1 <=? 971); [apply G; assumption|discriminate].
    + destruct (e2 <=? 971); [apply G; assumption|discriminate].
Qed.

(** [x / c] for positive [x] and [c] is above every positive number below
    the exact quotient. *)
Lemma div_lower (x c a : float) (vx vc va : Z) :
  valOf x = Some vx -> valOf c = Some vc -> 0 < vc ->
  valOf a = Some va -> 0 < va ->
  va * vc <= vx * 2 ^ bias ->
  PrimFloat.leb a (x / c) = true.
Proof.
  unfold valOf. intros Hx Hc Pc Ha Pa Hlo.
  rewrite leb_spec, div_spec.
  pose proof (Prim2SF_valid x) as Vx. pose proof (Prim2SF_valid c) as Vc.
  pose proof (Prim2SF_valid a) as Va.
  assert (P : 0 < 2 ^ bias) by (apply Z.pow_pos_nonneg; unfold bias; lia).
  assert (Px : 0 < vx) by nia.
  destruct (nnval_pos_finite _ _ Hx Px) as (mx & ex & Ex & ->).
  destruct (nnval_pos_finite _ _ Hc Pc) as (mc & ec & Ec & ->).
  destruct (nnval_pos_finite _ _ Ha Pa) as (ma & ea & Ea & ->).
  rewrite Ex, Ec, Ea in *. cbn [valid_binary] in Vx, Vc, Va.
  destruct (SFdiv_core_spec mx mc ex ec Vx Vc)
    as (q & e' & l & s & r & Ecore & Hs & He' & Hdiv & Hr & Hq & Hex & Hb' & Hn & HeD & Hlow).
  unfold SF64div, SFdiv. rewrite Ecore. cbn [xorb].
  pose proof (valid_bias _ _ Vx) as Bx. pose proof (valid_bias _ _ Vc) as Bc.
  pose proof (valid_bias _ _ Va) as Ba.
  assert (T : 0 < 2 ^ (e' + bias)) by (apply Z.pow_pos_nonneg; lia).
  assert (C : 0 < 2 ^ (ec + bias)) by (apply Z.pow_pos_nonneg; lia).
  assert (Hscale : Fval mx ex * 2 ^ bias
                   = (Zpos mx * 2 ^ s) * 2 ^ (e' + bias) * 2 ^ (ec + bias)).
  { unfold Fval.
    replace (Zpos mx * 2 ^ s * 2 ^ (e' + bias) * 2 ^ (ec + bias))
      with (Zpos mx * (2 ^ s * 2 ^ (e' + bias) * 2 ^ (ec + bias))) by ring.
    rewrite <- !Z.pow_add_r by (unfold bias in *; lia).
    replace (Zpos mx * 2 ^ (ex + bias) * 2 ^ bias)
      with (Zpos mx * (2 ^ (ex + bias) * 2 ^ bias)) by ring.
    rewrite <- Z.pow_add_r by (unfold bias in *; lia).
    f_equal. f_equal. lia. }
  assert (Hq' : Fval ma ea * Zpos mc <= (q * Zpos mc + r) * 2 ^ (e' + bias)).
  { rewrite Hscale, Hdiv in Hlo. unfold Fval at 2 in Hlo.
    replace (Fval ma ea * (Zpos mc * 2 ^ (ec + bias)))
      with (Fval ma ea * Zpos mc * 2 ^ (ec + bias)) in Hlo by ring.
    apply Z.mul_le_mono_pos_r in Hlo; assumption. }
  apply round_any_lower; try assumption.
  destruct (bounded_canonical _ _ Va) as (Ca & Ua & La & Da & Na).
  destruct (Z.le_gt_cases e' ea) as [Hgrid|Hfine].
  - (* the bound is on the grid of the quotient *)
    rewrite (Fval_shift ma e' ea) in Hq' |- * by lia.
    set (j := Zpos ma * 2 ^ (ea - e')) in *.
    apply Z.mul_le_mono_nonneg_r; [lia|].
    assert (j * Zpos mc < (q + 1) * Zpos mc).
    { apply Z.mul_lt_mono_pos_r with (p := 2 ^ (e' + bias)); [exact T|]. nia. }
    assert (j < q + 1) by (apply Z.mul_lt_mono_pos_r with (p := Zpos mc); lia).
    lia.
  - (* the bound is in a lower binade *)
    set (d1 := Zpos (digits2_pos mx)) in *. set (d2 := Zpos (digits2_pos mc)) in *.
    set (D := d1 + ex - (d2 + ec)) in *.
    assert (Hmag : Zpos (digits2_pos ma) + ea < D).
    { destruct (Z.lt_ge_cases (Zpos (digits2_pos ma) + ea) D) as [|Hge]; [assumption|].
      pose proof (fexp64_mono _ _ Hge). lia. }
    destruct (Fval_digits ma ea Ba) as [_ Hhi].
    assert (Hnorm : e' <= D - 53) by (unfold fexp64 in HeD; lia).
    assert (Hk : 0 <= d1 + s - d2 - 1) by lia.
    eapply Z.le_trans; [apply Z.lt_le_incl; exact Hhi|].
    eapply Z.le_trans; [|apply Z.mul_le_mono_nonneg_r; [lia|exact Hlow]].
    rewrite <- Z.pow_add_r by lia.
    apply Z.pow_le_mono_r; [lia|]. unfold D in *. lia.
Qed.

(** ** Equal numbers *)

(** A number on both sides of a positive finite number is that number. *)
Lemma leb_antisym_pos (a y : float) (m : positive) (e : Z) :
  Prim2SF a = S754_finite false m e ->
  PrimFloat.leb a y = true -> PrimFloat.leb y a = true -> y = a.
Proof.
  intros Ha H1 H2. rewrite leb_spec in H1, H2. rewrite Ha in *.
  apply Prim2SF_inj. rewrite Ha.
  unfold SFleb in *.
  destruct (SFcompare (S754_finite false m e) (Prim2SF y)) as [c|] eqn:Hc; [|discriminate].
  rewrite (SFcompare_antisym _ _ _ Hc) in H2.
  destruct c; simpl in H1, H2; try discriminate.
  destruct (Prim2SF y) as [sy|sy| |sy my ey]; try destruct sy; simpl in Hc; try discriminate.
  destruct (Z.compare_spec e ey) as [->| |]; try discriminate.
  fold (Pos.compare m my) in Hc.
  destruct (Pos.compare_spec m my) as [->| |]; try discriminate. reflexivity.
Qed.

(** A zero is below every number that is not negative. *)
Lemma isZero_leb (z y : float) :
  isZero z -> PrimFloat.leb 0 y = true -> PrimFloat.leb z y = true.
Proof.
  intros Hz Hy. apply leb_0_spec in Hy. rewrite leb_spec.
  apply isZero_spec in Hz. destruct Hz as [s ->]. unfold SFleb.
  destruct (Prim2SF y) as [sy|sy| |sy my ey]; try destruct sy; try contradiction; reflexivity.
Qed.

Lemma valOf_005 : valOf 0.05%float = Some (Fval 7205759403792794 (-57)).
Proof. reflexivity. Qed.

Lemma valOf_105 : valOf 1.05%float = Some (Fval 4728779608739021 (-52)).
Proof. reflexivity. Qed.

Lemma valOf_21 : valOf 21%float = Some (21 * unitVal).
Proof. vm_compute. reflexivity. Qed.

Lemma valOf_EPS : valOf HSLuv.EPS = Some (Fval 7737125245533627 (-86)).
Proof. reflexivity. Qed.

(** The two constants of the contrast ratio against 1 and 21. *)
Lemma contrast_constants :
  0 < Fval 7205759403792794 (-57)
  /\ unitVal + Fval 7205759403792794 (-57) <= Fval 4728779608739021 (-52)
  /\ Fval 4728779608739021 (-52) <= 21 * Fval 7205759403792794 (-57).
Proof.
  split; [reflexivity|]. split; apply Z.leb_le; vm_compute; reflexivity.
Qed.

(** A sum with 0.05 of a number inside [[0, 1]]. *)
Lemma add_005_value (x : float) (vx : Z) :
  valOf x = Some vx -> 0 <= vx <= unitVal ->
  exists v, valOf (x + 0.05)%float = Some v
            /\ Fval 7205759403792794 (-57) <= v <= Fval 4728779608739021 (-52).
Proof.
  intros Hx Bx. destruct contrast_constants as (C1 & C2 & C3).
  destruct (add_bounds x 0.05 0.05 1.05 vx _ _ _ Hx valOf_005 C1 valOf_005 C1 valOf_105
              ltac:(lia) ltac:(lia)) as [Hlo Hhi].
  exact (valOf_between 0.05 (x + 0.05) 1.05 _ _ valOf_005 valOf_105 Hlo Hhi).
Qed.

(** The ratio of two such sums, the larger over the smaller. *)
Lemma ratio_between_1_and_21 (a b : float) (va vb : Z) :
  valOf a = Some va -> valOf b = Some vb ->
  Fval 7205759403792794 (-57) <= vb -> vb <= va -> va <= Fval 4728779608739021 (-52) ->
  PrimFloat.leb 1 (a / b) = true /\ PrimFloat.leb (a / b) 21 = true.
Proof.
  intros Ha Hb Lb Hab Ua. destruct contrast_constants as (C1 & C2 & C3).
  pose proof unitVal_pos as U.
  assert (P : 0 < 2 ^ bias) by exact U.
  split.
  - apply (div_lower a b 1 va vb unitVal Ha Hb ltac:(lia) valOf_1 U).
    unfold unitVal. nia.
  - destruct (div_upper a b 21 va vb (21 * unitVal) Ha Hb ltac:(lia) valOf_21 ltac:(lia))
      as (vh & Hh & Bh).
    + unfold unitVal. nia.
    + apply (leb_valOf _ _ vh (21 * unitVal) Hh valOf_21). lia.
Qed.

(** A positive finite number divided by itself is 1. *)
Lemma div_self (a : float) (va : Z) :
  valOf a = Some va -> 0 < va -> (a / a)%float = 1%float.
Proof.
  intros Ha Pa. pose proof unitVal_pos as U.
  assert (P : 0 < 2 ^ bias) by exact U.
  apply (leb_antisym_pos 1 (a / a) 4503599627370496 (-52)); [reflexivity| |].
  - apply (div_lower a a 1 va va unitVal Ha Ha Pa valOf_1 U). unfold unitVal. nia.
  - destruct (div_upper a a 1 va va unitVal Ha Ha Pa valOf_1 U) as (vh & Hh & Bh).
    + unfold unitVal. nia.
    + apply (leb_valOf _ _ vh unitVal Hh valOf_1). lia.
Qed.

(** ** Sums of two numbers that are not negative *)

(** Rounding a binary64 number gives the number back. *)
Lemma binary_round_canonical (m : positive) (e : Z) :
  bounded prec emax m e = true ->
  binary_round prec emax false m e = S754_finite false m e.
Proof.
  intros B. destruct (bounded_canonical _ _ B) as (C & U & L & D & N).
  unfold binary_round. change (fexp prec emax) with fexp64. rewrite <- C.
  unfold shl_align. rewrite Z.sub_diag.
  destruct (round_aux_nearest m e ltac:(lia)) as (m2 & Near & HF & T & ->).
  rewrite <- C in *. rewrite Z.sub_diag in Near. change (2 ^ 0) with 1 in Near.
  rewrite Z.div_1_r, Z.mod_1_r in Near.
  assert (Hm2 : m2 = Zpos m) by (destruct Near as [(-> & _)|(_ & ? & _)]; lia).
  subst m2. unfold roundedSF.
  assert (Hlt : Zpos m < 2 ^ 53).
  { destruct (digits2_pos_bounds m) as [_ Hhi].
    eapply Z.lt_le_trans; [exact Hhi|]. apply Z.pow_le_mono_r; lia. }
  destruct (Z.eqb_spec (Zpos m) 0); [lia|].
  destruct (Z.eqb_spec (Zpos m) (2 ^ 53)); [lia|].
  destruct (Z.leb_spec e 971); [reflexivity|lia].
Qed.

(** The sum of two non-negative finite numbers is a zero when both are,
    and otherwise the rounding of the exact sum. *)
Lemma add_repr (x y : float) (vx vy : Z) :
  valOf x = Some vx -> valOf y = Some vy ->
  (vx + vy = 0 /\ exists s, Prim2SF (x + y) = S754_zero s)
  \/ (exists m e, - bias <= e /\ Fval m e = vx + vy
                  /\ Prim2SF (x + y) = binary_round prec emax false m e).
Proof.
  unfold valOf. intros Hx Hy. rewrite add_spec.
  pose proof (Prim2SF_valid x) as Vx. pose proof (Prim2SF_valid y) as Vy.
  destruct (Prim2SF x) as [sx|sx| |[] mx ex]; simpl in Hx; inversion Hx; subst; clear Hx;
    destruct (Prim2SF y) as [sy|sy| |[] my ey]; simpl in Hy; inversion Hy; subst; clear Hy;
    cbn [valid_binary] in *.
  - left. split; [reflexivity|]. destruct sx, sy; eexists; reflexivity.
  - right. exists my, ey. split; [apply (valid_bias _ _ Vy)|]. split; [lia|].
    rewrite (binary_round_canonical _ _ Vy). reflexivity.
  - right. exists mx, ex. split; [apply (valid_bias _ _ Vx)|]. split; [lia|].
    rewrite (binary_round_canonical _ _ Vx). reflexivity.
  - right. pose proof (valid_bias _ _ Vx). pose proof (valid_bias _ _ Vy).
    destruct (SFadd_pos mx my ex ey) as (s & Es & Ev); try assumption.
    exists s, (Z.min ex ey). split; [lia|]. split; [exact Ev|exact Es].
Qed.

(** Sums keep the order of both terms. *)
Lemma add_mono2 (x y x' y' : float) (vx vy vx' vy' : Z) :
  valOf x = Some vx -> valOf y = Some vy ->
  valOf x' = Some vx' -> valOf y' = Some vy' ->
  vx <= vx' -> vy <= vy' ->
  PrimFloat.leb (x + y) (x' + y') = true.
Proof.
  intros Hx Hy Hx' Hy' Lx Ly. rewrite leb_spec.
  pose proof (nnval_nonneg _ _ (Prim2SF_valid x) Hx) as Px.
  pose proof (nnval_nonneg _ _ (Prim2SF_valid y) Hy) as Py.
  destruct (add_repr x y vx vy Hx Hy) as [[Z0 [s ->]]|(m & e & Be & Ev & ->)];
    destruct (add_repr x' y' vx' vy' Hx' Hy') as [[Z0' [s' ->]]|(m' & e' & Be' & Ev' & ->)].
  - destruct s, s'; reflexivity.
  - destruct (binary_round_shape m' e') as [R|[(m2 & e2 & R)|R]]; rewrite R;
      destruct s; reflexivity.
  - pose proof (Fval_pos m e Be). lia.
  - apply binary_round_mono; try assumption. lia.
Qed.

(** The sum of two non-negative finite numbers below a bound that is a
    sum itself. *)
Lemma add_below (x y x' y' b : float) (vx vy vx' vy' vb : Z) :
  valOf x = Some vx -> valOf y = Some vy ->
  valOf x' = Some vx' -> valOf y' = Some vy' ->
  vx <= vx' -> vy <= vy' ->
  (x' + y')%float = b -> valOf b = Some vb ->
  exists v, valOf (x + y) = Some v /\ 0 <= v <= vb.
Proof.
  intros Hx Hy Hx' Hy' Lx Ly Eb Hb.
  pose proof (add_mono2 x y x' y' _ _ _ _ Hx Hy Hx' Hy' Lx Ly) as Hup. rewrite Eb in Hup.
  pose proof (nnval_nonneg _ _ (Prim2SF_valid x) Hx) as Px.
  pose proof (nnval_nonneg _ _ (Prim2SF_valid y) Hy) as Py.
  assert (H0 : valOf 0%float = Some 0) by reflexivity.
  assert (Hlo : PrimFloat.leb 0 (x + y) = true).
  { replace 0%float with (0 + 0)%float by reflexivity.
    apply (add_mono2 0 0 x y 0 0 vx vy H0 H0 Hx Hy); lia. }
  exact (valOf_between 0%float (x + y) b 0 vb H0 Hb Hlo Hup).
Qed.

(** A product of a positive constant and a number inside [[0, 1]] has a
    value of at most the constant's. *)
Lemma mul_unit_le (w r : float) (vw : Z) :
  valOf w = Some vw -> 0 < vw ->
  PrimFloat.leb 0 r = true -> PrimFloat.leb r 1 = true ->
  exists v, valOf (w * r) = Some v /\ 0 <= v <= vw.
Proof.
  intros Hw Pw H0 H1.
  destruct (inRange_valOf 1 r _ valOf_1 H0 H1) as (vr & Hr & Br).
  destruct (Z.eq_dec vr 0) as [Hz|Hnz].
  - subst vr. pose proof (valOf_zero _ Hr) as Zr.
    destruct (valOf_finite _ _ Hw) as [Fw _].
    pose proof (finite_mul_zero w r Fw Zr) as Zp.
    exists 0. split; [|lia]. unfold valOf.
    apply isZero_spec in Zp. destruct Zp as [s ->]. reflexivity.
  - apply (mul_upper w r w vw vr vw Hw Hr ltac:(lia) Hw Pw).
    pose proof unitVal_pos. unfold unitVal in *. nia.
Qed.

End MoreRounding.

(** * Further properties of the conversions *)

Lemma finite_not_nan_inf (v : float) :
  is_finite v = true -> is_nan v = false /\ is_infinity v = false.
Proof.
  unfold is_finite. destruct (is_nan v), (is_infinity v); simpl; intros H;
    try discriminate; split; reflexivity.
Qed.

Lemma inRange_finite (lo hi v : float) :
  is_finite lo = true -> is_finite hi = true -> inRange lo hi v -> is_finite v = true.
Proof. intros Hlo Hhi [H1 H2]. exact (between_finite lo v hi Hlo Hhi H1 H2). Qed.

Lemma clampChannel_id (v : float) : inRange 0 1 v -> HSLuv.clampChannel v = v.
Proof.
  intros Hv. pose proof (inRange_finite 0 1 v eq_refl eq_refl Hv) as Hf.
  destruct (finite_not_nan_inf v Hf) as [Hn Hi]. destruct Hv as [H0 H1].
  unfold HSLuv.clampChannel, Math.isnan, Math.isinf. rewrite Hn, Hi. simpl.
  apply range_id; assumption.
Qed.

Lemma zeroNonFinite_id (v : float) : is_finite v = true -> HSLuv.zeroNonFinite v = v.
Proof. intros H. rewrite zeroNonFinite_sanitize. apply sanitize_finite, H. Qed.

Lemma sanitize_is_finite (v : float) : is_finite (HSLuv.sanitize v) = true.
Proof. unfold is_finite. rewrite sanitize_not_nan, sanitize_not_inf. reflexivity. Qed.

(** ** The two clamping loops *)

(** X1: the clamping loop of [toColour] never changes a channel: what
    [toVec4] returns is already inside [[0, 1]], so [toColour] hands the
    array of [toVec4] itself to [Colours.fromVec4], for every input and
    every host. *)
Theorem toColour_loop_changes_nothing (M : Math.api) (Col : Colours.api) (HSL : vec3) :
  HSLuv.toColourVec4 M HSL = HSLuv.toVec4 M HSL
  /\ HSLuv.toColour M Col HSL = Colours.fromVec4 Col (HSLuv.toVec4 M HSL).
Proof.
  assert (E : HSLuv.toColourVec4 M HSL = HSLuv.toVec4 M HSL).
  { unfold HSLuv.toColourVec4, HSLuv.toVec4.
    pose proof (hsluvToRgb_channels M HSL) as H.
    destruct (HSLuv.hsluvToRgb M HSL) as [[r g] b]. destruct H as (Hr & Hg & Hb).
    rewrite !clampChannel_id by assumption. reflexivity. }
  split; [exact E|]. unfold HSLuv.toColour. rewrite E. reflexivity.
Qed.

(** The shape of what [lchToHsluv] returns. *)
Lemma lchToHsluv_shape (M : Math.api) (L C H : float) :
  exists s, HSLuv.lchToHsluv M (L, C, H) = (H, s, L) /\ inRange 0 100 s.
Proof.
  unfold HSLuv.lchToHsluv.
  destruct ((L <? HSLuv.EPS) || (L >? 99.99999)).
  { exists 0. split; [reflexivity|split; reflexivity]. }
  destruct (HSLuv.maxChromaForLH M L H <=? HSLuv.EPS).
  { exists 0. split; [reflexivity|split; reflexivity]. }
  eexists. split; [reflexivity|].
  apply range_bounds; [apply sanitize_not_nan|reflexivity].
Qed.

Lemma luvToLch_shape (M : Math.api) (L u v : float) :
  exists c h, HSLuv.luvToLch M (L, u, v) = (HSLuv.sanitize L, c, h)
              /\ (0 <=? c) = true /\ is_finite c = true /\ is_finite h = true.
Proof.
  unfold HSLuv.luvToLch. eexists. eexists. split; [reflexivity|].
  split; [|split].
  - apply sanitize_sign, sqrt_sign.
  - apply sanitize_is_finite.
  - apply sanitize_is_finite.
Qed.

Lemma rgbToHsluv_shape (M : Math.api) (RGB : vec3) :
  exists h s l, HSLuv.rgbToHsluv M RGB = (h, s, l)
                /\ is_finite h = true /\ inRange 0 100 s /\ is_finite l = true.
Proof.
  unfold HSLuv.rgbToHsluv.
  destruct (HSLuv.xyzToLuv M (HSLuv.rgbToXyz M RGB)) as [[L u] v].
  destruct (luvToLch_shape M L u v) as (c & h & -> & _ & _ & Hh).
  destruct (lchToHsluv_shape M (HSLuv.sanitize L) c h) as (s & -> & Hs).
  exists h, s, (HSLuv.sanitize L). split; [reflexivity|].
  split; [exact Hh|]. split; [exact Hs|apply sanitize_is_finite].
Qed.

(** X2: in [fromColour] the loop that zeroes NaN and infinite outputs and
    the clamp of S never change anything: [rgbToHsluv] already returns three
    finite numbers with S inside [[0, 100]].  Only the clamps of H to
    [[0, 360]] and of L to [[0, 100]] can act. *)
Theorem fromColour_only_clamps_hue_and_lightness
    (M : Math.api) (Col : Colours.api) (colour : Colours.colour Col) :
  let '(h, s, l) := HSLuv.fromVec4 M (Colours.toVec4 Col colour) in
  is_finite h = true /\ is_finite s = true /\ is_finite l = true
  /\ inRange 0 100 s
  /\ HSLuv.fromColour M Col colour
     = (Math.range h 0 360, s, Math.range l 0 100).
Proof.
  unfold HSLuv.fromColour, HSLuv.fromColourVec4.
  destruct (Colours.toVec4 Col colour) as [[[v0 v1] v2] v3].
  unfold HSLuv.fromVec4.
  destruct (rgbToHsluv_shape M (HSLuv.sanitize v0, HSLuv.sanitize v1, HSLuv.sanitize v2))
    as (h & s & l & -> & Hh & Hs & Hl).
  pose proof (inRange_finite 0 100 s eq_refl eq_refl Hs) as Hsf.
  split; [exact Hh|]. split; [exact Hsf|]. split; [exact Hl|]. split; [exact Hs|].
  rewrite !zeroNonFinite_id by assumption.
  destruct Hs as [Hs0 Hs1]. rewrite (range_id s 0 100 Hs0 Hs1). reflexivity.
Qed.

(** ** The variants with an alpha channel *)

(** X3: [toColourWithAlpha] hands the host the red, green and blue that
    [toColour] hands it for the same H, S and L, followed by the given alpha
    limited to [[0, 1]] (0.0 for a NaN or an infinite alpha); with alpha 1
    it is [toColour]. *)
Theorem toColourWithAlpha_channels (M : Math.api) (Col : Colours.api) (h s l a : float) :
  (let '(r, g, b, _) := HSLuv.toColourVec4 M (h, s, l) in
   HSLuv.toColourWithAlphaVec4 M (h, s, l, a) = (r, g, b, HSLuv.clampChannel a))
  /\ inRange 0 1 (HSLuv.clampChannel a)
  /\ (is_finite a = false -> HSLuv.clampChannel a = 0)
  /\ (inRange 0 1 a -> HSLuv.clampChannel a = a)
  /\ HSLuv.toColourWithAlpha M Col (h, s, l, 1) = HSLuv.toColour M Col (h, s, l).
Proof.
  split.
  { unfold HSLuv.toColourWithAlphaVec4, HSLuv.toColourVec4.
    destruct (HSLuv.toVec4 M (h, s, l)) as [[[v0 v1] v2] v3]. reflexivity. }
  split; [apply clampChannel_bounds|].
  split.
  { unfold is_finite, HSLuv.clampChannel, Math.isnan, Math.isinf.
    destruct (is_nan a || is_infinity a); [reflexivity|discriminate]. }
  split; [apply clampChannel_id|].
  unfold HSLuv.toColourWithAlpha, HSLuv.toColour. f_equal.
  unfold HSLuv.toColourWithAlphaVec4, HSLuv.toColourVec4, HSLuv.toVec4.
  destruct (HSLuv.hsluvToRgb M (h, s, l)) as [[r g] b]. reflexivity.
Qed.

(** X4: [fromColourWithAlpha] returns the three numbers of [fromColour],
    H inside [[0, 360]] and S and L inside [[0, 100]], followed by the alpha
    of [Colours.toVec4] exactly as the host gave it: alpha is neither
    sanitised nor clamped. *)
Theorem fromColourWithAlpha_appends_alpha
    (M : Math.api) (Col : Colours.api) (colour : Colours.colour Col) :
  let '(h, s, l) := HSLuv.fromColour M Col colour in
  let '(_, _, _, alpha) := Colours.toVec4 Col colour in
  HSLuv.fromColourWithAlpha M Col colour = (h, s, l, alpha)
  /\ inRange 0 360 h /\ inRange 0 100 s /\ inRange 0 100 l.
Proof.
  pose proof (fromColourVec4_ranges M (Colours.toVec4 Col colour)) as R.
  unfold HSLuv.fromColourWithAlpha, HSLuv.fromColour,
    HSLuv.fromColourWithAlphaVec4, HSLuv.fromColourVec4 in *.
  destruct (Colours.toVec4 Col colour) as [[[v0 v1] v2] alpha].
  destruct (HSLuv.fromVec4 M (v0, v1, v2, alpha)) as [[h0 h1] h2].
  split; [reflexivity|exact R].
Qed.

(** ** Shapes of the intermediate results *)

(** X5: [lchToHsluv] returns its H and its L exactly as given, whatever
    they are, and a saturation inside [[0, 100]], for every input and every
    host. *)
Theorem lchToHsluv_keeps_hue_and_lightness (M : Math.api) (L C H : float) :
  let '(h, s, l) := HSLuv.lchToHsluv M (L, C, H) in
  h = H /\ l = L /\ inRange 0 100 s.
Proof.
  destruct (lchToHsluv_shape M L C H) as (s & -> & Hs). auto.
Qed.

(** X6: [luvToLch] returns the sanitised L, a chroma that is finite and not
    negative, and a finite hue, for every input and every host. *)
Theorem luvToLch_chroma_finite_nonneg (M : Math.api) (L u v : float) :
  let '(l, c, h) := HSLuv.luvToLch M (L, u, v) in
  l = HSLuv.sanitize L /\ (0 <=? c) = true /\ is_finite c = true /\ is_finite h = true.
Proof.
  destruct (luvToLch_shape M L u v) as (c & h & -> & Hc). auto.
Qed.

(** ** The boundary lines *)

Lemma pushLine_safe_finite (M : Math.api) (mc0 mc1 mc2 L t : float) (line : float * float) :
  HSLuv.pushLine_safe M mc0 mc1 mc2 L t = Some line ->
  is_finite (fst line) = true /\ is_finite (snd line) = true.
Proof.
  unfold HSLuv.pushLine_safe.
  destruct (Math.abs _ <? HSLuv.EPS); [discriminate|].
  destruct (Math.abs _ <? HSLuv.EPS); [discriminate|].
  destruct (_ || _); [discriminate|].
  intros H. inversion H; subst; clear H. cbn [fst snd].
  split; apply sanitize_is_finite.
Qed.

Lemma getBounds_step (M : Math.api) (L : float) (P : float * float -> Prop)
    (rows : list vec3) (acc : list (float * float)) :
  (forall mc0 mc1 mc2 t line,
      HSLuv.pushLine_safe M mc0 mc1 mc2 L t = Some line -> P line) ->
  Forall P acc ->
  let r := fold_left
    (fun result row =>
       let '(mc0, mc1, mc2) := row in
       let line0 := HSLuv.pushLine_safe M mc0 mc1 mc2 L 0 in
       let result := match line0 with Some l => result ++ [l] | None => result end in
       let line1 := HSLuv.pushLine_safe M mc0 mc1 mc2 L 1 in
       match line1 with Some l => result ++ [l] | None => result end)
    rows acc in
  Forall P r /\ (List.length r <= List.length acc + 2 * List.length rows)%nat.
Proof.
  intros HP. revert acc. induction rows as [|[[mc0 mc1] mc2] rows IH]; intros acc Hacc; cbn [fold_left].
  - split; [exact Hacc|lia].
  - destruct (HSLuv.pushLine_safe M mc0 mc1 mc2 L 0) as [l0|] eqn:E0;
      destruct (HSLuv.pushLine_safe M mc0 mc1 mc2 L 1) as [l1|] eqn:E1.
    + destruct (IH ((acc ++ [l0]) ++ [l1])) as [A B].
      { repeat (apply Forall_app; split); try assumption;
          repeat constructor; eapply HP; eassumption. }
      split; [exact A|]. rewrite !List.length_app in B. cbn [List.length] in *. lia.
    + destruct (IH (acc ++ [l0])) as [A B].
      { apply Forall_app; split; try assumption. repeat constructor. eapply HP; eassumption. }
      split; [exact A|]. rewrite !List.length_app in B. cbn [List.length] in *. lia.
    + destruct (IH (acc ++ [l1])) as [A B].
      { apply Forall_app; split; try assumption. repeat constructor. eapply HP; eassumption. }
      split; [exact A|]. rewrite !List.length_app in B. cbn [List.length] in *. lia.
    + destruct (IH acc Hacc) as [A B]. split; [exact A|cbn [List.length] in *; lia].
Qed.

(** X8: [getBounds] returns at most six lines, and the slope and the
    intercept of every line it returns are finite numbers, for every L
    (NaN and the infinities included) and every host: a line that
    [pushLine_safe] could not compute is left out, never stored as NaN. *)
Theorem getBounds_lines_are_finite (M : Math.api) (L : float) :
  (List.length (HSLuv.getBounds M L) <= 6)%nat
  /\ Forall (fun line => is_finite (fst line) = true /\ is_finite (snd line) = true)
            (HSLuv.getBounds M L).
Proof.
  unfold HSLuv.getBounds.
  match goal with
  | |- context [fold_left ?f ?rows ?acc] =>
      destruct (getBounds_step M L
                  (fun line => is_finite (fst line) = true /\ is_finite (snd line) = true)
                  rows acc) as [A B]
  end.
  - intros mc0 mc1 mc2 t line. apply pushLine_safe_finite.
  - constructor.
  - split; [exact B|exact A].
Qed.

(** No line at lightness 0, on a host whose [pow] does not put
    (16/116)^3 above [E]. *)
Lemma pushLine_safe_black (M : Math.api) (mc0 mc1 mc2 L t : float) :
  HSLuv.sanitize L = 0 ->
  (Math.pow M (16 / 116) 3 >? HSLuv.E) = false ->
  HSLuv.pushLine_safe M mc0 mc1 mc2 L t = None.
Proof.
  intros HL Hpow. unfold HSLuv.pushLine_safe. rewrite HL.
  change ((0 + 16.0) / 116.0) with (16 / 116). rewrite Hpow.
  reflexivity.
Qed.

(** X9: at lightness 0 (and for a NaN or infinite L, which is sanitised to
    0) the chroma solver has no boundary line at all: on every host whose
    [pow] does not return more than [E] for (16/116)^3, [getBounds] is
    empty and [maxChromaForLH] returns the sentinel 1e10 for every hue. *)
Theorem no_boundary_line_at_black (M : Math.api) (L : float)
    (HL : L = 0 \/ is_finite L = false)
    (Hpow : (Math.pow M (16 / 116) 3 >? HSLuv.E) = false) :
  HSLuv.getBounds M L = []
  /\ forall H : float, HSLuv.maxChromaForLH M L H = 1e10.
Proof.
  assert (HS : HSLuv.sanitize L = 0).
  { destruct HL as [->|HL]; [reflexivity|].
    unfold is_finite in HL. unfold HSLuv.sanitize, Math.isnan, Math.isinf.
    destruct (is_nan L); [reflexivity|]. destruct (is_infinity L); [reflexivity|discriminate]. }
  assert (HB : HSLuv.getBounds M L = []).
  { unfold HSLuv.getBounds. simpl.
    rewrite !(pushLine_safe_black M _ _ _ L _ HS Hpow). reflexivity. }
  split; [exact HB|].
  intros H. unfold HSLuv.maxChromaForLH. rewrite HB. reflexivity.
Qed.

Lemma no_boundary_line_at_black_witness :
  HSLuv.getBounds tableHost infinity = []
  /\ forall H : float, HSLuv.maxChromaForLH tableHost infinity H = 1e10.
Proof.
  apply (no_boundary_line_at_black tableHost infinity); [right|]; reflexivity.
Defined.

(** ** The angle helper *)

(** X10: when the x argument of [myAtan2] is a zero, a NaN or an infinity
    (the last two are sanitised to 0), the host's [atan] is not consulted:
    the result is PI/2 = 1.5707963267948966 for a finite y above 0,
    -PI/2 for a finite y below 0, and 0.0 otherwise (y a zero, a NaN or an
    infinity).  So myAtan2(1, Infinity) is PI/2 and myAtan2(Infinity, 0) is
    0. *)
Theorem myAtan2_on_the_axis (M : Math.api) (y x : float)
    (Hx : x = 0 \/ x = -0 \/ is_finite x = false) :
  HSLuv.myAtan2 M y x
    = (if is_finite y then
         if y >? 0 then 1.5707963267948966
         else if y <? 0 then -1.5707963267948966
         else 0
       else 0)
  /\ HSLuv.PI / 2 = 1.5707963267948966.
Proof.
  split; [|reflexivity].
  assert (HS : HSLuv.sanitize x = 0 \/ HSLuv.sanitize x = -0).
  { destruct Hx as [->|[->|Hx]]; [left; reflexivity|right; reflexivity|left].
    unfold is_finite in Hx. unfold HSLuv.sanitize, Math.isnan, Math.isinf.
    destruct (is_nan x); [reflexivity|]. destruct (is_infinity x); [reflexivity|discriminate]. }
  unfold HSLuv.myAtan2.
  assert (E : forall z, z = 0 \/ z = -0 ->
            (z >? 0.0) = false /\ (z <? 0.0) = false /\ (z =? 0.0) = true).
  { intros z [->| ->]; repeat split; reflexivity. }
  destruct (E _ HS) as (E1 & E2 & E3). rewrite E1, E2, E3. cbn [andb].
  destruct (is_finite y) eqn:Hy.
  - rewrite (sanitize_finite y Hy).
    destruct (y >? 0.0); [reflexivity|]. destruct (y <? 0.0); reflexivity.
  - assert (HY : HSLuv.sanitize y = 0).
    { unfold is_finite in Hy. unfold HSLuv.sanitize, Math.isnan, Math.isinf.
      destruct (is_nan y); [reflexivity|]. destruct (is_infinity y); [reflexivity|discriminate]. }
    rewrite HY. reflexivity.
Qed.

Lemma myAtan2_on_the_axis_witness :
  is_finite infinity = false
  /\ HSLuv.myAtan2 tableHost 1 infinity = 1.5707963267948966.
Proof.
  split; [reflexivity|].
  exact (proj1 (myAtan2_on_the_axis tableHost 1 infinity (or_intror (or_intror eq_refl)))).
Defined.

(** ** Black *)

Lemma not_finite_sanitize (v : float) : is_finite v = false -> HSLuv.sanitize v = 0.
Proof.
  unfold is_finite, HSLuv.sanitize, Math.isnan, Math.isinf.
  destruct (is_nan v); [reflexivity|]. destruct (is_infinity v); [reflexivity|discriminate].
Qed.

Lemma hsluvToRgb_black (M : Math.api) (H S L : float) :
  L = 0 \/ L = -0 \/ is_finite L = false ->
  HSLuv.hsluvToRgb M (H, S, L) = (0, 0, 0).
Proof.
  intros HL.
  assert (HS : HSLuv.sanitize L = 0 \/ HSLuv.sanitize L = -0).
  { destruct HL as [->|[->|HL]]; [left; reflexivity|right; reflexivity|left].
    apply not_finite_sanitize, HL. }
  unfold HSLuv.hsluvToRgb, HSLuv.hsluvToLch.
  destruct HS as [-> | ->]; vm_compute; reflexivity.
Qed.

(** X11: lightness 0 is black for every hue and every saturation, on every
    host: when L is 0, -0, NaN or an infinity (the last two are sanitised to
    0), [hsluvToRgb] returns exactly [[0, 0, 0]] and [toColour] hands
    [[0, 0, 0, 1]] to [Colours.fromVec4]. *)
Theorem lightness_zero_is_black (M : Math.api) (Col : Colours.api) (H S L : float)
    (HL : L = 0 \/ L = -0 \/ is_finite L = false) :
  HSLuv.hsluvToRgb M (H, S, L) = (0, 0, 0)
  /\ HSLuv.toVec4 M (H, S, L) = (0, 0, 0, 1)
  /\ HSLuv.toColour M Col (H, S, L) = Colours.fromVec4 Col (0, 0, 0, 1).
Proof.
  pose proof (hsluvToRgb_black M H S L HL) as E.
  split; [exact E|].
  assert (E4 : HSLuv.toVec4 M (H, S, L) = (0, 0, 0, 1)).
  { unfold HSLuv.toVec4. rewrite E. reflexivity. }
  split; [exact E4|].
  unfold HSLuv.toColour, HSLuv.toColourVec4. rewrite E4. reflexivity.
Qed.

Lemma lightness_zero_is_black_witness :
  is_finite nan = false
  /\ HSLuv.hsluvToRgb tableHost (270, 100, nan) = (0, 0, 0).
Proof.
  split; [reflexivity|].
  exact (proj1 (lightness_zero_is_black tableHost
                  arrayColours
                  270 100 nan (or_intror (or_intror eq_refl)))).
Defined.

(** X12: a black background gets white text: for every hue and saturation,
    when L is 0, -0, NaN or an infinity, the relative luminance is exactly 0,
    [chooseHighContrastBW] answers pure white [[0, 0, 100]], and
    [getTextCol] is [toColour] of pure white, on every host. *)
Theorem black_background_gets_white_text (M : Math.api) (Col : Colours.api) (H S L : float)
    (HL : L = 0 \/ L = -0 \/ is_finite L = false) :
  getLuminance M (H, S, L) = 0
  /\ chooseHighContrastBW M (H, S, L) = pureWhite
  /\ getTextCol M Col (H, S, L) = HSLuv.toColour M Col pureWhite.
Proof.
  assert (E : getLuminance M (H, S, L) = 0).
  { unfold getLuminance, HSLuv.toVec4. rewrite (hsluvToRgb_black M H S L HL).
    vm_compute. reflexivity. }
  assert (E2 : chooseHighContrastBW M (H, S, L) = pureWhite).
  { unfold chooseHighContrastBW. rewrite E. reflexivity. }
  split; [exact E|]. split; [exact E2|].
  unfold getTextCol. rewrite E2. reflexivity.
Qed.

Lemma black_background_gets_white_text_witness :
  chooseHighContrastBW tableHost (120, 80, 0) = pureWhite.
Proof.
  exact (proj1 (proj2 (black_background_gets_white_text tableHost
                         arrayColours
                         120 80 0 (or_introl eq_refl)))).
Defined.

(** ** Channels at or below zero *)

(** A channel that is at most 0, NaN or infinite has linear value zero. *)
Lemma srgbInverseCompanding_nonpos (M : Math.api) (c : float) :
  (HSLuv.sanitize c <=? 0) = true ->
  isZero (HSLuv.srgbInverseCompanding M (HSLuv.sanitize c)).
Proof.
  intros Hc. unfold HSLuv.srgbInverseCompanding.
  rewrite (sanitize_finite _ (sanitize_is_finite c)).
  unfold Math.range.
  destruct (HSLuv.sanitize c <? 0.0) eqn:Hlt.
  - left. reflexivity.
  - destruct (leb_0_zero _ Hc Hlt) as [-> | ->]; [left|right]; reflexivity.
Qed.

Lemma xyzToLuv_nonpos (M : Math.api) (r g b : float) :
  (HSLuv.sanitize r <=? 0) = true -> (HSLuv.sanitize g <=? 0) = true ->
  (HSLuv.sanitize b <=? 0) = true ->
  HSLuv.xyzToLuv M (HSLuv.rgbToXyz M (r, g, b)) = (0, 0, 0).
Proof.
  intros Hr Hg Hb. unfold HSLuv.rgbToXyz.
  destruct (srgbInverseCompanding_nonpos M r Hr) as [-> | ->];
    destruct (srgbInverseCompanding_nonpos M g Hg) as [-> | ->];
    destruct (srgbInverseCompanding_nonpos M b Hb) as [-> | ->];
    vm_compute; reflexivity.
Qed.

(** X13: a colour whose three channels are each at most 0, NaN or infinite
    is converted as black: [rgbToHsluv] returns saturation exactly 0 and
    lightness exactly 0 (the hue is what the host's [toDegrees] makes of
    0), and converting that result forward gives exactly [[0, 0, 0]]: at
    black the round trip is exact, on every host. *)
Theorem channels_at_most_zero_are_black (M : Math.api) (r g b : float)
    (Hr : (HSLuv.sanitize r <=? 0) = true)
    (Hg : (HSLuv.sanitize g <=? 0) = true)
    (Hb : (HSLuv.sanitize b <=? 0) = true) :
  let d := Math.toDegrees M 0 in
  HSLuv.rgbToHsluv M (r, g, b)
    = (HSLuv.sanitize (if d <? 0 then d + 360 else d), 0, 0)
  /\ HSLuv.hsluvToRgb M (HSLuv.rgbToHsluv M (r, g, b)) = (0, 0, 0).
Proof.
  intros d.
  assert (E : HSLuv.rgbToHsluv M (r, g, b)
              = (HSLuv.sanitize (if d <? 0 then d + 360 else d), 0, 0)).
  { unfold HSLuv.rgbToHsluv. rewrite (xyzToLuv_nonpos M r g b Hr Hg Hb).
    reflexivity. }
  split; [exact E|]. rewrite E. apply hsluvToRgb_black. left. reflexivity.
Qed.

Lemma channels_at_most_zero_are_black_witness :
  HSLuv.hsluvToRgb tableHost (HSLuv.rgbToHsluv tableHost (-0.25, infinity, nan)) = (0, 0, 0).
Proof.
  exact (proj2 (channels_at_most_zero_are_black tableHost (-0.25) infinity nan
                  eq_refl eq_refl eq_refl)).
Defined.

(** ** Colours without chroma *)

Lemma maxChromaForLH_finite (M : Math.api) (L H : float) :
  is_finite (HSLuv.maxChromaForLH M L H) = true.
Proof.
  destruct (minLength_loop M (Math.toRadians M H) (HSLuv.getBounds M L) 1e10 eq_refl eq_refl)
    as (A & B & _).
  exact (between_finite 0 _ 1e10 eq_refl eq_refl A B).
Qed.

Lemma hsluvToLch_zero_chroma (M : Math.api) (H S L : float) :
  (HSLuv.sanitize S <=? 0) = true \/ atExtreme L = true ->
  exists c, HSLuv.hsluvToLch M (H, S, L) = (HSLuv.sanitize L, c, HSLuv.sanitize H)
            /\ isZero c.
Proof.
  intros [HS|HL].
  2:{ exists 0. split; [apply hsluvToLch_extreme, HL|left; reflexivity]. }
  unfold HSLuv.hsluvToLch.
  destruct ((HSLuv.sanitize L <? HSLuv.EPS) || (HSLuv.sanitize L >? 99.99999)).
  { exists 0. split; [reflexivity|left; reflexivity]. }
  destruct (HSLuv.maxChromaForLH M (HSLuv.sanitize L) (HSLuv.sanitize H) <=? HSLuv.EPS).
  { exists 0. split; [reflexivity|left; reflexivity]. }
  eexists. split; [reflexivity|].
  assert (Hsat : isZero (Math.range (HSLuv.sanitize S) 0.0 100.0)).
  { unfold Math.range. destruct (HSLuv.sanitize S <? 0.0) eqn:Hlt; [left; reflexivity|].
    destruct (leb_0_zero _ HS Hlt) as [-> | ->]; [left|right]; reflexivity. }
  assert (Hq : isZero (Math.range (HSLuv.sanitize S) 0.0 100.0 / 100.0))
    by (apply zero_div_positive; [exact Hsat|reflexivity]).
  assert (Hc : isZero (HSLuv.maxChromaForLH M (HSLuv.sanitize L) (HSLuv.sanitize H)
                       * (Math.range (HSLuv.sanitize S) 0.0 100.0 / 100.0)))
    by (apply finite_mul_zero; [apply maxChromaForLH_finite|exact Hq]).
  rewrite (isZero_sanitize _ Hc). exact Hc.
Qed.

Lemma lchToLuv_zero_chroma (M : Math.api) (L c H : float) :
  isZero c ->
  exists u v, HSLuv.lchToLuv M (L, c, H) = (HSLuv.sanitize L, u, v)
              /\ isZero u /\ isZero v.
Proof.
  intros Hc. unfold HSLuv.lchToLuv. rewrite (isZero_sanitize c Hc).
  eexists. eexists. split; [reflexivity|].
  split; apply zero_mul_sanitize; exact Hc.
Qed.

Lemma sanitize_idem (v : float) : HSLuv.sanitize (HSLuv.sanitize v) = HSLuv.sanitize v.
Proof. apply sanitize_finite, sanitize_is_finite. Qed.

Lemma luvToXyz_zero_uv (M : Math.api) (L u v : float) :
  isZero u -> isZero v ->
  HSLuv.luvToXyz M (L, u, v) = HSLuv.luvToXyz M (L, 0, 0).
Proof.
  intros Hu Hv. unfold HSLuv.luvToXyz.
  rewrite (isZero_sanitize u Hu), (isZero_sanitize v Hv).
  change (HSLuv.sanitize 0) with 0.
  set (l := HSLuv.sanitize L).
  destruct (l <? HSLuv.EPS) eqn:Hl; [reflexivity|].
  assert (Hd : (0 <? 13.0 * l) = true).
  { assert (Hge : (HSLuv.EPS <=? l) = true).
    { apply not_ltb_leb; [apply sanitize_not_nan|reflexivity|exact Hl]. }
    apply mul13_pos; [|apply sanitize_is_finite].
    apply ltb_leb_trans with HSLuv.EPS; [reflexivity|exact Hge]. }
  assert (E : forall z, isZero z ->
            z / (13.0 * l) + 4.0 * HSLuv.REF_X / (HSLuv.REF_X + 15.0 * HSLuv.REF_Y + 3.0 * HSLuv.REF_Z)
            = 4.0 * HSLuv.REF_X / (HSLuv.REF_X + 15.0 * HSLuv.REF_Y + 3.0 * HSLuv.REF_Z)
            /\ z / (13.0 * l) + 9.0 * HSLuv.REF_Y / (HSLuv.REF_X + 15.0 * HSLuv.REF_Y + 3.0 * HSLuv.REF_Z)
               = 9.0 * HSLuv.REF_Y / (HSLuv.REF_X + 15.0 * HSLuv.REF_Y + 3.0 * HSLuv.REF_Z)).
  { intros z Hz. destruct (zero_div_positive z (13.0 * l) Hz Hd) as [-> | ->];
      split; reflexivity. }
  destruct (E u Hu) as [Eu _]. destruct (E v Hv) as [_ Ev].
  destruct (E 0 (or_introl eq_refl)) as [E0u E0v].
  rewrite Eu, Ev, E0u, E0v. reflexivity.
Qed.

(** X14: a colour without saturation does not depend on its hue.  When S
    is at most 0, NaN or infinite, or when L is at a lightness extreme
    (below 1e-10 or above 99.99999), [hsluvToRgb] returns what it returns
    for chroma 0 at that L, so every hue, and every other such S, gives
    exactly the same three channels, on every host. *)
Theorem zero_saturation_ignores_hue (M : Math.api) (H S L : float)
    (HS : (HSLuv.sanitize S <=? 0) = true \/ atExtreme L = true) :
  HSLuv.hsluvToRgb M (H, S, L) = HSLuv.xyzToRgb M (HSLuv.luvToXyz M (L, 0, 0))
  /\ forall H' S' : float,
       (HSLuv.sanitize S' <=? 0) = true \/ atExtreme L = true ->
       HSLuv.hsluvToRgb M (H', S', L) = HSLuv.hsluvToRgb M (H, S, L).
Proof.
  assert (E : forall h s, (HSLuv.sanitize s <=? 0) = true \/ atExtreme L = true ->
            HSLuv.hsluvToRgb M (h, s, L) = HSLuv.xyzToRgb M (HSLuv.luvToXyz M (L, 0, 0))).
  { intros h s Hs. unfold HSLuv.hsluvToRgb.
    destruct (hsluvToLch_zero_chroma M h s L Hs) as (c & -> & Hc).
    destruct (lchToLuv_zero_chroma M (HSLuv.sanitize L) c (HSLuv.sanitize h) Hc)
      as (u & v & -> & Hu & Hv).
    rewrite (luvToXyz_zero_uv M _ u v Hu Hv). f_equal.
    unfold HSLuv.luvToXyz. rewrite !sanitize_idem. reflexivity. }
  split; [apply E, HS|].
  intros H' S' HS'. rewrite (E H' S' HS'), (E H S HS). reflexivity.
Qed.

Lemma zero_saturation_ignores_hue_witness :
  HSLuv.hsluvToRgb tableHost (10, 0, 50) = HSLuv.hsluvToRgb tableHost (200, -3, 50).
Proof.
  exact (proj2 (zero_saturation_ignores_hue tableHost 200 (-3) 50 (or_introl eq_refl))
           10 0 (or_introl eq_refl)).
Defined.

(** ** Linearisation *)

(** X15: on a channel inside [[0, 1]] the tool [toLinear] and the
    namespace's [srgbInverseCompanding] are the same function, so
    [getLuminance], whose channels come from [toVec4], linearises with
    [srgbInverseCompanding]; outside [[0, 1]] they differ, since [toLinear]
    neither sanitises nor clamps: at -1 [srgbInverseCompanding] returns 0
    and [toLinear] returns -1 / 12.92; at NaN [srgbInverseCompanding]
    returns 0 and [toLinear] returns what the host's [pow] makes of NaN. *)
Theorem toLinear_is_inverse_companding_in_range (M : Math.api) :
  (forall c : float, inRange 0 1 c -> toLinear M c = HSLuv.srgbInverseCompanding M c)
  /\ (forall hsluv : vec3,
        let '(r, g, b) := HSLuv.hsluvToRgb M hsluv in
        getLuminance M hsluv
        = 0.2126 * HSLuv.srgbInverseCompanding M r
          + 0.7152 * HSLuv.srgbInverseCompanding M g
          + 0.0722 * HSLuv.srgbInverseCompanding M b)
  /\ HSLuv.srgbInverseCompanding M (-1) = 0
  /\ toLinear M (-1) = -0.077399380804953566
  /\ HSLuv.srgbInverseCompanding M nan = 0
  /\ toLinear M nan = Math.pow M nan 2.4.
Proof.
  assert (E : forall c : float, inRange 0 1 c ->
            toLinear M c = HSLuv.srgbInverseCompanding M c).
  { intros c Hc. unfold toLinear, HSLuv.srgbInverseCompanding.
    rewrite (sanitize_finite c (inRange_finite 0 1 c eq_refl eq_refl Hc)).
    destruct Hc as [H0 H1]. change 0.0 with 0. change 1.0 with 1.
    rewrite (range_id c 0 1 H0 H1). reflexivity. }
  split; [exact E|]. split.
  { intros hsluv. pose proof (hsluvToRgb_channels M hsluv) as Hch.
    unfold getLuminance, HSLuv.toVec4.
    destruct (HSLuv.hsluvToRgb M hsluv) as [[r g] b]. destruct Hch as (Hr & Hg & Hb).
    rewrite (E r Hr), (E g Hg), (E b Hb). reflexivity. }
  repeat split; reflexivity.
Qed.

(** * The HSL transforms *)

(** X16: [invertHue] keeps a hue of [[0, 360]] inside [[0, 360]] and leaves
    S and L alone: the hue becomes H + 180, less 360 when that sum exceeds
    360.  The sum 360 itself is kept, so the hues 0 and 180 go to 180 and
    360, and inverting the hue 0 twice gives 360, not 0. *)
Theorem invertHue_stays_in_range (H S L : float) (HH : inRange 0 360 H) :
  let '(h, s, l) := invertHue (H, S, L) in
  inRange 0 360 h /\ s = S /\ l = L
  /\ h = (if H + 180 >? 360 then H + 180 - 360 else H + 180)
  /\ invertHue (180, S, L) = (360, S, L)
  /\ invertHue (invertHue (0, S, L)) = (360, S, L).
Proof.
  unfold invertHue.
  split; [|repeat split; reflexivity].
  destruct HH as [H0 H1].
  destruct (inRange_valOf 360 H _ valOf_360 H0 H1) as (v & Hv & Bv).
  pose proof unitVal_pos as U.
  destruct (add_bounds H 180 180 540 v (180 * unitVal) (180 * unitVal) (540 * unitVal)%Z
              Hv valOf_180 ltac:(lia) valOf_180 ltac:(lia) valOf_540 ltac:(lia) ltac:(lia))
    as [Hlo Hhi].
  destruct (valOf_between 180 (H + 180) 540 _ _ valOf_180 valOf_540 Hlo Hhi) as (vn & Hn & Bn).
  destruct (H + 180 >? 360) eqn:Hgt.
  - pose proof (valOf_ltb _ _ _ _ valOf_360 Hn Hgt) as Hlt.
    destruct (sub_upper (H + 180) 360 180 vn (360 * unitVal) (180 * unitVal)%Z
                Hn valOf_360 ltac:(lia) valOf_180 ltac:(lia) ltac:(lia)) as (vh & Hh & Bh).
    apply (valOf_inRange 360 _ (360 * unitVal)%Z vh valOf_360 Hh). lia.
  - split.
    + apply leb_trans with 180; [reflexivity|exact Hlo].
    + apply not_ltb_leb; [reflexivity|apply (leb_not_nan _ _ Hlo)|exact Hgt].
Qed.

Lemma invertHue_stays_in_range_witness :
  inRange 0 360 270 /\ inRange 0 360 (fst (fst (invertHue (270, 50, 50)))).
Proof.
  split; [split; reflexivity|].
  exact (proj1 (invertHue_stays_in_range 270 50 50 (conj eq_refl eq_refl))).
Defined.

(** X17: [invertLightness] computes 1.0 - L and leaves H and S alone.  It
    keeps a lightness of [[0, 1]] inside [[0, 1]]; for every L above 1, so
    for every HSLuv lightness above 1 on the scale 0 to 100 that the other
    functions use, the result is below 0: for L = 50 it is -49. *)
Theorem invertLightness_unit_scale (H S L : float) :
  (inRange 0 1 L -> inRange 0 1 (snd (invertLightness (H, S, L))))
  /\ (inRange 0 100 L -> (1 <? L) = true ->
      (snd (invertLightness (H, S, L)) <? 0) = true)
  /\ fst (invertLightness (H, S, L)) = (H, S)
  /\ invertLightness (H, S, 50) = (H, S, -49).
Proof.
  unfold invertLightness. cbn [fst snd].
  split; [|split; [|split; reflexivity]].
  - intros [H0 H1].
    destruct (inRange_valOf 1 L _ valOf_1 H0 H1) as (v & Hv & Bv).
    pose proof unitVal_pos as U.
    destruct (sub_upper 1 L 1 unitVal v unitVal valOf_1 Hv ltac:(lia) valOf_1 U ltac:(lia))
      as (vh & Hh & Bh).
    exact (valOf_inRange 1 _ unitVal vh valOf_1 Hh Bh).
  - intros [H0 H1] Hgt.
    destruct (inRange_valOf 100 L _ valOf_100 H0 H1) as (v & Hv & Bv).
    pose proof (valOf_ltb _ _ _ _ valOf_1 Hv Hgt) as Hlt.
    exact (sub_neg 1 L unitVal v valOf_1 Hv Hlt).
Qed.

(** * The palette *)



(** * The demo script *)

(** ** The colour under test *)

Lemma updateAll_in_step (M : Math.api) (Col : Colours.api) (g : Globals Col) :
  let g' := fst (updateAll M Col g) in
  currentHSLuv Col g' = currentHSLuv Col g
  /\ baseColour Col g' = HSLuv.toColour M Col (currentHSLuv Col g')
  /\ palette Col g' = Some (generateButtonPalette M Col (baseColour Col g')).
Proof. repeat split. Qed.

Lemma onKnobChange_in_step (M : Math.api) (Col : Colours.api)
    (g : Globals Col) (change : KnobChange) :
  let g' := onKnobChange M Col g change in
  baseColour Col g' = HSLuv.toColour M Col (currentHSLuv Col g')
  /\ palette Col g' = Some (generateButtonPalette M Col (baseColour Col g')).
Proof.
  destruct change; cbn [onKnobChange];
    unfold onHueControl, onSatControl, onLightControl;
    destruct (currentHSLuv Col g) as [[c0 c1] c2]; split; reflexivity.
Qed.

(** X20: the stored palette always belongs to the current colour.  After
    the script's initialisation and after every sequence of knob callbacks,
    [baseColour] is [toColour] of [currentHSLuv], the panel's palette is
    defined and is [generateButtonPalette] of that [baseColour], and each
    callback changes only its own component of [currentHSLuv]: the hue knob
    sets H to value * 360, the others S and L to value * 100. *)
Theorem palette_follows_current_colour (M : Math.api) (Col : Colours.api)
    (changes : list KnobChange) :
  let g := fold_left (onKnobChange M Col) changes (initGlobals M Col) in
  (baseColour Col g = HSLuv.toColour M Col (currentHSLuv Col g)
   /\ palette Col g = Some (generateButtonPalette M Col (baseColour Col g)))
  /\ currentHSLuv Col (initGlobals M Col) = (0, 75, 50)
  /\ (forall (g0 : Globals Col) (value : float),
        let '(h, s, l) := currentHSLuv Col g0 in
        currentHSLuv Col (onKnobChange M Col g0 (hueChanged value)) = (value * 360, s, l)
        /\ currentHSLuv Col (onKnobChange M Col g0 (satChanged value)) = (h, value * 100, l)
        /\ currentHSLuv Col (onKnobChange M Col g0 (lightChanged value)) = (h, s, value * 100)).
Proof.
  split; [|split; [reflexivity|]].
  - assert (H : forall g0,
               baseColour Col g0 = HSLuv.toColour M Col (currentHSLuv Col g0)
               /\ palette Col g0 = Some (generateButtonPalette M Col (baseColour Col g0)) ->
               let g := fold_left (onKnobChange M Col) changes g0 in
               baseColour Col g = HSLuv.toColour M Col (currentHSLuv Col g)
               /\ palette Col g = Some (generateButtonPalette M Col (baseColour Col g))).
    { induction changes as [|change rest IH]; intros g0 H0; [exact H0|].
      cbn [fold_left]. apply IH. apply onKnobChange_in_step. }
    apply H. split; reflexivity.
  - intros g0 value. cbn [onKnobChange]. unfold onHueControl, onSatControl, onLightControl.
    destruct (currentHSLuv Col g0) as [[h s] l]. repeat split.
Qed.

(** X21: a knob value inside [[0, 1]] gives a component inside the range
    of HSLuv: the hue callback stores a hue inside [[0, 360]] and the
    saturation and lightness callbacks a number inside [[0, 100]]; the
    products are rounded binary64 products. *)
Theorem knob_values_give_components_in_range (M : Math.api) (Col : Colours.api)
    (g : Globals Col) (value : float) (Hv : inRange 0 1 value) :
  inRange 0 360 (fst (fst (currentHSLuv Col (onKnobChange M Col g (hueChanged value)))))
  /\ inRange 0 100 (snd (fst (currentHSLuv Col (onKnobChange M Col g (satChanged value)))))
  /\ inRange 0 100 (snd (currentHSLuv Col (onKnobChange M Col g (lightChanged value)))).
Proof.
  cbn [onKnobChange]. unfold onHueControl, onSatControl, onLightControl.
  destruct (currentHSLuv Col g) as [[h s] l]. cbn [updateAll fst snd currentHSLuv].
  destruct Hv as [H0 H1].
  destruct (inRange_valOf 1 value _ valOf_1 H0 H1) as (v & Hval & Bv).
  pose proof unitVal_pos as U.
  assert (P : (0 < 2 ^ bias)%Z) by exact U.
  assert (A : inRange 0 360 (value * 360.0)).
  { destruct (mul_upper value 360 360 v (360 * unitVal) (360 * unitVal)%Z
                Hval valOf_360 ltac:(lia) valOf_360 ltac:(lia)) as (vh & Hh & Bh).
    - fold unitVal. nia.
    - exact (valOf_inRange 360 _ _ vh valOf_360 Hh Bh). }
  assert (B : inRange 0 100 (value * 100.0)).
  { destruct (mul_upper value 100 100 v (100 * unitVal) (100 * unitVal)%Z
                Hval valOf_100 ltac:(lia) valOf_100 ltac:(lia)) as (vh & Hh & Bh).
    - fold unitVal. nia.
    - exact (valOf_inRange 100 _ _ vh valOf_100 Hh Bh). }
  split; [exact A|]. split; exact B.
Qed.

Lemma knob_values_give_components_in_range_witness :
  inRange 0 1 0.25
  /\ inRange 0 360
       (fst (fst (currentHSLuv arrayColours
                    (onKnobChange tableHost arrayColours
                       (initGlobals tableHost arrayColours) (hueChanged 0.25))))).
Proof.
  split; [split; reflexivity|].
  exact (proj1 (knob_values_give_components_in_range tableHost arrayColours
                  (initGlobals tableHost arrayColours) 0.25 (conj eq_refl eq_refl))).
Defined.

(** ** The knobs *)

Lemma knob_drag_value (floor : float -> float) (k : InfiniteKnob.Panel)
    (event : InfiniteKnob.MouseEvent) :
  InfiniteKnob.isInfinite k = false ->
  inRange 0 1 (InfiniteKnob.value k) -> is_finite (InfiniteKnob.startVal k) = true ->
  InfiniteKnob.sensitivity k = 0.005 ->
  is_nan (InfiniteKnob.dragY event) = false ->
  let k' := fst (InfiniteKnob.mouseCallback floor k event) in
  InfiniteKnob.isInfinite k' = false
  /\ inRange 0 1 (InfiniteKnob.value k') /\ is_finite (InfiniteKnob.startVal k') = true
  /\ InfiniteKnob.sensitivity k' = 0.005.
Proof.
  intros Hinf Hv Hs Hsens Hy. unfold InfiniteKnob.mouseCallback.
  destruct (InfiniteKnob.clicked event).
  { cbn. repeat split; try assumption; try apply Hv.
    exact (inRange_finite 0 1 _ eq_refl eq_refl Hv). }
  destruct (InfiniteKnob.drag event); [|cbn; auto].
  rewrite Hinf, Hsens. cbn [fst InfiniteKnob.isInfinite InfiniteKnob.value
                            InfiniteKnob.startVal InfiniteKnob.sensitivity].
  split; [reflexivity|]. split; [|split; [exact Hs|reflexivity]].
  set (newVal := InfiniteKnob.startVal k + - (InfiniteKnob.dragY event * 0.005)).
  assert (Hn : is_nan newVal = false).
  { apply add_finite_not_nan; [exact Hs|]. rewrite opp_is_nan.
    apply (mul_finite_not_nan _ 0.005 5764607523034235 (-60) false); [reflexivity|exact Hy]. }
  destruct (newVal <? 0.0) eqn:H0; [split; reflexivity|].
  destruct (newVal >? 1.0) eqn:H1; [split; reflexivity|].
  split; apply not_ltb_leb; try assumption; reflexivity.
Qed.

(** X22: a knob that is not infinite keeps its value inside [[0, 1]].  For
    a knob made by [InfiniteKnob.create] with a default value inside
    [[0, 1]], after every sequence of mouse events whose [dragY] is not NaN
    (however large, the infinities included) the value is inside [[0, 1]];
    a click stores the value as the start of the drag, and a drag sets the
    value to start - dragY * 0.005 limited to [[0, 1]]. *)
Theorem bounded_knob_stays_in_unit_interval (floor : float -> float)
    (labelText : string) (defaultValue : float)
    (events : list InfiniteKnob.MouseEvent)
    (Hd : inRange 0 1 defaultValue)
    (He : forallb (fun e => negb (is_nan (InfiniteKnob.dragY e))) events = true) :
  inRange 0 1
    (InfiniteKnob.value
       (knobAfter floor events (InfiniteKnob.create labelText false defaultValue))).
Proof.
  assert (G : forall k,
             InfiniteKnob.isInfinite k = false ->
             inRange 0 1 (InfiniteKnob.value k) ->
             is_finite (InfiniteKnob.startVal k) = true ->
             InfiniteKnob.sensitivity k = 0.005 ->
             inRange 0 1 (InfiniteKnob.value (knobAfter floor events k))).
  { induction events as [|event rest IH]; intros k H1 H2 H3 H4; [exact H2|].
    cbn [forallb] in He. apply andb_true_iff in He. destruct He as [Hy Hrest].
    apply negb_true_iff in Hy.
    destruct (knob_drag_value floor k event H1 H2 H3 H4 Hy) as (A & B & C & D).
    unfold knobAfter. cbn [fold_left]. apply (IH Hrest); assumption. }
  apply G; try reflexivity. exact Hd.
Qed.

Lemma bounded_knob_stays_in_unit_interval_witness :
  inRange 0 1
    (InfiniteKnob.value
       (knobAfter (fun x => x)
          [ {| InfiniteKnob.clicked := true; InfiniteKnob.drag := false;
               InfiniteKnob.dragY := 0 |};
            {| InfiniteKnob.clicked := false; InfiniteKnob.drag := true;
               InfiniteKnob.dragY := -500 |} ]
          (InfiniteKnob.create "Sat" false 0.75))).
Proof.
  exact (bounded_knob_stays_in_unit_interval (fun x => x) "Sat" 0.75
           [ {| InfiniteKnob.clicked := true; InfiniteKnob.drag := false;
                InfiniteKnob.dragY := 0 |};
             {| InfiniteKnob.clicked := false; InfiniteKnob.drag := true;
                InfiniteKnob.dragY := -500 |} ]
           (conj eq_refl eq_refl) eq_refl).
Defined.

(** ** The test button *)

Lemma button_step_disabled (flags : StateFlags) (event : ButtonEvent) :
  flag_disabled flags = true -> isDisableSwitch event = false ->
  let '(flags', calls) := onButtonEvent flags event in
  flag_disabled flags' = true
  /\ (flag_clicked flags' = true -> flag_clicked flags = true)
  /\ flag_hover flags' = flag_hover flags
  /\ ~ In grabFocus calls /\ (forall ms, ~ In (startTimer ms) calls).
Proof.
  intros Hd He. destruct flags as [d c h f ff]. cbn in Hd. subst d.
  destruct event as [e| |e|v|v]; try discriminate; cbn.
  - unfold TestColourPanel.keyPressCallback. cbn.
    destruct (TestColourPanel.isFocusChange e); cbn;
      repeat split; auto; try (intros [H|[]]; discriminate); try (intros ms [H|[]]; discriminate).
  - repeat split; auto; try discriminate.
    + intros [H|[H|[]]]; discriminate.
    + intros ms [H|[H|[]]]; discriminate.
  - repeat split; auto.
  - repeat split; auto; try (intros [H|[]]; discriminate); try (intros ms [H|[]]; discriminate).
Qed.

(** X23: a disabled button is inert.  While the disabled flag is set, no
    sequence of key presses, focus changes, timer ticks, mouse events and
    focus-demo switches clears it: the button resolves to the disabled
    state after all of them, the clicked flag is never raised, the hover
    flag never changes, and the host is never asked to grab the focus or to
    start the click timer. *)
Theorem disabled_button_is_inert (events : list ButtonEvent) (flags : StateFlags)
    (Hd : flag_disabled flags = true)
    (He : forallb (fun e => negb (isDisableSwitch e)) events = true) :
  let '(flags', calls) := buttonAfter events flags in
  flag_disabled flags' = true
  /\ resolveButtonState flags' = "disabled"%string
  /\ (flag_clicked flags' = true -> flag_clicked flags = true)
  /\ flag_hover flags' = flag_hover flags
  /\ ~ In grabFocus calls /\ (forall ms, ~ In (startTimer ms) calls).
Proof.
  revert flags Hd. induction events as [|event rest IH]; intros flags Hd.
  - cbn. unfold resolveButtonState. rewrite Hd. repeat split; auto.
  - cbn [forallb] in He. apply andb_true_iff in He. destruct He as [H1 H2].
    apply negb_true_iff in H1.
    pose proof (button_step_disabled flags event Hd H1) as S.
    cbn [buttonAfter]. destruct (onButtonEvent flags event) as [flags1 calls1].
    destruct S as (A & B & C & D & E).
    specialize (IH H2 flags1 A).
    destruct (buttonAfter rest flags1) as [flags2 calls2].
    destruct IH as (A' & R' & B' & C' & D' & E').
    split; [exact A'|]. split; [exact R'|]. split; [auto|]. split; [congruence|].
    split.
    + intros Hin. apply in_app_or in Hin. destruct Hin; auto.
    + intros ms Hin. apply in_app_or in Hin. destruct Hin as [Hin|Hin];
        [exact (E ms Hin)|exact (E' ms Hin)].
Qed.

Lemma disabled_button_is_inert_witness :
  resolveButtonState
    (fst (buttonAfter
            [ mouse {| TestColourPanel.clicked := true; TestColourPanel.mouseUp := false;
                       TestColourPanel.hover := 1 |};
              keyPress {| TestColourPanel.isFocusChange := false;
                          TestColourPanel.hasFocus := true;
                          TestColourPanel.keyCode := 32 |};
              timer ]
            (TestColourPanel.set_disabled true TestColourPanel.initFlags)))
  = "disabled"%string.
Proof.
  exact (proj1 (proj2 (disabled_button_is_inert
                         [ mouse {| TestColourPanel.clicked := true;
                                    TestColourPanel.mouseUp := false;
                                    TestColourPanel.hover := 1 |};
                           keyPress {| TestColourPanel.isFocusChange := false;
                                       TestColourPanel.hasFocus := true;
                                       TestColourPanel.keyCode := 32 |};
                           timer ]
                         (TestColourPanel.set_disabled true TestColourPanel.initFlags)
                         eq_refl eq_refl))).
Defined.

(** X24: a key press of Space (32) or Enter (13) on an enabled button is a
    click that ends with the timer: the press raises the clicked flag, asks
    for a repaint and starts a timer of 150 ms, so the button resolves to
    clicked (to focus while the focus demo is on); the timer callback stops
    the timer and lowers the flag, leaving every other flag as it was.  A
    press of any other key changes nothing and asks nothing of the host. *)
Theorem keyboard_click_round_trip (flags : StateFlags) (code : Z) (focused : bool)
    (Hen : flag_disabled flags = false) :
  let press k := keyPress {| TestColourPanel.isFocusChange := false;
                             TestColourPanel.hasFocus := focused;
                             TestColourPanel.keyCode := k |} in
  (code = 32%Z \/ code = 13%Z ->
   onButtonEvent flags (press code)
     = (TestColourPanel.set_clicked true flags, [repaint; startTimer 150])
   /\ resolveButtonState (TestColourPanel.set_clicked true flags)
      = (if flag_forceFocus flags then "focus" else "clicked")%string
   /\ buttonAfter [press code; timer] flags
      = (TestColourPanel.set_clicked false flags,
         [repaint; startTimer 150; stopTimer; repaint]))
  /\ (code <> 32%Z -> code <> 13%Z -> onButtonEvent flags (press code) = (flags, [])).
Proof.
  intros press. destruct flags as [d c h f ff]. cbn in Hen. subst d. split.
  - intros Hc.
    assert (E : ((code =? 32)%Z || (code =? 13)%Z) = true).
    { destruct Hc as [-> | ->]; reflexivity. }
    assert (S : onButtonEvent
                  {| flag_disabled := false; flag_clicked := c; flag_hover := h;
                     flag_focus := f; flag_forceFocus := ff |} (press code)
                = (TestColourPanel.set_clicked true
                     {| flag_disabled := false; flag_clicked := c; flag_hover := h;
                        flag_focus := f; flag_forceFocus := ff |},
                   [repaint; startTimer 150])).
    { cbn. unfold TestColourPanel.keyPressCallback. cbn. rewrite E. reflexivity. }
    split; [exact S|]. split.
    + destruct ff; reflexivity.
    + cbn [buttonAfter]. rewrite S. reflexivity.
  - intros N1 N2. cbn. unfold TestColourPanel.keyPressCallback. cbn.
    apply Z.eqb_neq in N1, N2. rewrite N1, N2. reflexivity.
Qed.

Lemma keyboard_click_round_trip_witness :
  flag_disabled TestColourPanel.initFlags = false
  /\ buttonAfter [ keyPress {| TestColourPanel.isFocusChange := false;
                               TestColourPanel.hasFocus := true;
                               TestColourPanel.keyCode := 13 |};
                   timer ] TestColourPanel.initFlags
     = (TestColourPanel.initFlags, [repaint; startTimer 150; stopTimer; repaint]).
Proof.
  split; [reflexivity|].
  exact (proj2 (proj2 (proj1 (keyboard_click_round_trip TestColourPanel.initFlags 13 true
                                eq_refl) (or_intror eq_refl)))).
Defined.

(** X25: the paint routine always paints the resolved state, and only it.
    For every combination of flags it sets the font, fills the rounded
    rectangle with the background of the palette entry that
    [resolveButtonState] names, and writes the state's capitalised name in
    that entry's text colour; the outline is drawn, 3 wide, in the focus
    state only.  The switch has a case for every state the resolver can
    return, so no paint leaves the button blank.  A palette that is
    undefined is first generated from [baseColour]. *)
Theorem paintRoutine_paints_resolved_state (M : Math.api) (Col : Colours.api)
    (baseColour : Colours.colour Col) (palette : option (PaletteT Col))
    (flags : StateFlags) (w h : Z) :
  let state := resolveButtonState flags in
  let area := (2, 2, w - 4, h - 4)%Z in
  let '(p, calls) := TestColourPanel.paintRoutine M Col baseColour palette flags w h in
  p = match palette with
      | Some q => q
      | None => generateButtonPalette M Col baseColour
      end
  /\ exists e : Entry Col,
       entryOf Col p state = Some e
       /\ calls
          = [ TestColourPanel.setFont Col "default" 22;
              TestColourPanel.setColour Col (background Col e);
              TestColourPanel.fillRoundedRectangle Col area 8 ]
            ++ (if String.eqb state "focus" then
                  match outline Col e with
                  | Some c => [ TestColourPanel.setColour Col c;
                                TestColourPanel.drawRoundedRectangle Col area 8 3 ]
                  | None => []
                  end
                else [])
            ++ [ TestColourPanel.setColour Col (text Col e);
                 TestColourPanel.drawAlignedText Col (captionOf state) area "centred" ].
Proof.
  unfold TestColourPanel.paintRoutine.
  split; [destruct palette; reflexivity|].
  destruct flags as [[] [] [] [] []]; cbn; eexists; (split; [reflexivity|reflexivity]).
Qed.

(** * Chroma and contrast *)

(** ** The chroma stays inside the gamut *)

Lemma scaled_chroma_bounds (maxC S : float) :
  (0 <=? maxC) = true -> is_finite maxC = true -> (maxC <=? HSLuv.EPS) = false ->
  let C := HSLuv.sanitize (maxC * (Math.range (HSLuv.sanitize S) 0.0 100.0 / 100.0)) in
  (0 <=? C) = true /\ (C <=? maxC) = true /\ is_finite C = true
  /\ (is_finite S = true -> (100 <=? S) = true -> (maxC <=? C) = true).
Proof.
  intros H0 Hf HE C.
  destruct (valOf_nonneg_finite maxC H0 Hf) as (vm & Hm & Pm).
  assert (Hsat : inRange 0 100 (Math.range (HSLuv.sanitize S) 0.0 100.0)).
  { apply range_bounds; [apply sanitize_not_nan|reflexivity]. }
  destruct Hsat as [Hs0 Hs1].
  destruct (inRange_valOf 100 _ _ valOf_100 Hs0 Hs1) as (vs & Hs & Bs).
  pose proof unitVal_pos as U.
  assert (P : (0 < 2 ^ bias)%Z) by exact U.
  destruct (div_upper _ 100 1 vs (100 * unitVal)%Z unitVal Hs valOf_100 ltac:(lia) valOf_1 U)
    as (vt & Ht & Bt).
  { unfold unitVal in *. nia. }
  set (t := Math.range (HSLuv.sanitize S) 0.0 100.0 / 100.0) in *.
  assert (Hpos : (0 < vm)%Z).
  { destruct (Z.eq_dec vm 0) as [Hz|]; [|lia]. subst vm.
    pose proof (valOf_zero _ Hm) as Z0.
    assert ((maxC <=? HSLuv.EPS) = true) by (apply isZero_leb; [exact Z0|reflexivity]).
    congruence. }
  destruct (Z.eq_dec vt 0) as [Hz|Hnz].
  - (* the scaled saturation is a zero *)
    subst vt. pose proof (valOf_zero _ Ht) as Zt.
    pose proof (finite_mul_zero maxC t Hf Zt) as Zp.
    unfold C. rewrite (isZero_sanitize _ Zp).
    split; [destruct Zp as [-> | ->]; reflexivity|].
    split; [apply isZero_leb; assumption|].
    split; [apply isZero_finite, Zp|].
    intros HSf H100. exfalso.
    (* S >= 100 gives the scaled saturation 1 *)
    assert (Er : Math.range (HSLuv.sanitize S) 0.0 100.0 / 100.0 = 1).
    { rewrite (sanitize_finite S HSf). unfold Math.range.
      rewrite (leb_not_ltb _ _ (leb_trans 0 100 S eq_refl H100)).
      destruct (100.0 <? S) eqn:Hgt; [reflexivity|].
      assert (S = 100) by (apply (leb_antisym_pos 100 S 7036874417766400 (-46));
                           [reflexivity|exact H100|
                            apply not_ltb_leb; [reflexivity|apply (leb_not_nan _ _ H100)|exact Hgt]]).
      subst S. reflexivity. }
    fold t in Er. rewrite Er in Ht. discriminate.
  - assert (Pt : (0 < vt)%Z) by lia.
    destruct (mul_upper maxC t maxC vm vt vm Hm Ht Pt Hm Hpos) as (vh & Hh & Bh).
    { unfold unitVal in *. nia. }
    destruct (valOf_finite _ _ Hh) as [Hfin Hnn].
    unfold C. rewrite (sanitize_finite _ Hfin).
    split; [exact Hnn|]. split; [apply (leb_valOf _ _ vh vm Hh Hm); lia|].
    split; [exact Hfin|].
    intros HSf H100.
    assert (Er : t = 1).
    { unfold t. rewrite (sanitize_finite S HSf). unfold Math.range.
      rewrite (leb_not_ltb _ _ (leb_trans 0 100 S eq_refl H100)).
      destruct (100.0 <? S) eqn:Hgt; [reflexivity|].
      assert (S = 100) by (apply (leb_antisym_pos 100 S 7036874417766400 (-46));
                           [reflexivity|exact H100|
                            apply not_ltb_leb; [reflexivity|apply (leb_not_nan _ _ H100)|exact Hgt]]).
      subst S. reflexivity. }
    rewrite Er in *.
    apply (mul_lower maxC 1 maxC vm unitVal vm Hm Hpos valOf_1 U Hm Hpos).
    unfold unitVal in *. nia.
Qed.

(** X7: the chroma of [hsluvToLch] stays inside the gamut.  For every
    input and every host, [hsluvToLch] returns the sanitised L and H and a
    finite chroma between 0 and [maxChromaForLH] of that L and H, as
    binary64 numbers; away from the lightness extremes, when the solver's
    maximum exceeds EPS and S is a finite number of at least 100, the
    chroma is the maximum itself. *)
Theorem hsluvToLch_chroma_within_gamut (M : Math.api) (H S L : float) :
  let '(l, c, h) := HSLuv.hsluvToLch M (H, S, L) in
  l = HSLuv.sanitize L /\ h = HSLuv.sanitize H
  /\ is_finite c = true
  /\ (0 <=? c) = true /\ (c <=? HSLuv.maxChromaForLH M l h) = true
  /\ (atExtreme l = false -> (HSLuv.maxChromaForLH M l h <=? HSLuv.EPS) = false ->
      is_finite S = true -> (100 <=? S) = true ->
      (HSLuv.maxChromaForLH M l h <=? c) = true).
Proof.
  unfold HSLuv.hsluvToLch.
  pose proof (maxChromaForLH_nonneg M (HSLuv.sanitize L) (HSLuv.sanitize H)) as H0.
  pose proof (maxChromaForLH_finite M (HSLuv.sanitize L) (HSLuv.sanitize H)) as Hf.
  destruct ((HSLuv.sanitize L <? HSLuv.EPS) || (HSLuv.sanitize L >? 99.99999)) eqn:Hex.
  { split; [reflexivity|]. split; [reflexivity|]. split; [reflexivity|].
    split; [reflexivity|]. split; [exact H0|].
    intros Hne. unfold atExtreme in Hne. rewrite Hex in Hne. discriminate. }
  destruct (HSLuv.maxChromaForLH M (HSLuv.sanitize L) (HSLuv.sanitize H) <=? HSLuv.EPS) eqn:HE.
  { split; [reflexivity|]. split; [reflexivity|]. split; [reflexivity|].
    split; [reflexivity|]. split; [exact H0|].
    intros _ Hc. congruence. }
  destruct (scaled_chroma_bounds _ S H0 Hf HE) as (A & B & C & D).
  split; [reflexivity|]. split; [reflexivity|]. split; [exact C|].
  split; [exact A|]. split; [exact B|]. intros _ _. exact D.
Qed.

(** ** The contrast ratio *)

Lemma max_min_values (l1 l2 : float) (v1 v2 : Z) :
  valOf l1 = Some v1 -> valOf l2 = Some v2 ->
  exists vhi vlo,
    valOf (Math.max l1 l2) = Some vhi /\ valOf (Math.min l1 l2) = Some vlo
    /\ (vlo <= vhi)%Z
    /\ ((vhi = v1 /\ vlo = v2) \/ (vhi = v2 /\ vlo = v1) \/ (vhi = v1 /\ vlo = v1)).
Proof.
  intros H1 H2. unfold Math.max, Math.min.
  destruct (l1 <? l2) eqn:H12.
  - rewrite (ltb_asym _ _ H12). pose proof (valOf_ltb _ _ _ _ H1 H2 H12).
    exists v2, v1. repeat split; auto; lia.
  - destruct (l2 <? l1) eqn:H21.
    + pose proof (valOf_ltb _ _ _ _ H2 H1 H21).
      exists v1, v2. repeat split; auto; lia.
    + exists v1, v1. repeat split; auto; lia.
Qed.

Lemma contrast_of_luminances (l1 l2 : float) :
  inRange 0 1 l1 -> inRange 0 1 l2 ->
  let c := (Math.max l1 l2 + 0.05) / (Math.min l1 l2 + 0.05) in
  inRange 1 21 c
  /\ (Math.max l2 l1 + 0.05) / (Math.min l2 l1 + 0.05) = c
  /\ (Math.max l1 l1 + 0.05) / (Math.min l1 l1 + 0.05) = 1.
Proof.
  intros [A1 B1] [A2 B2] c.
  destruct (inRange_valOf 1 l1 _ valOf_1 A1 B1) as (v1 & H1 & R1).
  destruct (inRange_valOf 1 l2 _ valOf_1 A2 B2) as (v2 & H2 & R2).
  assert (Self : forall l v, valOf l = Some v -> (0 <= v <= unitVal)%Z ->
                   (l + 0.05) / (l + 0.05) = 1).
  { intros l v Hl Rl. destruct (add_005_value l v Hl Rl) as (s & Hs & Bs).
    destruct contrast_constants as (C1 & _).
    apply (div_self _ s Hs). lia. }
  split; [|split].
  - destruct (max_min_values l1 l2 v1 v2 H1 H2) as (vhi & vlo & Hhi & Hlo & Hle & Hcases).
    assert (Rhi : (0 <= vhi <= unitVal)%Z) by (destruct Hcases as [[-> ->]|[[-> ->]|[-> ->]]]; lia).
    assert (Rlo : (0 <= vlo <= unitVal)%Z) by (destruct Hcases as [[-> ->]|[[-> ->]|[-> ->]]]; lia).
    destruct (add_005_value _ vhi Hhi Rhi) as (sa & Ha & Ba).
    destruct (add_005_value _ vlo Hlo Rlo) as (sb & Hb & Bb).
    destruct contrast_constants as (C1 & _).
    pose proof (add_mono _ _ 0.05 vlo vhi _ Hlo Hhi valOf_005 C1 Hle) as Hmono.
    pose proof (valOf_leb _ _ _ _ Hb Ha Hmono) as Hba.
    apply (ratio_between_1_and_21 _ _ sa sb Ha Hb); lia.
  - unfold c, Math.max, Math.min.
    destruct (l1 <? l2) eqn:H12.
    + rewrite (ltb_asym _ _ H12). reflexivity.
    + destruct (l2 <? l1) eqn:H21; [reflexivity|].
      rewrite (Self l1 v1 H1 R1), (Self l2 v2 H2 R2). reflexivity.
  - unfold Math.max, Math.min.
    assert (E : (l1 <? l1) = false).
    { destruct (l1 <? l1) eqn:E; [|reflexivity]. rewrite (ltb_asym _ _ E) in E. discriminate. }
    rewrite E. exact (Self l1 v1 H1 R1).
Qed.

(** X26: the contrast ratio of two colours whose relative luminances are
    inside [[0, 1]] is inside [[1, 21]], the range of the WCAG contrast
    ratio, as a binary64 number; it does not depend on the order of the two
    colours, and the contrast of a colour with itself is exactly 1. *)
Theorem getContrast_between_1_and_21 (M : Math.api) (hsluv1 hsluv2 : vec3)
    (H1 : inRange 0 1 (getLuminance M hsluv1))
    (H2 : inRange 0 1 (getLuminance M hsluv2)) :
  inRange 1 21 (getContrast M hsluv1 hsluv2)
  /\ getContrast M hsluv2 hsluv1 = getContrast M hsluv1 hsluv2
  /\ getContrast M hsluv1 hsluv1 = 1.
Proof.
  unfold getContrast.
  exact (contrast_of_luminances _ _ H1 H2).
Qed.

Lemma getContrast_between_1_and_21_witness :
  inRange 0 1 (getLuminance tableHost (0, 0, 0))
  /\ inRange 1 21 (getContrast tableHost (0, 0, 0) (0, 0, 0)).
Proof.
  split; [split; reflexivity|].
  exact (proj1 (getContrast_between_1_and_21 tableHost (0, 0, 0) (0, 0, 0)
                  (conj eq_refl eq_refl) (conj eq_refl eq_refl))).
Defined.

(** * The relative luminance *)

Section Luminance.

Variable M : Math.api.

(** The host's [pow] keeps the interval [[0, 1]] for the exponent 2.4. *)
Hypothesis pow_unit :
  forall x : float, inRange 0 1 x -> inRange 0 1 (Math.pow M x 2.4).

Lemma toLinear_unit (c : float) :
  inRange 0 1 c -> inRange 0 1 (toLinear M c).
Proof.
  intros [H0 H1].
  destruct (inRange_valOf 1 c _ valOf_1 H0 H1) as (vc & Hc & Bc).
  pose proof unitVal_pos as U.
  unfold toLinear. destruct (c <=? 0.04045).
  - destruct (valOf_between 1 12.92 100 _ _ valOf_1 valOf_100 eq_refl eq_refl)
      as (vd & Hd & Bd).
    destruct (div_upper c 12.92 1 vc vd unitVal Hc Hd ltac:(lia) valOf_1 U)
      as (vh & Hh & Bh).
    { unfold unitVal in *. nia. }
    exact (valOf_inRange 1 _ _ vh valOf_1 Hh Bh).
  - apply pow_unit.
    assert (K : exists vk, valOf 0.055 = Some vk /\ (0 < vk)%Z).
    { eexists. split; vm_compute; reflexivity. }
    destruct K as (vk & Hk & Pk).
    assert (D : exists vd, valOf 1.055 = Some vd /\ (0 < vd)%Z).
    { eexists. split; vm_compute; reflexivity. }
    destruct D as (vd & Hd & Pd).
    destruct (add_below c 0.055 1 0.055 1.055 vc vk unitVal vk vd
                Hc Hk valOf_1 Hk ltac:(lia) ltac:(lia) eq_refl Hd)
      as (vs & Hs & Bs).
    destruct (div_upper (c + 0.055) 1.055 1 vs vd unitVal Hs Hd Pd valOf_1 U)
      as (vh & Hh & Bh).
    { unfold unitVal in *. nia. }
    exact (valOf_inRange 1 _ _ vh valOf_1 Hh Bh).
Qed.

Lemma weighted_sum_unit (r g b : float) :
  inRange 0 1 r -> inRange 0 1 g -> inRange 0 1 b ->
  inRange 0 1 (0.2126 * r + 0.7152 * g + 0.0722 * b).
Proof.
  intros [R0 R1] [G0 G1] [B0 B1].
  assert (W1 : exists v, valOf 0.2126 = Some v /\ (0 < v)%Z)
    by (eexists; split; vm_compute; reflexivity).
  assert (W2 : exists v, valOf 0.7152 = Some v /\ (0 < v)%Z)
    by (eexists; split; vm_compute; reflexivity).
  assert (W3 : exists v, valOf 0.0722 = Some v /\ (0 < v)%Z)
    by (eexists; split; vm_compute; reflexivity).
  assert (W12 : exists v, valOf (0.2126 + 0.7152) = Some v)
    by (eexists; vm_compute; reflexivity).
  destruct W1 as (w1 & Hw1 & P1). destruct W2 as (w2 & Hw2 & P2).
  destruct W3 as (w3 & Hw3 & P3). destruct W12 as (w12 & Hw12).
  destruct (mul_unit_le 0.2126 r w1 Hw1 P1 R0 R1) as (v1 & Hv1 & Bv1).
  destruct (mul_unit_le 0.7152 g w2 Hw2 P2 G0 G1) as (v2 & Hv2 & Bv2).
  destruct (mul_unit_le 0.0722 b w3 Hw3 P3 B0 B1) as (v3 & Hv3 & Bv3).
  destruct (add_below _ _ 0.2126 0.7152 (0.2126 + 0.7152) v1 v2 w1 w2 w12
              Hv1 Hv2 Hw1 Hw2 ltac:(lia) ltac:(lia) eq_refl Hw12)
    as (s1 & Hs1 & Bs1).
  destruct (add_below _ _ (0.2126 + 0.7152) 0.0722 1 s1 v3 w12 w3 unitVal
              Hs1 Hv3 Hw12 Hw3 ltac:(lia) ltac:(lia) eq_refl valOf_1)
    as (s2 & Hs2 & Bs2).
  exact (valOf_inRange 1 _ _ s2 valOf_1 Hs2 Bs2).
Qed.

Lemma getLuminance_unit (hsluv : vec3) :
  inRange 0 1 (getLuminance M hsluv).
Proof.
  pose proof (hsluvToRgb_channels M hsluv) as Hch.
  unfold getLuminance, HSLuv.toVec4.
  destruct (HSLuv.hsluvToRgb M hsluv) as [[r g] b]. destruct Hch as (Hr & Hg & Hb).
  apply weighted_sum_unit; apply toLinear_unit; assumption.
Qed.

End Luminance.

(** X18: on a host whose [pow] keeps the interval [[0, 1]] for the
    exponent 2.4, the relative luminance of every HSLuv input (NaN and
    infinite components included) is a binary64 number inside [[0, 1]],
    and the contrast ratio of any two inputs is inside [[1, 21]]. *)
Theorem getLuminance_in_unit_interval (M : Math.api)
    (pow_unit : forall x : float, inRange 0 1 x -> inRange 0 1 (Math.pow M x 2.4))
    (hsluv1 hsluv2 : vec3) :
  inRange 0 1 (getLuminance M hsluv1)
  /\ inRange 1 21 (getContrast M hsluv1 hsluv2).
Proof.
  split; [apply getLuminance_unit, pow_unit|].
  unfold getContrast.
  exact (proj1 (contrast_of_luminances _ _ (getLuminance_unit M pow_unit hsluv1)
                  (getLuminance_unit M pow_unit hsluv2))).
Qed.

Lemma getLuminance_in_unit_interval_witness :
  (forall x : float, inRange 0 1 x -> inRange 0 1 (Math.pow linearHost x 2.4))
  /\ inRange 0 1 (getLuminance linearHost (120, 50, 50))
  /\ inRange 1 21 (getContrast linearHost (120, 50, 50) (0, 0, 100)).
Proof.
  split; [exact (fun x H => H)|].
  exact (getLuminance_in_unit_interval linearHost (fun x H => H) (120, 50, 50) (0, 0, 100)).
Defined.

(** * The chroma solver and its sentinel *)



(** * Sanitising and clamping of the public conversions *)

(** ** The hue that [fromColour] returns *)







(** ** Every stage sanitises what it is given *)


(** ** An infinite ray length *)



(** The closed upper limit is met by an array that a script hands to
    [fromVec4] itself (the channels of a packed colour are multiples of
    1/255; these are not): for the channels
    (0.03671530207839739, 0.0034549649725305557, 0.008655341358101068) the
    hue angle is atan of q = -3.8379474058075058e-16, and on a host whose
    atan returns q for so small a q and whose toDegrees maps it to
    q * 180 / pi = -2.1989818834595313e-14, adding 360 gives exactly 360.
    The clamp of [fromColour] keeps it. *)
Lemma fromVec4_hue_reaches_360 (M : Math.api) :
  Math.atan M (-3.8379474058075058e-16) = -3.8379474058075058e-16 ->
  Math.toDegrees M (-3.8379474058075058e-16) = -2.1989818834595313e-14 ->
  let v : vec4 :=
    (0.03671530207839739, 0.0034549649725305557, 0.008655341358101068, 1) in
  fst (fst (HSLuv.fromVec4 M v)) = 360
  /\ fst (fst (HSLuv.fromColourVec4 M v)) = 360.
Proof.
  intros Hatan Hdeg v.
  assert (Hh : fst (fst (HSLuv.fromVec4 M v)) = 360).
  { unfold v, HSLuv.fromVec4, HSLuv.rgbToHsluv.
    set (luv := HSLuv.xyzToLuv M _).
    assert (Hluv : luv = (0.76233976385562063, 1.4334189471706169, -5.5013865297287956e-16))
      by (vm_compute; reflexivity).
    rewrite Hluv. clear luv Hluv.
    assert (Hlch : HSLuv.luvToLch M
                     (0.76233976385562063, 1.4334189471706169, -5.5013865297287956e-16)
                   = (0.76233976385562063, 1.4334189471706169, 360)).
    { unfold HSLuv.luvToLch.
      replace (HSLuv.myAtan2 M (HSLuv.sanitize (-5.5013865297287956e-16))
                                (HSLuv.sanitize 1.4334189471706169))
        with (Math.atan M (-3.8379474058075058e-16)) by (vm_compute; reflexivity).
      rewrite Hatan, Hdeg. vm_compute. reflexivity. }
    rewrite Hlch.
    destruct (lchToHsluv_shape M 0.76233976385562063 1.4334189471706169 360)
      as (s & -> & _).
    reflexivity. }
  split; [exact Hh|].
  unfold HSLuv.fromColourVec4.
  destruct (HSLuv.fromVec4 M v) as [[h0 h1] h2]. cbn [fst] in Hh |- *. subst h0.
  reflexivity.
Qed.
